(** * Animated Sankey particle flow (sankey.js): a shallow embedding

    The embedding follows the JavaScript source function by function:
    [lightenAndDesaturateColor], the [Particle] class ([Particle_new],
    [Particle_update], [Particle_draw], [getPointAtProgress]),
    [prepareParticlesForClass], the frame callback [animate] and
    [renderAnimatedSankeyDiagram] together with the host's
    requestAnimationFrame queue.

    Numbers.  JavaScript numbers are rationals ([Q]).  The colours, the
    delays of the queue, the timers and the positions are computed exactly;
    what is proved of them is stated so that the last bits of a double do
    not matter (ranges, bounds, equations between quantities the code
    computes in the same way).  Where a last bit decides what the code does,
    the operations are rounded as the code rounds them, by [binary64]: the
    progress of a particle in [Particle_update_binary64] (a particle is
    removed in the frame in which its progress reaches 1) and the
    percentages printed by [toFixed(1)].  NaN and the infinities are
    modelled where a division by zero produces them ([JSNumber],
    [checkedDivide]) and where [parseInt] finds no digit ([None]).  Link
    values are integers ([Z]), as the data files deliver them.

    Host.  What the browser and d3 supply is an interface ([Host]) the
    development is parameterised by: the stream of [Math.random()] results,
    [Math.sqrt], [Math.sin], [Math.PI], the SVG path sampler
    ([getTotalLength], [getPointAtLength]), d3's path generator
    [sankeyLinkHorizontal], the scale of the d3-sankey layout and the error
    the layout throws on a graph it refuses.

    Around the engine.  Also embedded are the comparator given to
    [nodeSort], the summary lines and their percentages, and the page code of
    main.js that calls the module and that the module calls: [showPanel],
    [initializePanelContent], the navigation listeners, the tooltip and
    [loadAnimatedSankeyDiagram].  There the document is the list of its
    elements and a pending [d3.json] promise is an explicit request. *)

From stdpp Require Import base option list gmap strings sorting.
From Stdlib Require Import Ascii ZArith QArith Qround Qminmax Qabs Qpower Lqa Lia.

Open Scope Q_scope.

(** ** Numeric helpers *)

(** [a < b] on JavaScript numbers. *)
Definition Qltb (a b : Q) : bool := negb (Qle_bool b a).

(** [Math.round]: nearest integer, halves towards plus infinity. *)
Definition Math_round (x : Q) : Z := Qfloor (x + 1 / 2).

(** [Math.max(a, b)] and [Math.min(a, b)]. *)
Definition Math_max (a b : Q) : Q := if Qle_bool a b then b else a.
Definition Math_min (a b : Q) : Q := if Qle_bool a b then a else b.

(** ** Doubles *)

(** The integer nearest to [x], the even one of two. *)
Definition roundHalfEven (x : Q) : Z :=
  let f := Qfloor x in
  let r := x - inject_Z f in
  if Qltb r (1 # 2) then f
  else if Qltb (1 # 2) r then (f + 1)%Z
  else if Z.even f then f else (f + 1)%Z.

(** The exponent [e] of the last place of the double nearest to [a > 0]:
    the one with [2^52 <= a / 2^e < 2^53]. *)
Definition lastPlace (a : Q) : Z :=
  let e := (Z.log2 (Qnum a) - Z.log2 (Zpos (Qden a)) - 53)%Z in
  if Qltb (a / 2 ^ e) (2 ^ 53) then e else (e + 1)%Z.

(** The double nearest to [x], the one with the even significand of two:
    what an arithmetic operation of JavaScript returns for the exact
    result [x].  The exponent is not bounded: this is the value of the code
    for results between 2^-1022 and 2^1024 in absolute value (and for 0),
    which the quantities rounded here (a progress, a percentage) are. *)
Definition binary64 (x : Q) : Q :=
  if Qeq_bool x 0 then 0
  else
    let a := Qabs x in
    let e := lastPlace a in
    let y := inject_Z (roundHalfEven (a / 2 ^ e)) * 2 ^ e in
    if Qltb x 0 then - y else y.

(** Half the distance between 1 and the next double. *)
Definition unitRoundoff : Q := 1 / 2 ^ 53.

(** [q ^ n]. *)
Fixpoint Qpow (q : Q) (n : nat) : Q :=
  match n with
  | O => 1
  | S n' => q * Qpow q n'
  end.

(** ** Hexadecimal strings *)

Definition is_Some_bool {A} (o : option A) : bool :=
  match o with Some _ => true | None => false end.

Definition hexDigitValue (c : ascii) : option Z :=
  let n := Z.of_nat (nat_of_ascii c) in
  if ((48 <=? n) && (n <=? 57))%Z then Some (n - 48)%Z
  else if ((97 <=? n) && (n <=? 102))%Z then Some (n - 87)%Z
  else if ((65 <=? n) && (n <=? 70))%Z then Some (n - 55)%Z
  else None.

(** The digits accumulated so far by [parseInt]; [None] while no digit has
    been read. *)
Fixpoint parseDigits16 (s : string) (acc : option Z) : option Z :=
  match s with
  | EmptyString => acc
  | String c rest =>
      match hexDigitValue c with
      | Some d => parseDigits16 rest (Some (16 * default 0%Z acc + d)%Z)
      | None => acc
      end
  end.

(** White space that [parseInt] skips, as far as it is ASCII (strings are
    byte strings here; the non-ASCII white space of JavaScript is not
    modelled). *)
Definition isWhiteSpace (c : ascii) : bool :=
  let n := nat_of_ascii c in
  Nat.eqb n 32 || (Nat.leb 9 n && Nat.leb n 13).

Fixpoint skipWhiteSpace (s : string) : string :=
  match s with
  | String c rest => if isWhiteSpace c then skipWhiteSpace rest else s
  | EmptyString => s
  end.

(** [parseInt(s, 16)]: leading white space, an optional sign, an optional
    [0x] or [0X], then the longest prefix of hexadecimal digits; NaN
    ([None]) when there is no digit. *)
Definition parseInt16 (s : string) : option Z :=
  let s1 := skipWhiteSpace s in
  let '(sign, s2) :=
    match s1 with
    | String "-" rest => ((-1)%Z, rest)
    | String "+" rest => (1%Z, rest)
    | _ => (1%Z, s1)
    end in
  let s3 :=
    match s2 with
    | String "0" (String "x" rest) => rest
    | String "0" (String "X" rest) => rest
    | _ => s2
    end in
  Z.mul sign <$> parseDigits16 s3 None.

Definition hexDigit (d : Z) : ascii :=
  ascii_of_nat (Z.to_nat (if (d <? 10)%Z then d + 48 else d + 87)%Z).

Fixpoint hexDigits (fuel : nat) (n : Z) (acc : string) : string :=
  match fuel with
  | O => acc
  | S fuel' =>
      let acc' := String (hexDigit (n mod 16)) acc in
      if (n / 16 =? 0)%Z then acc' else hexDigits fuel' (n / 16)%Z acc'
  end.

(** [n.toString(16)] for an integer [n]. *)
Definition toString16 (n : Z) : string :=
  if (n <? 0)%Z
  then String "-" (hexDigits (S (Z.to_nat (Z.log2 (- n)))) (- n) EmptyString)
  else hexDigits (S (Z.to_nat (Z.log2 n))) n EmptyString.

(** [hex.length === 1 ? '0' + hex : hex]. *)
Definition padHex (hex : string) : string :=
  if Nat.eqb (String.length hex) 1 then String "0" hex else hex.

(** The local [toHex] of [lightenAndDesaturateColor], of the exact value:
    where [val * 255] is half way between two integers the double of the
    code may lie on either side, and the code's channel is one of the two
    neighbours. *)
Definition toHex (val : Q) : string :=
  padHex (toString16 (Math_round (val * 255))).

(** ** lightenAndDesaturateColor *)

(** The three channels read by [parseInt(hexColor.slice(a, b), 16)]. *)
Definition parseChannels (hexColor : string) : option (Z * Z * Z) :=
  r ← parseInt16 (String.substring 1 2 hexColor);
  g ← parseInt16 (String.substring 3 2 hexColor);
  b ← parseInt16 (String.substring 5 2 hexColor);
  Some (r, g, b).

Fixpoint allHexDigits (s : string) : bool :=
  match s with
  | EmptyString => true
  | String c rest => is_Some_bool (hexDigitValue c) && allHexDigits rest
  end.

(** A colour as the module writes them: [#] and six hexadecimal digits. *)
Definition isHexColor (s : string) : bool :=
  match s with
  | String "#" rest => Nat.eqb (String.length rest) 6 && allHexDigits rest
  | _ => false
  end.

Record HSL := mkHSL { hue : Q; saturation : Q; lightness : Q }.

(** "Convert RGB to HSL".  In the [switch (max)] the third case is taken
    whenever the first two are not, [max] being one of the three values. *)
Definition rgbToHsl (r g b : Z) : HSL :=
  let rNorm := inject_Z r / 255 in
  let gNorm := inject_Z g / 255 in
  let bNorm := inject_Z b / 255 in
  let max := Math_max (Math_max rNorm gNorm) bNorm in
  let min := Math_min (Math_min rNorm gNorm) bNorm in
  let l := (max + min) / 2 in
  if Qeq_bool max min then mkHSL 0 0 l
  else
    let d := max - min in
    let s := if Qltb 0.5 l then d / (2 - max - min) else d / (max + min) in
    let h :=
      if Qeq_bool max rNorm
      then ((gNorm - bNorm) / d + (if Qltb gNorm bNorm then 6 else 0)) / 6
      else if Qeq_bool max gNorm
      then ((bNorm - rNorm) / d + 2) / 6
      else ((rNorm - gNorm) / d + 4) / 6 in
    mkHSL h s l.

(** "Reduce saturation by 15% and increase lightness by 10%". *)
Definition adjustHsl (c : HSL) : HSL :=
  mkHSL (hue c)
        (Math_max 0 (saturation c * 0.85))
        (Math_min 1 (lightness c + 0.1)).

Definition hue2rgb (p q t : Q) : Q :=
  let t := if Qltb t 0 then t + 1 else t in
  let t := if Qltb 1 t then t - 1 else t in
  if Qltb t (1 / 6) then p + (q - p) * 6 * t
  else if Qltb t (1 / 2) then q
  else if Qltb t (2 / 3) then p + (q - p) * (2 / 3 - t) * 6
  else p.

(** "Convert HSL back to RGB". *)
Definition hslToRgb (c : HSL) : Q * Q * Q :=
  let h := hue c in
  let s := saturation c in
  let l := lightness c in
  if Qeq_bool s 0 then (l, l, l)
  else
    let q := if Qltb l 0.5 then l * (1 + s) else l + s - l * s in
    let p := 2 * l - q in
    (hue2rgb p q (h + 1 / 3), hue2rgb p q h, hue2rgb p q (h - 1 / 3)).

Definition hexOfRgb (c : Q * Q * Q) : string :=
  let '(r2, g2, b2) := c in
  String "#" (toHex r2 +:+ toHex g2 +:+ toHex b2).

(** A NaN channel makes every later value NaN, and [toHex(NaN)] is the
    string NaN. *)
Definition lightenAndDesaturateColor (hexColor : string) : string :=
  match parseChannels hexColor with
  | Some (r, g, b) => hexOfRgb (hslToRgb (adjustHsl (rgbToHsl r g b)))
  | None => "#NaNNaNNaN"
  end.

(** ** Constants of the module *)

(** The six subjective classes, lowest first (Lower, Working, Lower-Middle,
    Middle, Upper-Middle, Upper). *)
Definition CLASS_ORDER : list string :=
  ["下層階級"; "勞工階級"; "中下層階級"; "中層階級"; "中上層階級"; "上層階級"].

Definition SUBJECTIVE_COLORS : list (string * string) :=
  [("下層階級", "#a08080"); ("勞工階級", "#c89090"); ("中下層階級", "#d4b896");
   ("中層階級", "#9db7c4"); ("中上層階級", "#a8c4a8"); ("上層階級", "#789078")].

(** [SUBJECTIVE_COLORS[sourceName] || '#95a5a6']. *)
Definition subjectiveColor (sourceName : string) : string :=
  match List.find (fun kv => String.eqb (fst kv) sourceName) SUBJECTIVE_COLORS with
  | Some kv => snd kv
  | None => "#95a5a6"
  end.

(** [CLASS_ORDER[i]]; the index is always below [CLASS_ORDER.length]. *)
Definition classAt (i : nat) : string := default "undefined" (CLASS_ORDER !! i).

(** ** Data model *)

(** An entry of [data.links]. *)
Record RawLink := mkRawLink
  { raw_source : string; raw_target : string; raw_value : Z }.

(** An entry of [nodes]. *)
Record Node := mkNode { name : string; index : nat }.

(** An entry of [graph.links] after the layout: [source] and [target] stand
    for [link.source.index] and [link.target.index]. *)
Record Link := mkLink
  { source : nat; target : nat; value : Z;
    sourceName : string; targetName : string; width : Q }.

(** An entry of the spawn queue built by [prepareParticlesForClass]. *)
Record ParticleData := mkParticleData
  { pd_link : Link; pd_color : string; spawnDelay : Q; initialProgress : Q }.

(** The fields of [class Particle]; the path generator is the same
    [d3.sankeyLinkHorizontal()] for every particle and is kept as a
    parameter of the development. *)
Record Particle := mkParticle
  { link : Link; color : string; progress : Q; speed : Q; opacity : Q;
    size : Q; birthTime : Q; lateralOffset : Q; lateralDriftSpeed : Q;
    lateralPhase : Q }.

Record Point := mkPoint { pt_x : Q; pt_y : Q }.

(** One filled circle on the canvas: [fillStyle], [globalAlpha] and the
    arguments of [ctx.arc]. *)
Record Arc := mkArc
  { fillStyle : string; globalAlpha : Q; arc_x : Q; arc_y : Q; arc_radius : Q }.

(** What one call of [Particle.draw] does.  [Skipped] is an early [return]
    or a falsy [centerPoint]; [DivisionByZero] marks a division evaluated
    with a zero divisor; [TypeError] a property read on a missing point. *)
Inductive DrawResult :=
| Drawn (a : Arc)
| Skipped
| DivisionByZero
| TypeError.

(** The fields of an [animationStates[year]] object ([graph] is left out:
    [graph.links] is the [links] field). *)
Record AnimationState := mkAnimationState
  { particles : list Particle;
    currentClassIndex : nat;
    classTimer : Q;
    particleDuration : Q;
    waitAfterParticles : Q;
    isAnimating : bool;
    particlesToSpawn : list ParticleData;
    spawnIndex : nat;
    nodes : list Node;
    links : list Link }.

(** The opacity change started on a category transition: the indicator
    text's class, the duration of [linkGroup.transition()] and the target
    opacity of every link, in [graph.links] order. *)
Record OpacityTransition := mkOpacityTransition
  { indicator : string; duration : Z; opacities : list Q }.

(** What one call of the frame callback did. *)
Record Frame := mkFrame
  { rescheduled : bool;              (* requestAnimationFrame(animate) *)
    spawned : list Particle;         (* pushed by the spawn loop *)
    drawn : list DrawResult;         (* one entry per particle.draw *)
    transition : option OpacityTransition }.

(** One instance of the closure [animate]: the state object it captured,
    its [lastTime] variable and the [year] of the call that created it (the
    canvas it draws on belongs to that year's container). *)
Record Loop := mkLoop
  { animationState : AnimationState; lastTime : Q; loopYear : string }.

(** The page: the global [animationStates] (year to state object, an object
    being named by its position in [loops]), every state object created so
    far with its loop instance, the callbacks registered with
    [requestAnimationFrame] and not yet called, and the number of
    [Math.random()] calls made so far.  The state object of a render that
    threw before it defined [animate] has no loop instance: its entry in
    [loops] keeps the stop flag set and is never registered. *)
Record World := mkWorld
  { animationStates : gmap string nat;
    loops : list Loop;
    rafQueue : list nat;
    randomCalls : nat }.

(** An event of the page. *)
Inductive Event :=
| Render (data : list RawLink) (year : string) (now : Q)
| HostFrame (currentTime : Q).

(** A division that reports a zero divisor instead of evaluating it. *)
Definition checkedDivide (a b : Q) : option Q :=
  if Qeq_bool b 0 then None else Some (a / b).

Definition set_isAnimating (b : bool) (st : AnimationState) : AnimationState :=
  mkAnimationState (particles st) (currentClassIndex st) (classTimer st)
    (particleDuration st) (waitAfterParticles st) b (particlesToSpawn st)
    (spawnIndex st) (nodes st) (links st).

(** [nodes[link.source.index].name]. *)
Definition sourceNameOf (nds : list Node) (l : Link) : option string :=
  name <$> nds !! source l.

Definition hasSource (nds : list Node) (className : string) (l : Link) : bool :=
  bool_decide (sourceNameOf nds l = Some className).

(** [particleQueue.sort((a, b) => a.spawnDelay - b.spawnDelay)]: a stable
    sort, ascending in [spawnDelay]. *)
Fixpoint insertByDelay (d : ParticleData) (q : list ParticleData) : list ParticleData :=
  match q with
  | [] => [d]
  | e :: q' =>
      if Qle_bool (spawnDelay d) (spawnDelay e) then d :: e :: q'
      else e :: insertByDelay d q'
  end.

Definition sortByDelay (q : list ParticleData) : list ParticleData :=
  foldr insertByDelay [] q.

(** Ascending spawn delay. *)
Definition delayLe (d e : ParticleData) : Prop := spawnDelay d <= spawnDelay e.

(** ** The Set and Map of names built by [renderAnimatedSankeyDiagram] *)

(** [nodeSet.add(x)]: a [Set] keeps insertion order and ignores repeats. *)
Definition setAdd (s : list string) (x : string) : list string :=
  if bool_decide (x ∈ s) then s else s ++ [x].

Definition nodeSet (data : list RawLink) : list string :=
  foldl (fun s l => setAdd (setAdd s (raw_source l)) (raw_target l)) [] data.

(** [Array.from(nodeSet).map((name, index) => ({name, index}))]. *)
Definition makeNodes (data : list RawLink) : list Node :=
  imap (fun i nm => mkNode nm i) (nodeSet data).

(** [new Map(nodes.map(n => [n.name, n.index]))]. *)
Definition nodeMap (nds : list Node) : gmap string nat :=
  foldl (fun m n => <[name n := index n]> m) ∅ nds.

(** ** The host *)

Class Host := mkHost
  { (** [random n] is the result of the [n]-th call of [Math.random()]. *)
    random : nat -> Q;
    Math_sqrt : Q -> Q;
    Math_sin : Q -> Q;
    Math_PI : Q;
    (** [SVGPathElement.getTotalLength] and [getPointAtLength] of the path
        with the given [d] attribute. *)
    getTotalLength : string -> Q;
    getPointAtLength : string -> Q -> Point;
    (** The path generator [d3.sankeyLinkHorizontal()]. *)
    sankeyLinkHorizontal : Link -> string;
    (** The vertical scale chosen by the d3-sankey layout, which sets
        [link.width = link.value * ky] on every link: a finite number when
        some link has a positive value (the layout divides the height of a
        column by the sum of its values). *)
    ky : Q;
    (** [sankey({nodes, links})] throws on some graphs: a RangeError on a
        graph without nodes (no record at all), an Error on a circular
        link.  This is the message of the error thrown on the graph of the
        given records, if one is thrown. *)
    sankeyError : list RawLink -> option string }.

(** The same host with another path sampler. *)
Definition withSampler (H : Host) (total : string -> Q)
  (pointAt : string -> Q -> Point) : Host :=
  mkHost (@random H) (@Math_sqrt H) (@Math_sin H) (@Math_PI H) total pointAt
         (@sankeyLinkHorizontal H) (@ky H) (@sankeyError H).

Section Engine.

Context `{Host}.

(** *** class Particle *)

(** [new Particle(link, pathGenerator, color, birthTime, initialProgress)];
    [n] is the number of [Math.random()] calls made before. *)
Definition Particle_new (l : Link) (c : string) (birth initial : Q) (n : nat) : Particle :=
  {| link := l;
     color := lightenAndDesaturateColor c;
     progress := initial;
     speed := 1 / 3000;
     opacity := 0.7 + random n * 0.3;
     size := 2.5 + random (n + 1) * 1.5;
     birthTime := birth;
     lateralOffset := random (n + 2) - 0.5;
     lateralDriftSpeed := (random (n + 3) - 0.5) * 0.0002;
     lateralPhase := random (n + 4) * Math_PI * 2 |}.

(** [particle.update(deltaTime)]: the particle after the call and the
    returned boolean, the progress computed without rounding (see
    [Particle_update_binary64]). *)
Definition Particle_update (p : Particle) (deltaTime : Q) : Particle * bool :=
  let progress' := progress p + speed p * deltaTime in
  let lateralPhase' := lateralPhase p + deltaTime * 0.001 in
  let lateralOffset' := lateralOffset p + lateralDriftSpeed p * deltaTime in
  let lateralOffset'' := Math_max (-0.5) (Math_min 0.5 lateralOffset') in
  (mkParticle (link p) (color p) progress' (speed p) (opacity p) (size p)
     (birthTime p) lateralOffset'' (lateralDriftSpeed p) lateralPhase',
   Qltb progress' 1).

(** [particle.update(deltaTime)] with the progress as the code computes
    it: [speed] holds the double nearest to 1/3000, and the product
    [this.speed * deltaTime] and the sum [this.progress + ...] are each
    rounded to a double.  [Particle_update] is this update without the
    three roundings; the two agree on every other field. *)
Definition Particle_update_binary64 (p : Particle) (deltaTime : Q) : Particle * bool :=
  let progress' := binary64 (progress p + binary64 (binary64 (speed p) * deltaTime)) in
  let lateralPhase' := lateralPhase p + deltaTime * 0.001 in
  let lateralOffset' := lateralOffset p + lateralDriftSpeed p * deltaTime in
  let lateralOffset'' := Math_max (-0.5) (Math_min 0.5 lateralOffset') in
  (mkParticle (link p) (color p) progress' (speed p) (opacity p) (size p)
     (birthTime p) lateralOffset'' (lateralDriftSpeed p) lateralPhase',
   Qltb progress' 1).

(** [getPointAtProgress(pathString, progress)] always returns a fresh
    object [{x, y}]. *)
Definition getPointAtProgress (pathString : string) (prog : Q) : option Point :=
  let pathLength := getTotalLength pathString in
  let point := getPointAtLength pathString (pathLength * Math_min 1 prog) in
  Some (mkPoint (pt_x point) (pt_y point)).

(** [particle.draw(ctx)]. *)
Definition Particle_draw (p : Particle) : DrawResult :=
  if Qle_bool 1 (progress p) then Skipped
  else
    let path := sankeyLinkHorizontal (link p) in
    match getPointAtProgress path (progress p) with
    | None => Skipped
    | Some centerPoint =>
        let pathWidth := Math_max 1 (width (link p)) in
        match getPointAtProgress path (Math_min 1 (progress p + 0.01)) with
        | None => TypeError
        | Some tangentPoint =>
            let dx := pt_x tangentPoint - pt_x centerPoint in
            let dy := pt_y tangentPoint - pt_y centerPoint in
            let length := Math_sqrt (dx * dx + dy * dy) in
            let perp :=
              if Qltb 0 length
              then perpX ← checkedDivide (- dy) length;
                   perpY ← checkedDivide dx length;
                   Some (perpX, perpY)
              else Some (0, 0) in
            match perp with
            | None => DivisionByZero
            | Some (perpX, perpY) =>
                let oscillation := Math_sin (lateralPhase p) * 0.3 in
                let totalOffset := (lateralOffset p + oscillation) * pathWidth * 0.4 in
                let finalX := pt_x centerPoint + perpX * totalOffset in
                let finalY := pt_y centerPoint + perpY * totalOffset in
                Drawn (mkArc (color p) (opacity p * (1 - progress p * 0.3))
                         finalX finalY (size p))
            end
        end
    end.

(** *** renderAnimatedSankeyDiagram: the graph *)

(** One entry of [data.links.map(...)] after the layout: the link keeps its
    value, [source] and [target] become node indices (every name is in
    [nodeMap], so the default is never used) and the layout adds [width]. *)
Definition layoutLink (data : list RawLink) (l : RawLink) : Link :=
  mkLink (default 0%nat (nodeMap (makeNodes data) !! raw_source l))
         (default 0%nat (nodeMap (makeNodes data) !! raw_target l))
         (raw_value l) (raw_source l) (raw_target l)
         (inject_Z (raw_value l) * ky).

(** [graph.links]: the links in the order of [data.links]. *)
Definition makeLinks (data : list RawLink) : list Link :=
  List.map (layoutLink data) data.

(** The [stroke-width] attribute of a link's path. *)
Definition strokeWidth (d : Link) : Q := Math_max 1 (width d).

(** *** prepareParticlesForClass *)

(** The body of [for (let i = 0; i < link.value; i++)], [count] iterations
    left. *)
Fixpoint particlesForLink (l : Link) (c : string) (count n : nat) : list ParticleData :=
  match count with
  | O => []
  | S count' =>
      let randomFactor := (random n + random (n + 1) + random (n + 2)) / 3 in
      let delay := randomFactor * 2000 in
      let initial := random (n + 3) * 0.3 in
      mkParticleData l c delay initial :: particlesForLink l c count' (n + 4)
  end.

(** [activeLinks.forEach(link => ...)]: the queue before sorting and the
    number of [Math.random()] calls after it. *)
Fixpoint particlesForLinks (nds : list Node) (active : list Link) (n : nat)
  : list ParticleData * nat :=
  match active with
  | [] => ([], n)
  | l :: rest =>
      let sourceName := default "undefined" (sourceNameOf nds l) in
      let c := subjectiveColor sourceName in
      let count := Z.to_nat (value l) in
      let '(q, n') := particlesForLinks nds rest (n + 4 * count) in
      (particlesForLink l c count n ++ q, n')
  end.

(** "Calculate total number of samples for this class":
    [activeLinks.reduce((sum, link) => sum + link.value, 0)]. *)
Definition totalSamples (st : AnimationState) (className : string) : Z :=
  let activeLinks := List.filter (hasSource (nodes st) className) (links st) in
  foldl (fun sum l => (sum + value l)%Z) 0%Z activeLinks.

Definition prepareParticlesForClass (st : AnimationState) (className : string) (n : nat)
  : list ParticleData * nat :=
  let activeLinks := List.filter (hasSource (nodes st) className) (links st) in
  let '(particleQueue, n') := particlesForLinks (nodes st) activeLinks n in
  (sortByDelay particleQueue, n').

(** *** animate *)

(** "Phase 1: Spawning particles": the [while] loop over the queue from the
    spawn cursor on, [todo] being the entries at and after the cursor.
    Returns the particles pushed and the number of [Math.random()] calls
    after the loop. *)
Fixpoint spawnLoop (timer currentTime : Q) (todo : list ParticleData) (n : nat)
  : list Particle * nat :=
  match todo with
  | [] => ([], n)
  | particleData :: rest =>
      if Qle_bool (spawnDelay particleData) timer
      then
        let p := Particle_new (pd_link particleData) (pd_color particleData)
                   currentTime (initialProgress particleData) n in
        let '(ps, n') := spawnLoop timer currentTime rest (n + 5) in
        (p :: ps, n')
      else ([], n)
  end.

(** The callback given to [particles.filter]: every particle is updated,
    the ones still alive are drawn and kept. *)
Definition updateAll (deltaTime : Q) (ps : list Particle) : list (Particle * bool) :=
  List.map (fun p => Particle_update p deltaTime) ps.

Definition survivors (deltaTime : Q) (ps : list Particle) : list Particle :=
  List.map fst (List.filter snd (updateAll deltaTime ps)).

(** "Update opacity for all links". *)
Definition linkOpacities (st : AnimationState) (className : string) : list Q :=
  List.map (fun d => if hasSource (nodes st) className d then 1.0 else 0.2) (links st).

(** A frame in which the callback returned at once. *)
Definition stoppedFrame : Frame := mkFrame false [] [] None.

(** [animate(currentTime)] for the loop instance [lp], after [n] calls of
    [Math.random()]. *)
Definition animate (lp : Loop) (n : nat) (currentTime : Q) : Loop * nat * Frame :=
  let st := animationState lp in
  if negb (isAnimating st) then (lp, n, stoppedFrame)
  else
    let deltaTime := currentTime - lastTime lp in
    let timer := classTimer st + deltaTime in
    let '(new, n1) :=
      spawnLoop timer currentTime (drop (spawnIndex st) (particlesToSpawn st)) n in
    let cursor := (spawnIndex st + length new)%nat in
    let live := survivors deltaTime (particles st ++ new) in
    let draws := List.map Particle_draw live in
    let allParticlesSpawned := (length (particlesToSpawn st) <=? cursor)%nat in
    let totalPhaseDuration := 2000 + particleDuration st + waitAfterParticles st in
    if allParticlesSpawned && Qle_bool totalPhaseDuration timer
    then
      let idx := ((currentClassIndex st + 1) mod length CLASS_ORDER)%nat in
      let nextClass := classAt idx in
      let '(queue, n2) := prepareParticlesForClass st nextClass n1 in
      (mkLoop (mkAnimationState [] idx 0 (particleDuration st)
                 (waitAfterParticles st) true queue 0%nat (nodes st) (links st))
              currentTime (loopYear lp),
       n2,
       mkFrame true new draws
         (Some (mkOpacityTransition nextClass 500 (linkOpacities st nextClass))))
    else
      (mkLoop (mkAnimationState live (currentClassIndex st) timer
                 (particleDuration st) (waitAfterParticles st) true
                 (particlesToSpawn st) cursor (nodes st) (links st))
              currentTime (loopYear lp),
       n1,
       mkFrame true new draws None).

(** Consecutive frames of one loop instance at the given times. *)
Fixpoint frames (lp : Loop) (n : nat) (times : list Q) : Loop * nat * list Frame :=
  match times with
  | [] => (lp, n, [])
  | t :: times' =>
      let '(lp1, n1, f) := animate lp n t in
      let '(lp2, n2, fs) := frames lp1 n1 times' in
      (lp2, n2, f :: fs)
  end.

(** *** renderAnimatedSankeyDiagram and the host's frame *)

(** "Stop any existing animation for this year". *)
Definition stopExisting (w : World) (year : string) : list Loop :=
  match animationStates w !! year with
  | Some i => alter (fun lp => mkLoop (set_isAnimating false (animationState lp))
                                 (lastTime lp) (loopYear lp)) i (loops w)
  | None => loops w
  end.

(** The state object of "Initialize fresh animation state" as the object
    literal creates it: nothing in it yet, [isAnimating] false. *)
Definition freshState : AnimationState :=
  mkAnimationState [] 0 0 3000 2000 false [] 0 [] [].

(** The state a new loop starts in: "Initialize fresh animation state",
    the graph, "Start animation" and the queue of the first class. *)
Definition startState (data : list RawLink) (n : nat) : AnimationState * nat :=
  let st0 := mkAnimationState [] 0 0 3000 2000 true [] 0 (makeNodes data) (makeLinks data) in
  let firstClass := classAt 0 in
  let '(queue, n') := prepareParticlesForClass st0 firstClass n in
  (mkAnimationState [] 0 0 3000 2000 true queue 0 (makeNodes data) (makeLinks data), n').

(** [renderAnimatedSankeyDiagram(container, data, year)], [now] being the
    result of [performance.now()].  The layout [sankey(...)] is called
    after the loop of the year has been stopped and the new state object
    registered, and before the queue of the first class is prepared,
    [isAnimating] set and the first frame requested: when it throws, the
    render ends there, the new state object as the literal made it and no
    callback registered. *)
Definition renderAnimatedSankeyDiagram (w : World) (data : list RawLink)
  (year : string) (now : Q) : World :=
  let lps := stopExisting w year in
  let fresh := length lps in
  match sankeyError data with
  | Some _ =>
      mkWorld (<[year := fresh]> (animationStates w))
              (lps ++ [mkLoop freshState now year])
              (rafQueue w)
              (randomCalls w)
  | None =>
      let '(st, n') := startState data (randomCalls w) in
      mkWorld (<[year := fresh]> (animationStates w))
              (lps ++ [mkLoop st now year])
              (rafQueue w ++ [fresh])
              n'
  end.

(** The host calls the registered callbacks in order; a callback that
    registers itself again is called in the next frame. *)
Fixpoint runCallbacks (currentTime : Q) (callbacks : list nat) (lps : list Loop) (n : nat)
  : list Loop * list nat * nat * list (nat * Frame) :=
  match callbacks with
  | [] => (lps, [], n, [])
  | i :: rest =>
      match lps !! i with
      | None => runCallbacks currentTime rest lps n
      | Some lp =>
          let '(lp', n1, f) := animate lp n currentTime in
          let '(lps', again, n2, fs) :=
            runCallbacks currentTime rest (<[i := lp']> lps) n1 in
          (lps', (if rescheduled f then i :: again else again), n2, (i, f) :: fs)
      end
  end.

Definition hostFrame (w : World) (currentTime : Q) : World * list (nat * Frame) :=
  let '(lps, again, n, fs) :=
    runCallbacks currentTime (rafQueue w) (loops w) (randomCalls w) in
  (mkWorld (animationStates w) lps again n, fs).

Definition step (w : World) (e : Event) : World :=
  match e with
  | Render data year now => renderAnimatedSankeyDiagram w data year now
  | HostFrame currentTime => fst (hostFrame w currentTime)
  end.

Definition emptyWorld : World := mkWorld ∅ [] [] 0.

Definition runFrom (w : World) (es : list Event) : World := foldl step w es.

(** The page after a history of events. *)
Definition run (es : list Event) : World := runFrom emptyWorld es.

(** *** What the statements below speak about *)

(** [Math.random()] returns a number in [0, 1). *)
Definition randomInRange : Prop := forall n, 0 <= random n /\ random n < 1.

(** A queue entry whose delay is the mean of three draws, scaled to the
    2000 ms spawn window, and whose initial progress is a fourth draw scaled
    to 0.3; [k] is the index of the first of the four draws. *)
Definition drawnFromRandom (d : ParticleData) : Prop :=
  exists k : nat,
    spawnDelay d = (random k + random (k + 1) + random (k + 2)) / 3 * 2000 /\
    initialProgress d = random (k + 3) * 0.3.

(** The link and the initial progress a particle was created with. *)
Definition descriptorOf (p : Particle) : Link * Q := (link p, progress p).
Definition descriptorOfData (d : ParticleData) : Link * Q :=
  (pd_link d, initialProgress d).

(** The states one loop instance goes through, from the state
    [renderAnimatedSankeyDiagram] starts it in, frame after frame.  The
    number of [Math.random()] calls made before a frame is arbitrary: other
    code may call it between two frames. *)
Inductive reachable (data : list RawLink) : Loop -> Prop :=
| reachable_start (n : nat) (now : Q) (year : string) :
    reachable data (mkLoop (fst (startState data n)) now year)
| reachable_frame (lp : Loop) (n : nat) (currentTime : Q) :
    reachable data lp ->
    reachable data (fst (fst (animate lp n currentTime))).

(** What holds of every reachable state whatever the host returns. *)
Record configured (data : list RawLink) (lp : Loop) : Prop := mkConfigured
  { cf_animating : isAnimating (animationState lp) = true;
    cf_particleDuration : particleDuration (animationState lp) = 3000;
    cf_waitAfterParticles : waitAfterParticles (animationState lp) = 2000;
    cf_nodes : nodes (animationState lp) = makeNodes data;
    cf_links : links (animationState lp) = makeLinks data;
    cf_class : (currentClassIndex (animationState lp) < length CLASS_ORDER)%nat;
    cf_queue : exists n0,
      particlesToSpawn (animationState lp) =
      fst (prepareParticlesForClass (animationState lp)
             (classAt (currentClassIndex (animationState lp))) n0) }.

(** What holds of every reachable state when [Math.random()] stays in
    [0, 1): the cursor is inside the queue; unless the activation has just
    begun (cursor and timer at 0), the phase timer has not reached the delay
    of any entry at or after the cursor; and every live particle has the
    fixed speed, has not completed, and is further along than the phase
    timer less the spawn window allows. *)
Record timed (lp : Loop) : Prop := mkTimed
  { tm_cursor :
      (spawnIndex (animationState lp) <= length (particlesToSpawn (animationState lp)))%nat;
    tm_pending :
      (spawnIndex (animationState lp) = 0%nat /\ classTimer (animationState lp) = 0) \/
      Forall (fun d => classTimer (animationState lp) < spawnDelay d)
             (drop (spawnIndex (animationState lp))
                   (particlesToSpawn (animationState lp)));
    tm_particles :
      Forall (fun p => speed p = 1 / 3000 /\ progress p < 1 /\
                       classTimer (animationState lp) - 2000 < 3000 * progress p)
             (particles (animationState lp)) }.

End Engine.

(** The samples of a class in the input: the sum of the values of the
    records whose source is the class. *)
Definition samplesOfClass (data : list RawLink) (className : string) : Z :=
  foldr (fun l sum => if String.eqb (raw_source l) className
                      then (raw_value l + sum)%Z else sum) 0%Z data.

(** A particle after the updates of consecutive frames. *)
Definition Particle_updates (p : Particle) (deltas : list Q) : Particle :=
  foldl (fun p deltaTime => fst (Particle_update p deltaTime)) p deltas.

Definition Particle_updates_binary64 (p : Particle) (deltas : list Q) : Particle :=
  foldl (fun p deltaTime => fst (Particle_update_binary64 p deltaTime)) p deltas.

(** The time between two frames, a difference of two readings of
    [performance.now()]: zero, or between 10^-15 and 10^15 ms.  The products
    and sums of an update then stay where a double has its 53 bits. *)
Definition clockStep (deltaTime : Q) : Prop :=
  deltaTime == 0 \/
  ((1 # 1000000000000000) <= deltaTime /\ deltaTime <= 1000000000000000).

(** Frame times that never go back. *)
Fixpoint nonDecreasing (last : Q) (times : list Q) : Prop :=
  match times with
  | [] => True
  | t :: times' => last <= t /\ nonDecreasing t times'
  end.

(** Every particle that was in the list at the start or has been spawned
    since, updated by every frame it has been through, completed or not:
    [fs] are the frames called at [times], [last] the time of the frame
    before. *)
Fixpoint everSpawned (ps : list Particle) (last : Q) (times : list Q) (fs : list Frame)
  : list Particle :=
  match times, fs with
  | t :: times', f :: fs' =>
      everSpawned
        (List.map (fun p => fst (Particle_update p (t - last))) (ps ++ spawned f))
        t times' fs'
  | _, _ => ps
  end.

(** The stop flag of loop [i] is not set. *)
Definition running (lps : list Loop) (i : nat) : bool :=
  match lps !! i with
  | Some lp => isAnimating (animationState lp)
  | None => false
  end.

Definition isActive (w : World) (i : nat) : bool := running (loops w) i.


Definition drawsFor (w : World) (year : string) (i : nat) : bool :=
  match loops w !! i with
  | Some lp => String.eqb (loopYear lp) year
  | None => false
  end.

(** The active loop instances of a year's container. *)
Definition activeLoopsOf (w : World) (year : string) : list nat :=
  List.filter (fun i => isActive w i && drawsFor w year i) (rafQueue w).

Fixpoint Qsum (l : list Q) : Q :=
  match l with
  | [] => 0
  | a :: l' => a + Qsum l'
  end.


(** What holds of the page after every history of events: the registered
    callbacks are distinct loop instances; the state object registered for a
    year was created by a render of that year; a state object whose stop
    flag is not set is the one registered for its year, and the callback of
    its loop is registered. *)
Record pageOK (w : World) : Prop := mkPageOK
  { pg_bound : forall i, i ∈ rafQueue w -> (i < length (loops w))%nat;
    pg_nodup : NoDup (rafQueue w);
    pg_registered : forall (year : string) (i : nat),
      animationStates w !! year = Some i ->
      exists lp, loops w !! i = Some lp /\ loopYear lp = year;
    pg_running : forall (i : nat) (lp : Loop),
      loops w !! i = Some lp -> isAnimating (animationState lp) = true ->
      animationStates w !! loopYear lp = Some i /\ i ∈ rafQueue w }.
(** ** The order of the nodes, the summary lines and the percentages *)

(** [array.indexOf(x)]: the position of the first element strictly equal to
    [x], or -1. *)
Fixpoint indexOfFrom (array : list string) (x : string) (i : Z) : Z :=
  match array with
  | [] => (-1)%Z
  | y :: rest => if String.eqb y x then i else indexOfFrom rest x (i + 1)
  end.

Definition indexOf (array : list string) (x : string) : Z := indexOfFrom array x 0.

(** The two arrays of the comparator given to [nodeSort] (the second is
    also the [order] of the objective summary line). *)
Definition subjectiveOrder : list string :=
  ["下層階級"; "勞工階級"; "中下層階級"; "中層階級"; "中上層階級"; "上層階級"].

Definition objectiveOrder : list string := ["低"; "中低"; "中等"; "中高"; "高"].

(** The comparator given to [d3.sankey().nodeSort]. *)
Definition nodeSort (a b : Node) : Z :=
  let aSubjIndex := indexOf subjectiveOrder (name a) in
  let bSubjIndex := indexOf subjectiveOrder (name b) in
  if negb (aSubjIndex =? -1)%Z && negb (bSubjIndex =? -1)%Z
  then (aSubjIndex - bSubjIndex)%Z
  else
    let aObjIndex := indexOf objectiveOrder (name a) in
    let bObjIndex := indexOf objectiveOrder (name b) in
    if negb (aObjIndex =? -1)%Z && negb (bObjIndex =? -1)%Z
    then (aObjIndex - bObjIndex)%Z
    else if negb (aSubjIndex =? -1)%Z then (-1)%Z
    else if negb (bSubjIndex =? -1)%Z then 1%Z
    else 0%Z.

(** [n.toString()] and the template substitution of an integer [n]
    (below 10^21 in absolute value, where JavaScript writes every digit). *)
Definition decDigit (d : Z) : ascii := ascii_of_nat (Z.to_nat (d + 48)).

Fixpoint decDigits (fuel : nat) (n : Z) (acc : string) : string :=
  match fuel with
  | O => acc
  | S fuel' =>
      let acc' := String (decDigit (n mod 10)) acc in
      if (n / 10 =? 0)%Z then acc' else decDigits fuel' (n / 10)%Z acc'
  end.

Definition numberToString (n : Z) : string :=
  if (n <? 0)%Z
  then String "-" (decDigits (S (Z.to_nat (Z.log2 (- n)))) (- n) EmptyString)
  else decDigits (S (Z.to_nat (Z.log2 n))) n EmptyString.

(** A JavaScript number that may be one of the three values a division by
    zero produces. *)
Inductive JSNumber :=
| Finite (x : Q)
| PlusInfinity
| MinusInfinity
| NaN.

(** [a / b] for finite [a] and [b] (a zero divisor is +0): the quotient
    rounded to a double. *)
Definition jsDivide (a b : Q) : JSNumber :=
  if Qeq_bool b 0
  then if Qeq_bool a 0 then NaN
       else if Qltb 0 a then PlusInfinity else MinusInfinity
  else Finite (binary64 (a / b)).

(** [x * c] for a finite [c] greater than 0: the product rounded to a
    double. *)
Definition jsScale (x : JSNumber) (c : Q) : JSNumber :=
  match x with
  | Finite q => Finite (binary64 (q * c))
  | other => other
  end.

(** The integer [n] of [Number.prototype.toFixed(1)] for a double [x >= 0]:
    the one with [n / 10] nearest to the value of [x], the larger of
    two. *)
Definition tenths (x : Q) : Z := Qfloor (x * 10 + 1 / 2).

(** [x.toFixed(1)] for a double [x] (below 10^21 in absolute value): the
    digits are those of the value the double has, not of the number it
    stands for. *)
Definition toFixed1 (x : JSNumber) : string :=
  match x with
  | Finite q =>
      let s := if Qltb q 0 then "-" else "" in
      let n := tenths (if Qltb q 0 then - q else q) in
      s +:+ numberToString (n / 10) +:+ "." +:+ numberToString (n mod 10)
  | PlusInfinity => "Infinity"
  | MinusInfinity => "-Infinity"
  | NaN => "NaN"
  end.

(** [(count / data.total_samples * 100).toFixed(1)], the percentage of the
    link tooltip, the node tooltip and the summary lines; the counts are
    integers a double holds (below 2^53). *)
Definition percentText (count total : Z) : string :=
  toFixed1 (jsScale (jsDivide (inject_Z count) (inject_Z total)) 100).

(** The comparator of the summary lines:
    [order.indexOf(a[0]) - order.indexOf(b[0])]. *)
Definition compareEntries (order : list string) (a b : string * Z) : Z :=
  (indexOf order (fst a) - indexOf order (fst b))%Z.

(** [entries.sort(compare)]: a stable sort. *)
Fixpoint insertEntry (order : list string) (a : string * Z) (sorted : list (string * Z))
  : list (string * Z) :=
  match sorted with
  | [] => [a]
  | b :: rest =>
      if (compareEntries order a b <=? 0)%Z then a :: b :: rest
      else b :: insertEntry order a rest
  end.

Definition sortEntries (order : list string) (entries : list (string * Z))
  : list (string * Z) :=
  foldr (insertEntry order) [] entries.

(** [array.join(sep)]. *)
Fixpoint join (sep : string) (parts : list string) : string :=
  match parts with
  | [] => ""
  | [part] => part
  | part :: rest => part +:+ sep +:+ join sep rest
  end.

(** One entry of a summary line. *)
Definition statsEntry (total : Z) (e : string * Z) : string :=
  fst e +:+ ": " +:+ numberToString (snd e) +:+ " (" +:+ percentText (snd e) total +:+ "%)".

(** [subjectiveStats] and [objectiveStats]: [entries] is
    [Object.entries(data.summary.by_subjective)] (or [by_objective]),
    [order] is [CLASS_ORDER] (or the objective order) and [total] is
    [data.total_samples]. *)
Definition summaryStats (order : list string) (entries : list (string * Z)) (total : Z)
  : string :=
  join " | " (List.map (statsEntry total) (sortEntries order entries)).
(** ** The page: main.js and loadAnimatedSankeyDiagram *)

(** The document is the list of its elements in document order; an element
    has what the code reads or writes: its id, its class list, its
    [data-panel] attribute, the markup assigned to [innerHTML] and the
    pixels of [style.left] and [style.top].  An element whose [id]
    attribute is missing or empty has no id.  The nodes d3 appends to a
    container are not part of the document: the running diagram is the
    [World]. *)
Record Element := mkElement
  { el_id : option string;
    classList : list string;
    dataPanel : option string;
    innerHTML : string;
    styleLeft : option Q;
    styleTop : option Q }.

(** [classList.contains], [add] and [remove]. *)
Definition contains (c : string) (e : Element) : bool := bool_decide (c ∈ classList e).

Definition setClassList (cl : list string) (e : Element) : Element :=
  mkElement (el_id e) cl (dataPanel e) (innerHTML e) (styleLeft e) (styleTop e).

Definition classList_add (c : string) (e : Element) : Element :=
  if contains c e then e else setClassList (classList e ++ [c]) e.

Definition classList_remove (c : string) (e : Element) : Element :=
  setClassList (List.filter (fun x => negb (String.eqb x c)) (classList e)) e.

Definition setInnerHTML (html : string) (e : Element) : Element :=
  mkElement (el_id e) (classList e) (dataPanel e) html (styleLeft e) (styleTop e).

(** [document.getElementById(id)] and [document.querySelector('.' + c)]:
    the position of the first match. *)
Definition getElementById (doc : list Element) (id : string) : option nat :=
  fst <$> list_find (fun e => el_id e = Some id) doc.

Definition querySelector (doc : list Element) (c : string) : option nat :=
  fst <$> list_find (fun e => c ∈ classList e) doc.

(** [document.querySelectorAll('.' + c).forEach(f)]. *)
Definition forEachOfClass (c : string) (f : Element -> Element) (doc : list Element)
  : list Element :=
  List.map (fun e => if contains c e then f e else e) doc.

(** *** The tooltip *)

Definition createTooltip (doc : list Element) : list Element * nat :=
  match querySelector doc "tooltip" with
  | Some i => (doc, i)
  | None => (doc ++ [mkElement None ["tooltip"] None "" None None], length doc)
  end.

(** [showTooltip(content, x, y)]. *)
Definition showTooltip (content : string) (x y : Q) (doc : list Element) : list Element :=
  let '(doc1, tooltip) := createTooltip doc in
  alter (fun e => classList_add "visible"
                    (mkElement (el_id e) (classList e) (dataPanel e) content
                       (Some (x + 10)) (Some (y - 10))))
        tooltip doc1.

Definition hideTooltip (doc : list Element) : list Element :=
  match querySelector doc "tooltip" with
  | Some tooltip => alter (classList_remove "visible") tooltip doc
  | None => doc
  end.

(** *** The state of the page *)

(** The initialisers of the other modules; their bodies are not part of
    this development, their calls are recorded. *)
Inductive InitCall :=
| InitializeMap
| InitializeHeatmap
| InitializeComparisonChart.

(** Which of the functions the other scripts define exist
    ([typeof f === 'function']). *)
Record Scripts := mkScripts
  { hasInitializeMap : bool;
    hasLoadAnimatedSankeyDiagram : bool;
    hasInitializeHeatmap : bool;
    hasInitializeComparisonChart : bool }.

(** A [d3.json] promise that has not settled: the URL, and the [year] and
    the [container] its handlers captured. *)
Record Request := mkRequest
  { req_url : string; req_year : string; req_container : nat }.

(** The page: the document, the four [window] flags of main.js
    ([sankeyInitialized] is undefined until the first year panel is shown),
    the calls of the initialisers and of [loadAnimatedSankeyDiagram] made so
    far, the pending requests, what was written with [console.error] and
    [console.warn], and the diagrams. *)
Record Site := mkSite
  { document : list Element;
    mapInitialized : bool;
    sankeyInitialized : option (gmap string bool);
    heatmapInitialized : bool;
    comparisonChartInitialized : bool;
    initCalls : list InitCall;
    loadCalls : list string;
    requests : list Request;
    console : list string;
    world : World }.

Definition setDocument (doc : list Element) (s : Site) : Site :=
  mkSite doc (mapInitialized s) (sankeyInitialized s) (heatmapInitialized s)
    (comparisonChartInitialized s) (initCalls s) (loadCalls s) (requests s)
    (console s) (world s).

Definition logConsole (message : string) (s : Site) : Site :=
  mkSite (document s) (mapInitialized s) (sankeyInitialized s) (heatmapInitialized s)
    (comparisonChartInitialized s) (initCalls s) (loadCalls s) (requests s)
    (console s ++ [message]) (world s).

Definition quote : string := String (ascii_of_nat 34) EmptyString.

(** *** loadAnimatedSankeyDiagram *)

Definition loadingMessage : string :=
  "<p style=" +:+ quote +:+ "text-align: center; padding: 20px; color: #7f8c8d;" +:+ quote
  +:+ ">載入中...</p>".

Definition errorMessage (message : string) : string :=
  "<p style=" +:+ quote +:+ "text-align: center; padding: 20px; color: #e74c3c;" +:+ quote
  +:+ ">載入失敗：" +:+ message +:+ "</p>".

(** [loadAnimatedSankeyDiagram(year)] up to the call of [d3.json], which
    leaves a pending request. *)
Definition loadAnimatedSankeyDiagram (year : string) (s : Site) : Site :=
  let containerId := "sankey-" +:+ year in
  let s1 := mkSite (document s) (mapInitialized s) (sankeyInitialized s)
              (heatmapInitialized s) (comparisonChartInitialized s) (initCalls s)
              (loadCalls s ++ [year]) (requests s) (console s) (world s) in
  match getElementById (document s) containerId with
  | None => logConsole ("Container #" +:+ containerId +:+ " not found") s1
  | Some container =>
      mkSite (alter (setInnerHTML loadingMessage) container (document s))
        (mapInitialized s) (sankeyInitialized s) (heatmapInitialized s)
        (comparisonChartInitialized s) (initCalls s) (loadCalls s ++ [year])
        (requests s ++
         [mkRequest ("data/processed/wealth_data_" +:+ year +:+ ".json") year container])
        (console s) (world s)
  end.

(** *** main.js *)

(** [s.split('-')]. *)
Fixpoint split_dash (s : string) : list string :=
  match s with
  | EmptyString => [""]
  | String c rest =>
      if Ascii.eqb c "-" then "" :: split_dash rest
      else match split_dash rest with
           | part :: parts => String c part :: parts
           | [] => [String c ""]
           end
  end.

(** The [case] labels of the year panels. *)
Definition yearPanels : list string :=
  ["year-1992"; "year-1997"; "year-2002"; "year-2007"; "year-2012"; "year-2017";
   "year-2022"].

(** [window.sankeyInitialized[year]] as a condition. *)
Definition sankeyFlag (s : Site) (year : string) : bool :=
  default false (sankeyInitialized s ≫= (fun flags => flags !! year)).

(** [initializePanelContent(panelId)]. *)
Definition initializePanelContent (sc : Scripts) (panelId : string) (s : Site) : Site :=
  if String.eqb panelId "geographical" then
    if hasInitializeMap sc && negb (mapInitialized s)
    then mkSite (document s) true (sankeyInitialized s) (heatmapInitialized s)
           (comparisonChartInitialized s) (initCalls s ++ [InitializeMap]) (loadCalls s)
           (requests s) (console s) (world s)
    else s
  else if bool_decide (panelId ∈ yearPanels) then
    let year := default "undefined" (split_dash panelId !! 1%nat) in
    if hasLoadAnimatedSankeyDiagram sc then
      let flags := default ∅ (sankeyInitialized s) in
      let s1 := mkSite (document s) (mapInitialized s) (Some flags) (heatmapInitialized s)
                  (comparisonChartInitialized s) (initCalls s) (loadCalls s) (requests s)
                  (console s) (world s) in
      if negb (sankeyFlag s1 year) then
        let s2 := loadAnimatedSankeyDiagram year s1 in
        mkSite (document s2) (mapInitialized s2) (Some (<[year := true]> flags))
          (heatmapInitialized s2) (comparisonChartInitialized s2) (initCalls s2)
          (loadCalls s2) (requests s2) (console s2) (world s2)
      else s1
    else s
  else if String.eqb panelId "heatmap" then
    if hasInitializeHeatmap sc && negb (heatmapInitialized s)
    then mkSite (document s) (mapInitialized s) (sankeyInitialized s) true
           (comparisonChartInitialized s) (initCalls s ++ [InitializeHeatmap])
           (loadCalls s) (requests s) (console s) (world s)
    else if heatmapInitialized s then s
    else logConsole "[MAIN] initializeHeatmap function not found!" s
  else if String.eqb panelId "comparison" then
    if hasInitializeComparisonChart sc && negb (comparisonChartInitialized s)
    then mkSite (document s) (mapInitialized s) (sankeyInitialized s)
           (heatmapInitialized s) true (initCalls s ++ [InitializeComparisonChart])
           (loadCalls s) (requests s) (console s) (world s)
    else s
  else s.

(** [showPanel(panelId)] (the scrolling is not modelled). *)
Definition showPanel (sc : Scripts) (panelId : string) (s : Site) : Site :=
  let doc := forEachOfClass "panel" (classList_remove "active") (document s) in
  match getElementById doc panelId with
  | Some targetPanel =>
      initializePanelContent sc panelId
        (setDocument (alter (classList_add "active") targetPanel doc) s)
  | None =>
      logConsole ("Panel with ID " +:+ quote +:+ panelId +:+ quote +:+ " not found")
        (setDocument doc s)
  end.

(** [updateActiveNavLinkById(panelId)]. *)
Definition updateActiveNavLinkById (panelId : string) (doc : list Element) : list Element :=
  forEachOfClass "nav-link"
    (fun link =>
       let link1 := classList_remove "active" link in
       if bool_decide (dataPanel link = Some panelId)
       then classList_add "active" link1 else link1)
    doc.

(** The [click] listener of a navigation link.  Its first statement,
    the [console.log] of line 1052, reads [panelId], which the listener
    itself declares with [const] three lines further down: the read is in
    the temporal dead zone of that declaration and throws a ReferenceError.
    Neither [preventDefault], nor the assignment to [window.location.hash],
    nor [showPanel], nor [updateActiveNavLink] is reached: the listener
    changes nothing.  (The default action of the link is the browser's; when
    it changes the fragment, the [hashchange] listener runs.) *)
Definition onClick (sc : Scripts) (link : nat) (s : Site) : Site := s.

(** The [hashchange] listener, [hash] being [window.location.hash]. *)
Definition onHashChange (sc : Scripts) (hash : string) (s : Site) : Site :=
  let fragment := String.substring 1 (String.length hash - 1) hash in
  let panelId := if String.eqb fragment "" then "overview" else fragment in
  let s1 := showPanel sc panelId s in
  setDocument (updateActiveNavLinkById panelId (document s1)) s1.

Definition setWorld (w : World) (s : Site) : Site :=
  mkSite (document s) (mapInitialized s) (sankeyInitialized s) (heatmapInitialized s)
    (comparisonChartInitialized s) (initCalls s) (loadCalls s) (requests s)
    (console s) w.

Definition dropRequest (k : nat) (s : Site) : Site :=
  mkSite (document s) (mapInitialized s) (sankeyInitialized s) (heatmapInitialized s)
    (comparisonChartInitialized s) (initCalls s) (loadCalls s) (delete k (requests s))
    (console s) (world s).

(** What happens on the page. *)
Inductive SiteEvent :=
| Click (link : nat)
| HashChange (hash : string)
| Loaded (k : nat) (data : list RawLink) (now : Q)
| Failed (k : nat) (message : string)
| AnimationFrame (currentTime : Q)
| MouseOver (content : string) (pageX pageY : Q)
| MouseOut.

(** The page before [DOMContentLoaded]. *)
Definition initialSite (doc : list Element) : Site :=
  mkSite doc false None false false [] [] [] [] (mkWorld ∅ [] [] 0).

Section Site.

Context `{Host}.

(** The [catch] handler of a request: [console.error] and the error
    markup with [error.message] in the container. *)
Definition catchHandler (r : Request) (message : string) (s : Site) : Site :=
  logConsole ("Error loading Sankey data for " +:+ req_year r +:+ ":")
    (setDocument
       (alter (setInnerHTML (errorMessage message)) (req_container r) (document s))
       s).

(** The [then] handler of the [k]-th pending request:
    [renderAnimatedSankeyDiagram(container, data, year)], which starts by
    emptying the container.  When the layout throws, the render ends there
    and the promise is rejected with the error: the [catch] handler runs. *)
Definition onLoaded (k : nat) (data : list RawLink) (now : Q) (s : Site) : Site :=
  match requests s !! k with
  | Some r =>
      let s1 := dropRequest k s in
      let s2 :=
        setWorld (renderAnimatedSankeyDiagram (world s1) data (req_year r) now)
          (setDocument (alter (setInnerHTML "") (req_container r) (document s1)) s1) in
      match sankeyError data with
      | Some message => catchHandler r message s2
      | None => s2
      end
  | None => s
  end.

(** The [k]-th pending request fails: its [catch] handler runs. *)
Definition onFailed (k : nat) (message : string) (s : Site) : Site :=
  match requests s !! k with
  | Some r => catchHandler r message (dropRequest k s)
  | None => s
  end.

Definition siteStep (sc : Scripts) (s : Site) (e : SiteEvent) : Site :=
  match e with
  | Click link => onClick sc link s
  | HashChange hash => onHashChange sc hash s
  | Loaded k data now => onLoaded k data now s
  | Failed k message => onFailed k message s
  | AnimationFrame currentTime => setWorld (fst (hostFrame (world s) currentTime)) s
  | MouseOver content pageX pageY =>
      setDocument (showTooltip content pageX pageY (document s)) s
  | MouseOut => setDocument (hideTooltip (document s)) s
  end.

(** The [DOMContentLoaded] listener, then the events. *)
Definition runSite (sc : Scripts) (doc : list Element) (hash : string)
  (events : list SiteEvent) : Site :=
  foldl (siteStep sc) (onHashChange sc hash (initialSite doc)) events.

End Site.

(** A reading [g] of an element that assignments to [innerHTML] and changes
    of the class [active] do not affect. *)
Definition keptByNavigation {B} (g : Element -> B) : Prop :=
  (forall html e, g (setInnerHTML html e) = g e) /\
  (forall e, g (classList_add "active" e) = g e) /\
  (forall e, g (classList_remove "active" e) = g e).


(** ** A host and an input to evaluate the definitions on *)

Definition exampleRandom (n : nat) : Q :=
  inject_Z (Z.of_nat ((n * 7) mod 10)) / 10.

(** The square root rounded down to a multiple of [1 / Qden x]. *)
Definition exampleSqrt (x : Q) : Q :=
  Qmake (Z.sqrt (Qnum x * Zpos (Qden x))) (Qden x).

(** Every path is the segment from (0, 0) to (100, 0); the layout refuses
    the graph without nodes. *)
Definition exampleHost : Host :=
  mkHost exampleRandom exampleSqrt (fun _ => 0) (22 # 7)
         (fun _ => 100) (fun _ len => mkPoint len 0)
         (fun _ => "M0,0C50,0,50,0,100,0") (1 # 2)
         (fun data => match data with
                      | [] => Some "Invalid array length"
                      | _ => None
                      end).

(** Every path has length zero and the single point (5, 7). *)
Definition degenerateHost : Host :=
  withSampler exampleHost (fun _ => 0) (fun _ _ => mkPoint 5 7).

Definition exampleData : list RawLink :=
  [mkRawLink "下層階級" "低" 3; mkRawLink "下層階級" "中低" 2;
   mkRawLink "勞工階級" "低" 1; mkRawLink "勞工階級" "中低" 0].

(** The loop [renderAnimatedSankeyDiagram] starts for [exampleData] at
    time 0. *)
Definition exampleLoop : Loop :=
  mkLoop (fst (startState (H := exampleHost) exampleData 0)) 0 "1992".

Definition exampleCalls : nat := snd (startState (H := exampleHost) exampleData 0).

Definition exampleParticle : Particle :=
  Particle_new (H := exampleHost) (mkLink 0 1 3 "下層階級" "低" (3 # 2)) "#a08080"
    0 (3 # 20) 0.

(** A page with two panels, the container of the 1992 diagram and two
    navigation links, the first panel and link active; every script is
    loaded. *)
Definition exampleDocument : list Element :=
  [mkElement (Some "overview") ["panel"; "active"] None "" None None;
   mkElement (Some "year-1992") ["panel"] None "" None None;
   mkElement (Some "sankey-1992") [] None "" None None;
   mkElement None ["nav-link"; "active"] (Some "overview") "" None None;
   mkElement None ["nav-link"] (Some "year-1992") "" None None].

Definition exampleScripts : Scripts := mkScripts true true true true.

Definition exampleEntries : list (string * Z) :=
  [("中層階級", 10%Z); ("下層階級", 5%Z); ("上層階級", 1%Z)].
(** ** Comparisons on rationals *)

Lemma Qltb_true (a b : Q) : Qltb a b = true <-> a < b.
Proof.
  unfold Qltb. rewrite negb_true_iff, <- not_true_iff_false, Qle_bool_iff.
  split; [apply Qnot_le_lt | apply Qlt_not_le].
Qed.

Lemma Qltb_false (a b : Q) : Qltb a b = false <-> b <= a.
Proof. unfold Qltb. rewrite negb_false_iff. apply Qle_bool_iff. Qed.

Lemma Qle_bool_false (a b : Q) : Qle_bool a b = false <-> b < a.
Proof.
  rewrite <- not_true_iff_false, Qle_bool_iff.
  split; [apply Qnot_le_lt | apply Qlt_not_le].
Qed.

Lemma Qeq_bool_false (a b : Q) : Qeq_bool a b = false <-> ~ a == b.
Proof. rewrite <- not_true_iff_false, Qeq_bool_iff. tauto. Qed.

(** [lra] does not read a division by a literal; this writes the ones of the
    source as fractions. *)
Ltac qdivs :=
  unfold Qdiv in *;
  change (/ 2) with (1 # 2) in *; change (/ 3) with (1 # 3) in *;
  change (/ 6) with (1 # 6) in *; change (/ 255) with (1 # 255) in *;
  change (/ 3000) with (1 # 3000) in *.

(** Turns every boolean comparison of the goal into a hypothesis. *)
Ltac qcases :=
  repeat match goal with
    | |- context [Qltb ?a ?b] =>
        let H := fresh "Hlt" in
        destruct (Qltb a b) eqn:H;
        [apply Qltb_true in H | apply Qltb_false in H]
    | |- context [Qle_bool ?a ?b] =>
        let H := fresh "Hle" in
        destruct (Qle_bool a b) eqn:H;
        [apply Qle_bool_iff in H | apply Qle_bool_false in H]
    | |- context [Qeq_bool ?a ?b] =>
        let H := fresh "Heq" in
        destruct (Qeq_bool a b) eqn:H;
        [apply Qeq_bool_iff in H | apply Qeq_bool_false in H]
    end.

Lemma Math_max_spec (a b : Q) :
  (a <= b /\ Math_max a b = b) \/ (b < a /\ Math_max a b = a).
Proof. unfold Math_max. qcases; auto. Qed.




(** ** The colour transform *)







(** ** Hexadecimal strings *)













(** ** Rounding to a double *)

Lemma roundHalfEven_error (x : Q) :
  - (1 # 2) <= inject_Z (roundHalfEven x) - x <= 1 # 2.
Proof.
  unfold roundHalfEven.
  pose proof (Qfloor_le x) as Hlo. pose proof (Qlt_floor x) as Hhi.
  rewrite inject_Z_plus in Hhi. change (inject_Z 1) with 1 in Hhi.
  destruct (Qltb (x - inject_Z (Qfloor x)) (1 # 2)) eqn:E1.
  - apply Qltb_true in E1. split; lra.
  - apply Qltb_false in E1.
    destruct (Qltb (1 # 2) (x - inject_Z (Qfloor x))) eqn:E2.
    + apply Qltb_true in E2. rewrite inject_Z_plus. change (inject_Z 1) with 1. (split; lra).
    + apply Qltb_false in E2. destruct (Z.even (Qfloor x)); [lra |].
      rewrite inject_Z_plus. change (inject_Z 1) with 1. (split; lra).
Qed.

Lemma pow2_pos (e : Z) : 0 < 2 ^ e.
Proof. by apply Qpower_0_lt. Qed.

Lemma lastPlace_low (a : Q) : 0 < a -> 2 ^ 52 <= a / 2 ^ lastPlace a.
Proof.
  intros Ha. unfold lastPlace.
  set (e := (Z.log2 (Qnum a) - Z.log2 (Z.pos (Qden a)) - 53)%Z).
  assert (Hlow : 2 ^ 52 <= a / 2 ^ e).
  { pose proof (pow2_pos e) as He.
    apply Qle_shift_div_l; [exact He |].
    assert (Hn : (0 < Qnum a)%Z).
    { destruct a as [n d]. unfold Qlt in Ha. simpl in *. lia. }
    destruct (Z.log2_spec (Qnum a) Hn) as [Hn1 _].
    destruct (Z.log2_spec (Z.pos (Qden a)) (Pos2Z.is_pos _)) as [_ Hd2].
    pose proof (Z.log2_nonneg (Qnum a)) as Hln.
    pose proof (Z.log2_nonneg (Z.pos (Qden a))) as Hld.
    set (la := Z.log2 (Qnum a)) in *. set (ld := Z.log2 (Z.pos (Qden a))) in *.
    assert (E : 2 ^ 52 * 2 ^ e == 2 ^ la / 2 ^ (ld + 1)).
    { rewrite <- Qpower_plus by discriminate.
      rewrite <- Qpower_minus by discriminate.
      apply Qpower_comp; [reflexivity | unfold e; lia]. }
    rewrite E. apply Qle_shift_div_r; [apply pow2_pos |].
    change 2 with (inject_Z 2).
    rewrite <- !Zpower_Qpower by lia.
    destruct a as [n d]. simpl in *.
    unfold Qle, Qmult, inject_Z. simpl.
    rewrite !Z.mul_1_r. 
    assert (0 < 2 ^ la)%Z by (apply Z.pow_pos_nonneg; lia).
    rewrite Z.succ in Hd2 || idtac.
    replace (ld + 1)%Z with (Z.succ ld) by lia. nia. }
  destruct (Qltb (a / 2 ^ e) (2 ^ 53)) eqn:E; [exact Hlow |].
  apply Qltb_false in E.
  assert (E2 : a / 2 ^ (e + 1) == a / 2 ^ e / 2).
  { rewrite Qpower_plus by discriminate. field. pose proof (pow2_pos e). lra. }
  rewrite E2. apply Qle_shift_div_l; [lra |].
  assert (2 ^ 52 * 2 == 2 ^ 53) as -> by reflexivity. exact E.
Qed.

Lemma binary64_error (x : Q) : Qabs (binary64 x - x) <= unitRoundoff * Qabs x.
Proof.
  unfold binary64. destruct (Qeq_bool x 0) eqn:E0.
  - apply Qeq_bool_eq in E0. rewrite E0. by vm_compute.
  - apply Qeq_bool_neq in E0.
    assert (Ha : 0 < Qabs x).
    { destruct (Qlt_le_dec 0 (Qabs x)) as [Hlt | Hle]; [exact Hlt |].
      exfalso. apply E0. apply Qabs_Qle_condition in Hle. lra. }
    pose proof (lastPlace_low (Qabs x) Ha) as Hlow.
    pose proof (pow2_pos (lastPlace (Qabs x))) as He.
    pose proof (roundHalfEven_error (Qabs x / 2 ^ lastPlace (Qabs x))) as Hr.
    set (e := lastPlace (Qabs x)) in *.
    set (n := inject_Z (roundHalfEven (Qabs x / 2 ^ e))) in *.
    set (p := 2 ^ e) in *.
    assert (Hm : Qabs x == Qabs x / p * p) by (field; lra).
    set (m := Qabs x / p) in *.
    destruct Hr as [Hr1 Hr2].
    assert (HK : unitRoundoff * 2 ^ 52 * 2 == 1) by (by vm_compute).
    assert (Hu : 0 < unitRoundoff) by (by vm_compute).
    revert Hlow HK Hu. generalize (2 ^ 52) unitRoundoff. intros K u Hlow HK Hu.
    assert (Hy : - (u * Qabs x) <= n * p - Qabs x <= u * Qabs x).
    { assert (Hp : p <= u * (m * p) * 2).
      { assert (H1 : 0 <= (m - K) * p) by (apply Qmult_le_0_compat; lra).
        assert (H2 : 0 <= u * ((m - K) * p)) by (apply Qmult_le_0_compat; lra).
        assert (H3 : u * (m * p) * 2 == 2 * (u * ((m - K) * p)) + (u * K * 2) * p) by ring.
        rewrite H3, HK. lra. }
      assert (H4 : n * p - m * p == (n - m) * p) by ring.
      assert (H5 : 0 <= ((1 # 2) - (n - m)) * p) by (apply Qmult_le_0_compat; lra).
      assert (H6 : 0 <= ((n - m) + (1 # 2)) * p) by (apply Qmult_le_0_compat; lra).
      rewrite Hm. lra. }
    destruct Hy as [Hy1 Hy2]. apply Qabs_Qle_condition.
    destruct (Qltb x 0) eqn:Es.
    + apply Qltb_true in Es.
      assert (Hax : Qabs x == - x) by (apply Qabs_neg; lra).
      rewrite Hax in Hy1, Hy2 |- *. split; lra.
    + apply Qltb_false in Es.
      assert (Hax : Qabs x == x) by (apply Qabs_pos; lra).
      rewrite Hax in Hy1, Hy2 |- *. split; lra.
Qed.

Lemma unitRoundoff_range : 0 < unitRoundoff /\ unitRoundoff < 1.
Proof. by vm_compute. Qed.

(** The double nearest to a number that is not negative. *)
Lemma binary64_nonneg (x : Q) :
  0 <= x ->
  (1 - unitRoundoff) * x <= binary64 x /\ binary64 x <= (1 + unitRoundoff) * x.
Proof.
  intros Hx. pose proof (binary64_error x) as He.
  rewrite (Qabs_pos x) in He by assumption.
  apply Qabs_Qle_condition in He as [He1 He2]. split; lra.
Qed.

Lemma Qpow_nonneg (q : Q) (n : nat) : 0 <= q -> 0 <= Qpow q n.
Proof.
  intros Hq. induction n as [|n IH]; simpl; [lra |].
  by apply Qmult_le_0_compat.
Qed.

Lemma Qpow_ge_1 (q : Q) (n : nat) : 1 <= q -> 1 <= Qpow q n.
Proof.
  intros Hq. induction n as [|n IH]; simpl; [lra |].
  assert (0 <= (q - 1) * Qpow q n) by (apply Qmult_le_0_compat; lra). lra.
Qed.

Lemma Qpow_le_1 (q : Q) (n : nat) : 0 <= q -> q <= 1 -> Qpow q n <= 1.
Proof.
  intros Hq H1. induction n as [|n IH]; simpl; [lra |].
  pose proof (Qpow_nonneg q n Hq).
  assert (0 <= (1 - q) * Qpow q n) by (apply Qmult_le_0_compat; lra). lra.
Qed.

Lemma Qpow_add (q : Q) (n m : nat) : Qpow q (n + m) == Qpow q n * Qpow q m.
Proof.
  induction n as [|n IH]; simpl; [ring |]. rewrite IH. ring.
Qed.

(** *** The rounded progress *)

(** One rounded update: the three roundings of [speed], of the product and
    of the sum each change the result by a factor between [1 - u] and
    [1 + u]. *)
Lemma Particle_update_binary64_enclosed (p : Particle) (deltaTime lo hi X : Q) :
  0 <= deltaTime -> 0 <= speed p -> 0 <= X ->
  0 <= lo -> lo <= Qpow (1 - unitRoundoff) 2 -> Qpow (1 + unitRoundoff) 2 <= hi ->
  lo * X <= progress p -> progress p <= hi * X ->
  let x := progress (fst (Particle_update_binary64 p deltaTime)) in
  (1 - unitRoundoff) * lo * (X + speed p * deltaTime) <= x /\
  x <= (1 + unitRoundoff) * hi * (X + speed p * deltaTime).
Proof.
  intros Hd Hs HX Hlo0 Hlo Hhi Hp1 Hp2. cbn [Particle_update_binary64 fst progress].
  destruct unitRoundoff_range as [Hu0 Hu1]. simpl in Hlo, Hhi.
  set (u := unitRoundoff) in *.
  destruct (binary64_nonneg (speed p) Hs) as [Hs1 Hs2]. fold u in Hs1, Hs2.
  set (s := speed p) in *. set (fs := binary64 s) in *.
  assert (Hfs : 0 <= fs).
  { assert (0 <= (1 - u) * s) by (apply Qmult_le_0_compat; lra). lra. }
  assert (Hsd : 0 <= s * deltaTime) by (by apply Qmult_le_0_compat).
  assert (Hfd : 0 <= fs * deltaTime) by (by apply Qmult_le_0_compat).
  destruct (binary64_nonneg (fs * deltaTime) Hfd) as [Ht1 Ht2]. fold u in Ht1, Ht2.
  set (t := binary64 (fs * deltaTime)) in *.
  assert (Hfd1 : (1 - u) * (s * deltaTime) <= fs * deltaTime).
  { assert (0 <= (fs - (1 - u) * s) * deltaTime) by (apply Qmult_le_0_compat; lra). lra. }
  assert (Hfd2 : fs * deltaTime <= (1 + u) * (s * deltaTime)).
  { assert (0 <= ((1 + u) * s - fs) * deltaTime) by (apply Qmult_le_0_compat; lra). lra. }
  assert (Ht3 : (1 - u) * ((1 - u) * 1) * (s * deltaTime) <= t).
  { assert (0 <= (1 - u) * (fs * deltaTime - (1 - u) * (s * deltaTime)))
      by (apply Qmult_le_0_compat; lra). lra. }
  assert (Ht4 : t <= (1 + u) * ((1 + u) * 1) * (s * deltaTime)).
  { assert (0 <= (1 + u) * ((1 + u) * (s * deltaTime) - fs * deltaTime))
      by (apply Qmult_le_0_compat; lra). lra. }
  assert (Ht5 : lo * (s * deltaTime) <= t).
  { assert (0 <= ((1 - u) * ((1 - u) * 1) - lo) * (s * deltaTime))
      by (apply Qmult_le_0_compat; lra). lra. }
  assert (Ht6 : t <= hi * (s * deltaTime)).
  { assert (0 <= (hi - (1 + u) * ((1 + u) * 1)) * (s * deltaTime))
      by (apply Qmult_le_0_compat; lra). lra. }
  assert (HloX : 0 <= lo * X) by (by apply Qmult_le_0_compat).
  assert (Hlosd : 0 <= lo * (s * deltaTime)) by (by apply Qmult_le_0_compat).
  assert (Hsum : 0 <= progress p + t) by lra.
  destruct (binary64_nonneg (progress p + t) Hsum) as [Hx1 Hx2]. fold u in Hx1, Hx2.
  split.
  - assert (0 <= (1 - u) * (progress p + t - lo * (X + s * deltaTime)))
      by (apply Qmult_le_0_compat; lra). lra.
  - assert (0 <= (1 + u) * (hi * (X + s * deltaTime) - (progress p + t)))
      by (apply Qmult_le_0_compat; lra). lra.
Qed.

Lemma Particle_update_binary64_speed (p : Particle) (deltaTime : Q) :
  speed (fst (Particle_update_binary64 p deltaTime)) = speed p.
Proof. reflexivity. Qed.

(** Rounded updates, one after the other: after [k] earlier updates and the
    updates of [deltas] the progress is the unrounded sum up to a factor
    between [(1 - u)^(k + length deltas + 2)] and
    [(1 + u)^(k + length deltas + 2)]. *)
Lemma Particle_updates_binary64_enclosed (deltas : list Q) :
  forall (p : Particle) (k : nat) (X : Q),
    Forall (fun deltaTime => 0 <= deltaTime) deltas ->
    0 <= speed p -> 0 <= X ->
    Qpow (1 - unitRoundoff) (k + 2) * X <= progress p ->
    progress p <= Qpow (1 + unitRoundoff) (k + 2) * X ->
    let x := progress (Particle_updates_binary64 p deltas) in
    let m := (k + length deltas + 2)%nat in
    Qpow (1 - unitRoundoff) m * (X + speed p * Qsum deltas) <= x /\
    x <= Qpow (1 + unitRoundoff) m * (X + speed p * Qsum deltas).
Proof.
  destruct unitRoundoff_range as [Hu0 Hu1].
  induction deltas as [|deltaTime deltas IH]; intros p k X Hall Hs HX Hp1 Hp2; cbv zeta.
  - simpl. rewrite Nat.add_0_r.
    assert (E : X + speed p * 0 == X) by ring. rewrite E. by split.
  - apply Forall_cons in Hall as [Hd Hall].
    assert (Hlo0 : 0 <= Qpow (1 - unitRoundoff) (k + 2)) by (apply Qpow_nonneg; lra).
    assert (Hlo : Qpow (1 - unitRoundoff) (k + 2) <= Qpow (1 - unitRoundoff) 2).
    { rewrite Qpow_add.
      pose proof (Qpow_le_1 (1 - unitRoundoff) k ltac:(lra) ltac:(lra)) as H1.
      pose proof (Qpow_nonneg (1 - unitRoundoff) k ltac:(lra)) as H0.
      pose proof (Qpow_nonneg (1 - unitRoundoff) 2 ltac:(lra)) as H2.
      assert (0 <= (1 - Qpow (1 - unitRoundoff) k) * Qpow (1 - unitRoundoff) 2)
        by (apply Qmult_le_0_compat; lra). lra. }
    assert (Hhi : Qpow (1 + unitRoundoff) 2 <= Qpow (1 + unitRoundoff) (k + 2)).
    { rewrite Qpow_add.
      pose proof (Qpow_ge_1 (1 + unitRoundoff) k ltac:(lra)) as H1.
      pose proof (Qpow_nonneg (1 + unitRoundoff) 2 ltac:(lra)) as H2.
      assert (0 <= (Qpow (1 + unitRoundoff) k - 1) * Qpow (1 + unitRoundoff) 2)
        by (apply Qmult_le_0_compat; lra). lra. }
    destruct (Particle_update_binary64_enclosed p deltaTime _ _ X Hd Hs HX Hlo0 Hlo Hhi Hp1 Hp2)
      as [Hx1 Hx2].
    assert (HX' : 0 <= X + speed p * deltaTime).
    { assert (0 <= speed p * deltaTime) by (by apply Qmult_le_0_compat). lra. }
    specialize (IH (fst (Particle_update_binary64 p deltaTime)) (S k)
                  (X + speed p * deltaTime) Hall).
    rewrite Particle_update_binary64_speed in IH.
    specialize (IH Hs HX'). cbv zeta in IH.
    change (Qpow ?q (S k + 2)) with (q * Qpow q (k + 2)) in IH.
    specialize (IH Hx1 Hx2).
    change (Particle_updates_binary64 p (deltaTime :: deltas))
      with (Particle_updates_binary64 (fst (Particle_update_binary64 p deltaTime)) deltas).
    replace (k + length (deltaTime :: deltas) + 2)%nat
      with (S k + length deltas + 2)%nat by (simpl; lia).
    assert (E : X + speed p * Qsum (deltaTime :: deltas)
                == X + speed p * deltaTime + speed p * Qsum deltas) by (simpl; ring).
    rewrite E. exact IH.
Qed.
(** ** The sort of the spawn queue *)

Lemma insertByDelay_perm (d : ParticleData) (q : list ParticleData) :
  insertByDelay d q ≡ₚ d :: q.
Proof.
  induction q as [|e q IH]; simpl; [reflexivity |].
  destruct (Qle_bool (spawnDelay d) (spawnDelay e)); [reflexivity |].
  rewrite IH. apply Permutation_swap.
Qed.

Lemma sortByDelay_perm (q : list ParticleData) : sortByDelay q ≡ₚ q.
Proof.
  induction q as [|d q IH]; simpl; [reflexivity |].
  rewrite insertByDelay_perm. by rewrite IH.
Qed.

Lemma insertByDelay_sorted (d : ParticleData) (q : list ParticleData) :
  StronglySorted delayLe q -> StronglySorted delayLe (insertByDelay d q).
Proof.
  induction q as [|e q IH]; simpl; intros Hq.
  - repeat constructor.
  - apply StronglySorted_cons in Hq as [He Hq].
    destruct (Qle_bool (spawnDelay d) (spawnDelay e)) eqn:Hde.
    + apply Qle_bool_iff in Hde. constructor; [by constructor |].
      constructor; [exact Hde |].
      eapply Forall_impl; [exact He |]. unfold delayLe. intros x Hx. lra.
    + apply Qle_bool_false in Hde. constructor; [by apply IH |].
      rewrite insertByDelay_perm. constructor; [| exact He].
      unfold delayLe. lra.
Qed.

Lemma sortByDelay_sorted (q : list ParticleData) :
  StronglySorted delayLe (sortByDelay q).
Proof.
  induction q as [|d q IH]; simpl; [constructor | by apply insertByDelay_sorted].
Qed.

Section QueueProofs.

Context `{Host}.

(** ** The queue of a class *)

Lemma particlesForLink_links (l : Link) (c : string) (count n : nat) :
  List.map pd_link (particlesForLink l c count n) = replicate count l.
Proof.
  revert n. induction count as [|count IH]; intros n; simpl; [reflexivity |].
  by rewrite IH.
Qed.

Lemma particlesForLink_drawn (l : Link) (c : string) (count n : nat) :
  Forall drawnFromRandom (particlesForLink l c count n).
Proof.
  revert n. induction count as [|count IH]; intros n; simpl; constructor; [| apply IH].
  exists n. split; reflexivity.
Qed.

Lemma particlesForLinks_links (nds : list Node) (active : list Link) (n : nat) :
  List.map pd_link (fst (particlesForLinks nds active n)) =
  flat_map (fun l => replicate (Z.to_nat (value l)) l) active.
Proof.
  revert n. induction active as [|l active IH]; intros n; simpl; [reflexivity |].
  specialize (IH (n + 4 * Z.to_nat (value l))%nat).
  destruct (particlesForLinks nds active _) as [q n']. simpl in *.
  by rewrite map_app, particlesForLink_links, IH.
Qed.

Lemma particlesForLinks_drawn (nds : list Node) (active : list Link) (n : nat) :
  Forall drawnFromRandom (fst (particlesForLinks nds active n)).
Proof.
  revert n. induction active as [|l active IH]; intros n; simpl; [constructor |].
  specialize (IH (n + 4 * Z.to_nat (value l))%nat).
  destruct (particlesForLinks nds active _) as [q n']. simpl in *.
  apply Forall_app. split; [apply particlesForLink_drawn | exact IH].
Qed.

Lemma prepare_links (st : AnimationState) (className : string) (n : nat) :
  List.map pd_link (fst (prepareParticlesForClass st className n)) ≡ₚ
  flat_map (fun l => replicate (Z.to_nat (value l)) l)
           (List.filter (hasSource (nodes st) className) (links st)).
Proof.
  unfold prepareParticlesForClass.
  pose proof (particlesForLinks_links (nodes st)
                (List.filter (hasSource (nodes st) className) (links st)) n) as Hl.
  destruct (particlesForLinks _ _ _) as [q n']. simpl in *.
  rewrite <- Hl. apply Permutation_map, sortByDelay_perm.
Qed.

Lemma prepare_drawn (st : AnimationState) (className : string) (n : nat) :
  Forall drawnFromRandom (fst (prepareParticlesForClass st className n)).
Proof.
  unfold prepareParticlesForClass.
  pose proof (particlesForLinks_drawn (nodes st)
                (List.filter (hasSource (nodes st) className) (links st)) n) as Hd.
  destruct (particlesForLinks _ _ _) as [q n']. simpl in *.
  by rewrite sortByDelay_perm.
Qed.

Lemma prepare_sorted (st : AnimationState) (className : string) (n : nat) :
  StronglySorted delayLe (fst (prepareParticlesForClass st className n)).
Proof.
  unfold prepareParticlesForClass.
  destruct (particlesForLinks _ _ _) as [q n']. apply sortByDelay_sorted.
Qed.

Lemma drawnFromRandom_range (d : ParticleData) :
  randomInRange -> drawnFromRandom d ->
  (0 <= spawnDelay d /\ spawnDelay d < 2000) /\
  (0 <= initialProgress d /\ initialProgress d < 0.3).
Proof.
  intros Hr (k & -> & ->).
  destruct (Hr k), (Hr (k + 1)%nat), (Hr (k + 2)%nat), (Hr (k + 3)%nat).
  qdivs. repeat split; lra.
Qed.

Lemma length_flat_replicate (ls : list Link) :
  Forall (fun l => (0 <= value l)%Z) ls ->
  Z.of_nat (length (flat_map (fun l => replicate (Z.to_nat (value l)) l) ls)) =
  foldr (fun l sum => (value l + sum)%Z) 0%Z ls.
Proof.
  induction 1 as [|l ls Hl Hls IH]; simpl; [reflexivity |].
  rewrite length_app, length_replicate, Nat2Z.inj_add, IH. lia.
Qed.

Lemma foldl_sum_values (ls : list Link) (z : Z) :
  foldl (fun sum l => (sum + value l)%Z) z ls =
  (z + foldr (fun l sum => (value l + sum)%Z) 0%Z ls)%Z.
Proof.
  revert z. induction ls as [|l ls IH]; intros z; simpl; [lia |].
  rewrite IH. lia.
Qed.

Lemma prepare_length (st : AnimationState) (className : string) (n : nat) :
  Forall (fun l => (0 <= value l)%Z) (links st) ->
  Z.of_nat (length (fst (prepareParticlesForClass st className n))) =
  totalSamples st className.
Proof.
  intros Hv. unfold totalSamples. rewrite foldl_sum_values, Z.add_0_l.
  rewrite <- length_flat_replicate.
  - rewrite <- (length_map pd_link). f_equal. apply Permutation_length, prepare_links.
  - rewrite Forall_forall in *. intros l Hl. apply Hv.
    apply list_elem_of_In. apply list_elem_of_In in Hl.
    apply filter_In in Hl. tauto.
Qed.

End QueueProofs.
(** ** The node table *)

Lemma setAdd_elem (s : list string) (x y : string) :
  y ∈ setAdd s x <-> y ∈ s \/ y = x.
Proof.
  unfold setAdd. case_bool_decide as Hx.
  - split; [auto | intros [?| ->]; assumption].
  - rewrite elem_of_app, list_elem_of_singleton. tauto.
Qed.

Lemma setAdd_NoDup (s : list string) (x : string) : NoDup s -> NoDup (setAdd s x).
Proof.
  intros Hs. unfold setAdd. case_bool_decide as Hx; [assumption |].
  apply NoDup_app. split; [assumption |]. split; [| apply NoDup_singleton].
  intros y Hy Hy'. apply list_elem_of_singleton in Hy'. by subst.
Qed.

Lemma nodeSet_from (data : list RawLink) (s : list string) :
  NoDup s ->
  let s' := foldl (fun s l => setAdd (setAdd s (raw_source l)) (raw_target l)) s data in
  NoDup s' /\ (forall x, x ∈ s -> x ∈ s') /\
  (forall l, l ∈ data -> raw_source l ∈ s' /\ raw_target l ∈ s').
Proof.
  revert s. induction data as [|l data IH]; intros s Hs; simpl.
  - split; [assumption |]. split; [auto |]. intros l Hl. by apply elem_of_nil in Hl.
  - destruct (IH (setAdd (setAdd s (raw_source l)) (raw_target l))) as (Hn & Hsub & Hin).
    { by apply setAdd_NoDup, setAdd_NoDup. }
    split; [assumption |]. split.
    + intros x Hx. apply Hsub. rewrite !setAdd_elem. tauto.
    + intros l' Hl'. apply elem_of_cons in Hl' as [-> | Hl']; [| by apply Hin].
      split; apply Hsub; rewrite !setAdd_elem; tauto.
Qed.

Lemma nodeSet_NoDup (data : list RawLink) : NoDup (nodeSet data).
Proof. apply (nodeSet_from data []). constructor. Qed.

Lemma nodeSet_source (data : list RawLink) (l : RawLink) :
  l ∈ data -> raw_source l ∈ nodeSet data.
Proof. intros Hl. by apply (nodeSet_from data [] (NoDup_nil_2)). Qed.

Lemma nodeSet_target (data : list RawLink) (l : RawLink) :
  l ∈ data -> raw_target l ∈ nodeSet data.
Proof. intros Hl. by apply (nodeSet_from data [] (NoDup_nil_2)). Qed.

Lemma makeNodes_lookup (data : list RawLink) (i : nat) (nm : string) :
  nodeSet data !! i = Some nm -> makeNodes data !! i = Some (mkNode nm i).
Proof. intros Hi. unfold makeNodes. by rewrite list_lookup_imap, Hi. Qed.

Lemma nodeMap_from (names : list string) (k : nat) (m : gmap string nat) (nm : string) :
  NoDup names ->
  let m' := foldl (fun m n => <[name n := index n]> m) m
              (imap (fun i x => mkNode x (k + i)) names) in
  (forall i, names !! i = Some nm -> m' !! nm = Some (k + i)%nat) /\
  (nm ∉ names -> m' !! nm = m !! nm).
Proof.
  revert k m. induction names as [|x names IH]; intros k m Hnd; simpl.
  - split; [intros i Hi; by rewrite lookup_nil in Hi | auto].
  - apply NoDup_cons in Hnd as [Hx Hnd].
    rewrite (imap_ext _ (fun i y => mkNode y (S k + i))) by (intros; simpl; f_equal; lia).
    destruct (IH (S k) (<[x := (k + 0)%nat]> m) Hnd) as [Hin Hout]. split.
    + intros [|i] Hi; simpl in Hi.
      * inversion Hi; subst. rewrite Hout by assumption. by rewrite lookup_insert_eq.
      * rewrite (Hin i Hi). f_equal. lia.
    + intros Hnm. apply not_elem_of_cons in Hnm as [Hne Hnm].
      rewrite Hout by assumption. by rewrite lookup_insert_ne.
Qed.

Lemma nodeMap_lookup (data : list RawLink) (i : nat) (nm : string) :
  nodeSet data !! i = Some nm -> nodeMap (makeNodes data) !! nm = Some i.
Proof.
  intros Hi. unfold nodeMap, makeNodes.
  destruct (nodeMap_from (nodeSet data) 0 ∅ nm (nodeSet_NoDup data)) as [Hin _].
  rewrite (imap_ext _ (fun i x => mkNode x (0 + i))) by reflexivity.
  apply (Hin i Hi).
Qed.

Section GraphProofs.

Context `{Host}.

(** [nodes[link.source.index].name] is the source name of the record the
    link was made from. *)
Lemma sourceNameOf_layout (data : list RawLink) (l : RawLink) :
  l ∈ data ->
  sourceNameOf (makeNodes data) (layoutLink data l) = Some (raw_source l).
Proof.
  intros Hl. apply nodeSet_source, list_elem_of_lookup in Hl as [i Hi].
  unfold sourceNameOf, layoutLink. simpl.
  rewrite (nodeMap_lookup _ _ _ Hi). simpl.
  by rewrite (makeNodes_lookup _ _ _ Hi).
Qed.

Lemma hasSource_layout (data : list RawLink) (l : RawLink) (className : string) :
  l ∈ data ->
  hasSource (makeNodes data) className (layoutLink data l) =
  String.eqb (raw_source l) className.
Proof.
  intros Hl. unfold hasSource. rewrite sourceNameOf_layout by assumption.
  destruct (String.eqb_spec (raw_source l) className) as [-> | Hne].
  - by rewrite bool_decide_eq_true.
  - rewrite bool_decide_eq_false. congruence.
Qed.

Lemma makeLinks_layout (data : list RawLink) :
  makeLinks data = List.map (layoutLink data) data.
Proof. reflexivity. Qed.

Lemma makeLinks_values (data : list RawLink) :
  Forall (fun l => (0 <= raw_value l)%Z) data ->
  Forall (fun l => (0 <= value l)%Z) (makeLinks data).
Proof.
  intros Hv. rewrite makeLinks_layout. apply Forall_map.
  eapply Forall_impl; [exact Hv |]. auto.
Qed.

Lemma samples_of_layout (data ds : list RawLink) (className : string) :
  (forall l, l ∈ ds -> l ∈ data) ->
  foldr (fun l sum => (value l + sum)%Z) 0%Z
    (List.filter (hasSource (makeNodes data) className)
       (List.map (layoutLink data) ds)) =
  samplesOfClass ds className.
Proof.
  induction ds as [|l ds IH]; intros Hsub; simpl; [reflexivity |].
  rewrite hasSource_layout by (apply Hsub; left).
  rewrite <- IH by (intros l' Hl'; apply Hsub; by right).
  destruct (String.eqb (raw_source l) className); reflexivity.
Qed.

Lemma totalSamples_data (data : list RawLink) (st : AnimationState) (className : string) :
  nodes st = makeNodes data -> links st = makeLinks data ->
  totalSamples st className = samplesOfClass data className.
Proof.
  intros Hn Hl. unfold totalSamples. rewrite Hn, Hl, makeLinks_layout.
  rewrite foldl_sum_values, Z.add_0_l. by apply samples_of_layout.
Qed.

End GraphProofs.
Section FrameProofs.

Context `{Host}.

(** ** One frame *)

Lemma prepare_ext (st st' : AnimationState) (className : string) (n : nat) :
  nodes st = nodes st' -> links st = links st' ->
  prepareParticlesForClass st className n = prepareParticlesForClass st' className n.
Proof. intros Hn Hl. unfold prepareParticlesForClass. by rewrite Hn, Hl. Qed.

(** The spawn loop takes the longest prefix of [todo] whose delays the
    timer has reached. *)
Lemma spawnLoop_spec (timer currentTime : Q) (todo : list ParticleData) (n : nat) :
  let new := fst (spawnLoop timer currentTime todo n) in
  let k := length new in
  (k <= length todo)%nat /\
  List.map descriptorOf new = List.map descriptorOfData (take k todo) /\
  Forall (fun d => spawnDelay d <= timer) (take k todo) /\
  (forall d, head (drop k todo) = Some d -> timer < spawnDelay d) /\
  Forall (fun p => speed p = 1 / 3000) new.
Proof.
  revert n. induction todo as [|d todo IH]; intros n; simpl.
  - repeat split; try constructor. discriminate.
  - destruct (Qle_bool (spawnDelay d) timer) eqn:Hd.
    + apply Qle_bool_iff in Hd. specialize (IH (n + 5)%nat).
      destruct (spawnLoop timer currentTime todo (n + 5)) as [ps n']. simpl in *.
      destruct IH as (Hk & Hmap & Hle & Hhd & Hsp).
      split; [lia |]. split; [by rewrite Hmap |].
      split; [by constructor |]. split; [assumption | by constructor].
    + apply Qle_bool_false in Hd. simpl.
      split; [lia |]. split; [reflexivity |]. split; [constructor |].
      split; [| constructor]. intros d' Hd'. by inversion Hd'; subst.
Qed.

Lemma filter_reached_none (timer : Q) (todo : list ParticleData) :
  Forall (fun d => timer < spawnDelay d) todo ->
  List.filter (fun d => Qle_bool (spawnDelay d) timer) todo = [].
Proof.
  induction 1 as [|d todo Hd _ IH]; simpl; [reflexivity |].
  by apply Qle_bool_false in Hd as ->.
Qed.

(** On a queue in ascending order the loop leaves only entries whose delay
    the timer has not reached: it spawns exactly the reached ones. *)
Lemma spawnLoop_sorted (timer currentTime : Q) (todo : list ParticleData) (n : nat) :
  StronglySorted delayLe todo ->
  let k := length (fst (spawnLoop timer currentTime todo n)) in
  Forall (fun d => timer < spawnDelay d) (drop k todo) /\
  take k todo = List.filter (fun d => Qle_bool (spawnDelay d) timer) todo.
Proof.
  revert n. induction todo as [|d todo IH]; intros n Hs; simpl.
  - split; constructor.
  - apply StronglySorted_cons in Hs as [Hd Hs].
    destruct (Qle_bool (spawnDelay d) timer) eqn:Hdt.
    + specialize (IH (n + 5)%nat Hs).
      destruct (spawnLoop timer currentTime todo (n + 5)) as [ps n']. simpl in *.
      destruct IH as [Hdrop Htake]. split; [assumption | by rewrite Htake].
    + apply Qle_bool_false in Hdt. simpl.
      assert (Hall : Forall (fun e => timer < spawnDelay e) todo).
      { eapply Forall_impl; [exact Hd |]. unfold delayLe. intros e He. lra. }
      split; [by constructor |]. by rewrite filter_reached_none.
Qed.

(** [animate] on a loop whose stop flag is not set, with the spawn loop,
    the cursor and the survivors named. *)
Lemma animate_running (lp : Loop) (n : nat) (currentTime : Q) :
  isAnimating (animationState lp) = true ->
  let st := animationState lp in
  let deltaTime := currentTime - lastTime lp in
  let timer := classTimer st + deltaTime in
  let sp := spawnLoop timer currentTime (drop (spawnIndex st) (particlesToSpawn st)) n in
  let cursor := (spawnIndex st + length (fst sp))%nat in
  let live := survivors deltaTime (particles st ++ fst sp) in
  let idx := ((currentClassIndex st + 1) mod length CLASS_ORDER)%nat in
  let next := prepareParticlesForClass st (classAt idx) (snd sp) in
  animate lp n currentTime =
  if (length (particlesToSpawn st) <=? cursor)%nat &&
     Qle_bool (2000 + particleDuration st + waitAfterParticles st) timer
  then
    (mkLoop (mkAnimationState [] idx 0 (particleDuration st) (waitAfterParticles st)
               true (fst next) 0%nat (nodes st) (links st)) currentTime (loopYear lp),
     snd next,
     mkFrame true (fst sp) (List.map Particle_draw live)
       (Some (mkOpacityTransition (classAt idx) 500 (linkOpacities st (classAt idx)))))
  else
    (mkLoop (mkAnimationState live (currentClassIndex st) timer (particleDuration st)
               (waitAfterParticles st) true (particlesToSpawn st) cursor
               (nodes st) (links st)) currentTime (loopYear lp),
     snd sp,
     mkFrame true (fst sp) (List.map Particle_draw live) None).
Proof.
  intros Ha. unfold animate. rewrite Ha. simpl.
  destruct (spawnLoop _ _ _ _) as [new n1]. simpl.
  destruct (_ && _); [| reflexivity].
  by destruct (prepareParticlesForClass _ _ _).
Qed.

Lemma animate_stopped (lp : Loop) (n : nat) (currentTime : Q) :
  isAnimating (animationState lp) = false ->
  animate lp n currentTime = (lp, n, stoppedFrame).
Proof. intros Ha. unfold animate. by rewrite Ha. Qed.


Lemma classAt_In (i : nat) : (i < length CLASS_ORDER)%nat -> classAt i ∈ CLASS_ORDER.
Proof.
  intros Hi. unfold classAt.
  destruct (lookup_lt_is_Some_2 CLASS_ORDER i Hi) as [c Hc]. rewrite Hc. simpl.
  by eapply list_elem_of_lookup_2.
Qed.

(** ** Invariants of the reachable states *)

Lemma startState_fields (data : list RawLink) (n : nat) :
  let st := fst (startState data n) in
  isAnimating st = true /\ particleDuration st = 3000 /\ waitAfterParticles st = 2000 /\
  nodes st = makeNodes data /\ links st = makeLinks data /\
  currentClassIndex st = 0%nat /\ spawnIndex st = 0%nat /\ classTimer st = 0 /\
  particles st = [] /\
  particlesToSpawn st = fst (prepareParticlesForClass st (classAt 0) n).
Proof.
  unfold startState.
  set (st0 := mkAnimationState [] 0 0 3000 2000 true [] 0 (makeNodes data) (makeLinks data)).
  destruct (prepareParticlesForClass st0 (classAt 0) n) as [queue n'] eqn:E. simpl.
  repeat split; try reflexivity.
  erewrite prepare_ext; [by rewrite E | reflexivity | reflexivity].
Qed.

Lemma reachable_configured (data : list RawLink) (lp : Loop) :
  reachable data lp -> configured data lp.
Proof.
  induction 1 as [n now year | lp n currentTime Hr IH].
  - destruct (startState_fields data n) as (? & ? & ? & ? & ? & Hc & ? & ? & ? & Hq).
    constructor; simpl; try assumption.
    + rewrite Hc. simpl. lia.
    + exists n. by rewrite Hc.
  - destruct IH as [Ha Hpd Hw Hn Hl Hc [n0 Hq]].
    rewrite (animate_running lp n currentTime Ha). cbv zeta.
    destruct (_ && _); cbn [fst snd].
    + constructor; cbn [animationState isAnimating particleDuration waitAfterParticles
                          nodes links currentClassIndex particlesToSpawn];
        try assumption; try reflexivity.
      * apply Nat.mod_upper_bound. discriminate.
      * eexists. by apply f_equal, prepare_ext.
    + constructor; cbn [animationState isAnimating particleDuration waitAfterParticles
                          nodes links currentClassIndex particlesToSpawn];
        try assumption; try reflexivity.
      exists n0. rewrite Hq. by apply f_equal, prepare_ext.
Qed.

Lemma StronglySorted_drop (k : nat) (q : list ParticleData) :
  StronglySorted delayLe q -> StronglySorted delayLe (drop k q).
Proof.
  intros Hq. rewrite <- (take_drop k q) in Hq.
  apply StronglySorted_app in Hq. tauto.
Qed.

Lemma survivors_cons (deltaTime : Q) (p : Particle) (ps : list Particle) :
  survivors deltaTime (p :: ps) =
  if snd (Particle_update p deltaTime)
  then fst (Particle_update p deltaTime) :: survivors deltaTime ps
  else survivors deltaTime ps.
Proof.
  unfold survivors, updateAll. simpl.
  by destruct (Qltb (progress p + speed p * deltaTime) 1).
Qed.

Lemma survivors_Forall (P P' : Particle -> Prop) (deltaTime : Q) (ps : list Particle) :
  (forall p, P p -> snd (Particle_update p deltaTime) = true ->
             P' (fst (Particle_update p deltaTime))) ->
  Forall P ps -> Forall P' (survivors deltaTime ps).
Proof.
  intros Hstep.
  induction 1 as [|p ps Hp _ IH]; [constructor |]. rewrite survivors_cons.
  destruct (snd (Particle_update p deltaTime)) eqn:Ha; [| exact IH].
  constructor; [by apply Hstep | exact IH].
Qed.

(** The particles that survive the update of a frame, for a loop in a
    reachable state: each has the fixed speed and progress below 1, and the
    phase timer is less than 2000 ms ahead of its travel. *)
Lemma live_timed (data : list RawLink) (lp : Loop) (n : nat) (currentTime : Q) :
  randomInRange -> configured data lp -> timed lp ->
  let st := animationState lp in
  let deltaTime := currentTime - lastTime lp in
  let timer := classTimer st + deltaTime in
  let new := fst (spawnLoop timer currentTime
                    (drop (spawnIndex st) (particlesToSpawn st)) n) in
  Forall (fun p => speed p = 1 / 3000 /\ progress p < 1 /\
                   timer - 2000 < 3000 * progress p)
         (survivors deltaTime (particles st ++ new)).
Proof.
  intros Hr Hc [Hcur Hpend Hps]. cbv zeta.
  set (st := animationState lp) in *. set (deltaTime := currentTime - lastTime lp).
  set (timer := classTimer st + deltaTime).
  set (todo := drop (spawnIndex st) (particlesToSpawn st)) in *.
  destruct (spawnLoop_spec timer currentTime todo n) as (Hk & Hmap & _ & _ & Hspeed).
  set (new := fst (spawnLoop timer currentTime todo n)) in *.
  apply (survivors_Forall
           (fun p => speed p = 1 / 3000 /\
                     ((progress p < 1 /\ classTimer st - 2000 < 3000 * progress p) \/
                      (0 <= progress p /\ classTimer st < 2000)))).
  - intros p (Hs & Hp) Halive. unfold Particle_update in *. simpl in *.
    apply Qltb_true in Halive. rewrite Hs in *.
    split; [reflexivity |]. split; [exact Halive |].
    unfold timer. qdivs. destruct Hp as [[? ?] | [? ?]]; lra.
  - apply Forall_app. split.
    + eapply Forall_impl; [exact Hps |]. intros p (? & ? & ?). auto.
    + assert (Hdesc : Forall (fun pr : Link * Q => 0 <= snd pr /\ classTimer st < 2000)
                        (List.map descriptorOf new)).
      { rewrite Hmap. apply Forall_map.
        destruct Hc as [_ _ _ _ _ _ [n0 Hq]]. fold st in Hq.
        assert (Hdrawn : Forall drawnFromRandom todo).
        { unfold todo. apply Forall_drop. rewrite Hq. apply prepare_drawn. }
        assert (Hall : Forall (fun d => drawnFromRandom d /\ classTimer st <= spawnDelay d) todo).
        { apply Forall_and. split; [exact Hdrawn |].
          destruct Hpend as [[_ Ht] | Hpend].
          - eapply Forall_impl; [exact Hdrawn |]. intros d Hd. simpl. rewrite Ht.
            by destruct (drawnFromRandom_range d Hr Hd) as ((? & _) & _).
          - eapply Forall_impl; [exact Hpend |]. intros d Hd. simpl in *. lra. }
        apply Forall_take with (n := length new) in Hall.
        eapply Forall_impl; [exact Hall |]. intros d [Hd Ht]. simpl.
        destruct (drawnFromRandom_range d Hr Hd) as ((? & ?) & (? & ?)). split; lra. }
      apply Forall_map in Hdesc.
      rewrite Forall_forall in *. intros p Hp. split; [by apply Hspeed |].
      right. apply (Hdesc p Hp).
Qed.

Lemma reachable_timed (data : list RawLink) (lp : Loop) :
  randomInRange -> reachable data lp -> timed lp.
Proof.
  intros Hr. induction 1 as [n now year | lp n currentTime Hreach IH].
  - destruct (startState_fields data n) as (_ & _ & _ & _ & _ & _ & Hs & Ht & Hp & Hq).
    constructor; simpl; rewrite ?Hs, ?Ht, ?Hp; [lia | by left | constructor].
  - pose proof (reachable_configured _ _ Hreach) as Hc.
    pose proof (live_timed data lp n currentTime Hr Hc IH) as Hlive.
    destruct IH as [Hcur Hpend Hps]. destruct Hc as [Ha _ _ _ _ _ [n0 Hq]].
    rewrite (animate_running lp n currentTime Ha). cbv zeta in *.
    set (st := animationState lp) in *.
    set (timer := classTimer st + (currentTime - lastTime lp)) in *.
    set (todo := drop (spawnIndex st) (particlesToSpawn st)) in *.
    destruct (spawnLoop_spec timer currentTime todo n) as (Hk & _).
    destruct (spawnLoop_sorted timer currentTime todo n) as (Hrest & _).
    { apply StronglySorted_drop. rewrite Hq. apply prepare_sorted. }
    destruct (_ && _); cbn [fst snd]; constructor;
      cbn [animationState spawnIndex particlesToSpawn classTimer particles].
    + lia.
    + by left.
    + constructor.
    + unfold todo in *. rewrite length_drop in Hk. lia.
    + right. by rewrite <- drop_drop.
    + exact Hlive.
Qed.

End FrameProofs.

Section SchedulerProofs.

Context `{Host}.

(** ** Spawning over an activation *)

(** What one frame spawns, read off the queue: without a transition the
    queue stays and the cursor moves over the entries spawned; with a
    transition everything from the cursor on was spawned. *)
Lemma frame_spawns (lp : Loop) (n : nat) (currentTime : Q) :
  let st := animationState lp in
  let lp' := fst (fst (animate lp n currentTime)) in
  let f := snd (animate lp n currentTime) in
  (transition f = None ->
   particlesToSpawn (animationState lp') = particlesToSpawn st /\
   exists k, spawnIndex (animationState lp') = (spawnIndex st + k)%nat /\
             List.map descriptorOf (spawned f) =
             List.map descriptorOfData (take k (drop (spawnIndex st) (particlesToSpawn st)))) /\
  (transition f <> None ->
   List.map descriptorOf (spawned f) =
   List.map descriptorOfData (drop (spawnIndex st) (particlesToSpawn st))).
Proof.
  cbv zeta. destruct (isAnimating (animationState lp)) eqn:Ha.
  - rewrite (animate_running lp n currentTime Ha). cbv zeta.
    set (st := animationState lp).
    set (timer := classTimer st + (currentTime - lastTime lp)).
    set (todo := drop (spawnIndex st) (particlesToSpawn st)).
    destruct (spawnLoop_spec timer currentTime todo n) as (Hk & Hmap & _).
    destruct (_ && _) eqn:Hdue; cbn [fst snd animationState transition spawned
                                      particlesToSpawn spawnIndex].
    + split; [discriminate |]. intros _. rewrite Hmap. f_equal. apply take_ge.
      apply andb_true_iff in Hdue as [Hall _]. apply Nat.leb_le in Hall.
      unfold todo in *. rewrite length_drop in *. lia.
    + split; [| congruence]. intros _. split; [reflexivity |]. eauto.
  - rewrite (animate_stopped lp n currentTime Ha). simpl.
    split; [| congruence]. intros _. split; [reflexivity |].
    exists 0%nat. split; [lia | reflexivity].
Qed.

Lemma frames_cons (lp : Loop) (n : nat) (t : Q) (times : list Q) :
  snd (frames lp n (t :: times)) =
  snd (animate lp n t) ::
  snd (frames (fst (fst (animate lp n t))) (snd (fst (animate lp n t))) times).
Proof.
  cbn [frames]. destruct (animate lp n t) as [[lp1 n1] f]. cbn [fst snd].
  by destruct (frames lp1 n1 times) as [[lp2 n2] fs].
Qed.

(** Up to and including the frame of the transition, the frames spawn the
    entries of the queue from the cursor on, one particle per entry in queue
    order. *)
Lemma frames_spawn_remainder (times : list Q) (lp : Loop) (n : nat)
  (fs : list Frame) (f : Frame) :
  snd (frames lp n times) = fs ++ [f] ->
  Forall (fun g => transition g = None) fs ->
  transition f <> None ->
  List.map descriptorOf (concat (List.map spawned (fs ++ [f]))) =
  List.map descriptorOfData
    (drop (spawnIndex (animationState lp)) (particlesToSpawn (animationState lp))).
Proof.
  revert lp n fs. induction times as [|t times IH]; intros lp n fs Hfs Hnone Hlast.
  - simpl in Hfs. by destruct fs.
  - rewrite frames_cons in Hfs.
    destruct (frame_spawns lp n t) as [Hstay Hgo].
    destruct fs as [|g fs]; simpl in Hfs; injection Hfs as Hg Hrest.
    + cbn [app List.map concat]. rewrite app_nil_r, <- Hg. apply Hgo. by rewrite Hg.
    + apply Forall_cons in Hnone as [Hgnone Hnone]. rewrite Hg in Hstay.
      destruct (Hstay Hgnone) as (Hq & k & Hk & Hmap).
      specialize (IH _ _ _ Hrest Hnone Hlast). rewrite Hq, Hk in IH.
      cbn [List.map concat app]. rewrite map_app, IH, Hmap, <- map_app.
      f_equal. rewrite <- drop_drop. apply take_drop.
Qed.

(** What the frame of a running loop spawns is what its spawn loop
    returns. *)
Lemma animate_spawned (lp : Loop) (n : nat) (currentTime : Q) :
  isAnimating (animationState lp) = true ->
  let st := animationState lp in
  let timer := classTimer st + (currentTime - lastTime lp) in
  spawned (snd (animate lp n currentTime)) =
  fst (spawnLoop timer currentTime (drop (spawnIndex st) (particlesToSpawn st)) n).
Proof.
  intros Ha. rewrite (animate_running lp n currentTime Ha). cbv zeta.
  by destruct (_ && _).
Qed.

(** Once the phase timer is at 2000 ms or more, a frame leaves the cursor
    at the end of the queue: every delay is below 2000. *)
Lemma frame_drains (data : list RawLink) (lp : Loop) (n : nat) (currentTime : Q) :
  randomInRange -> reachable data lp ->
  let st := animationState lp in
  2000 <= classTimer st + (currentTime - lastTime lp) ->
  (spawnIndex st + length (spawned (snd (animate lp n currentTime))))%nat =
  length (particlesToSpawn st).
Proof.
  intros Hrand Hr. cbv zeta. intros Ht.
  destruct (reachable_configured _ _ Hr) as [Ha _ _ _ _ _ [n0 Hq]].
  destruct (reachable_timed _ _ Hrand Hr) as [Hcur _ _].
  rewrite (animate_spawned lp n currentTime Ha). cbv zeta.
  set (st := animationState lp) in *.
  set (timer := classTimer st + (currentTime - lastTime lp)) in *.
  set (todo := drop (spawnIndex st) (particlesToSpawn st)).
  destruct (spawnLoop_spec timer currentTime todo n) as (Hk & _).
  destruct (spawnLoop_sorted timer currentTime todo n) as (Hrest & _).
  { apply StronglySorted_drop. rewrite Hq. apply prepare_sorted. }
  set (k := length (fst (spawnLoop timer currentTime todo n))) in *.
  assert (Hnil : drop k todo = []).
  { destruct (drop k todo) as [|d rest] eqn:E; [reflexivity |].
    assert (Hd : d ∈ particlesToSpawn st).
    { assert (Hin : d ∈ drop k todo) by (rewrite E; left).
      unfold todo in Hin. rewrite drop_drop in Hin.
      apply list_elem_of_lookup in Hin as [i Hi]. rewrite lookup_drop in Hi.
      by eapply list_elem_of_lookup_2. }
    apply Forall_cons in Hrest as [Hlt _].
    rewrite Hq in Hd. pose proof (prepare_drawn st (classAt (currentClassIndex st)) n0) as Hall.
    rewrite Forall_forall in Hall. apply Hall in Hd.
    destruct (drawnFromRandom_range d Hrand Hd) as ((_ & ?) & _). lra. }
  apply (f_equal length) in Hnil. rewrite length_drop in Hnil. simpl in Hnil.
  unfold todo in *. rewrite length_drop in *. lia.
Qed.

(** C1.  In every state a rendered diagram reaches, the spawn queue of the
    current class holds, for each link whose source is that class, exactly
    [value] entries (one per sample), so its length is the sum of the values
    of those links, which is the sum over the input records of the class;
    and the frames up to and including the one in which the category
    transition fires spawn one particle for every entry of the queue not
    spawned before, in queue order.  From the start of an activation, where
    the cursor is 0, that is the whole queue.  The entries are all spawned
    once the phase timer has reached 2000 ms, well before the 7000 ms of the
    transition. *)
Theorem C1_activation_spawns_one_particle_per_sample
  (data : list RawLink) (lp : Loop) (n : nat) :
  randomInRange ->
  Forall (fun l => (0 <= raw_value l)%Z) data ->
  reachable data lp ->
  let st := animationState lp in
  let className := classAt (currentClassIndex st) in
  className ∈ CLASS_ORDER /\
  List.map pd_link (particlesToSpawn st) ≡ₚ
    flat_map (fun l => replicate (Z.to_nat (value l)) l)
             (List.filter (hasSource (nodes st) className) (links st)) /\
  Z.of_nat (length (particlesToSpawn st)) = totalSamples st className /\
  totalSamples st className = samplesOfClass data className /\
  (forall currentTime : Q,
     2000 <= classTimer st + (currentTime - lastTime lp) ->
     (spawnIndex st + length (spawned (snd (animate lp n currentTime))))%nat =
     length (particlesToSpawn st)) /\
  forall (times : list Q) (fs : list Frame) (f : Frame),
    snd (frames lp n times) = fs ++ [f] ->
    Forall (fun g => transition g = None) fs ->
    transition f <> None ->
    List.map descriptorOf (concat (List.map spawned (fs ++ [f]))) =
    List.map descriptorOfData (drop (spawnIndex st) (particlesToSpawn st)) /\
    (spawnIndex st = 0%nat ->
     length (concat (List.map spawned (fs ++ [f]))) = length (particlesToSpawn st)).
Proof.
  intros Hrand Hv Hr. cbv zeta.
  destruct (reachable_configured _ _ Hr) as [_ _ _ Hn Hl Hc [n0 Hq]].
  split; [by apply classAt_In |].
  split; [rewrite Hq at 1; apply prepare_links |].
  split; [rewrite Hq at 1; apply prepare_length; rewrite Hl; by apply makeLinks_values |].
  split; [by apply totalSamples_data |].
  split; [intros t Ht; by apply (frame_drains data) |].
  intros times fs f Hfs Hnone Hlast.
  pose proof (frames_spawn_remainder times lp n fs f Hfs Hnone Hlast) as Hall.
  split; [exact Hall |]. intros Hz. rewrite Hz, drop_0 in Hall.
  apply (f_equal length) in Hall. by rewrite !length_map in Hall.
Qed.


(** ** The category transition *)



(** ** Spawn order and particle life *)

Lemma survivors_filter (deltaTime : Q) (ps : list Particle) :
  survivors deltaTime ps =
  List.filter (fun p => Qltb (progress p) 1)
              (List.map (fun p => fst (Particle_update p deltaTime)) ps).
Proof.
  induction ps as [|p ps IH]; [reflexivity |].
  rewrite survivors_cons, IH. reflexivity.
Qed.

(** The particles a frame spawns start with the fixed speed, at an initial
    progress in [0, 0.3). *)
Lemma spawned_fresh (data : list RawLink) (lp : Loop) (n : nat) (currentTime : Q) :
  randomInRange -> reachable data lp ->
  Forall (fun p => speed p = 1 / 3000 /\ 0 <= progress p /\ progress p < 0.3)
         (spawned (snd (animate lp n currentTime))).
Proof.
  intros Hrand Hr.
  destruct (reachable_configured _ _ Hr) as [Ha _ _ _ _ _ [n0 Hq]].
  rewrite (animate_spawned lp n currentTime Ha). cbv zeta.
  set (st := animationState lp) in *.
  set (timer := classTimer st + (currentTime - lastTime lp)).
  set (todo := drop (spawnIndex st) (particlesToSpawn st)).
  destruct (spawnLoop_spec timer currentTime todo n) as (_ & Hmap & _ & _ & Hspeed).
  set (new := fst (spawnLoop timer currentTime todo n)) in *.
  assert (Hdesc : Forall (fun pr : Link * Q => 0 <= snd pr /\ snd pr < 0.3)
                    (List.map descriptorOf new)).
  { rewrite Hmap. apply Forall_map, Forall_take. unfold todo. apply Forall_drop.
    rewrite Hq. eapply Forall_impl; [apply prepare_drawn |].
    intros d Hd. simpl. by destruct (drawnFromRandom_range d Hrand Hd) as (_ & ?). }
  apply Forall_map in Hdesc. rewrite Forall_forall in *.
  intros p Hp. split; [by apply Hspeed | apply (Hdesc p Hp)].
Qed.

(** C6.  In every reachable state the delay of each queue entry is the
    mean of three draws of [Math.random()] scaled to the 2000 ms window, so
    it lies in [0, 2000); the queue is in ascending order of delay; the
    phase timer has not yet reached the delay of any entry at or after the
    cursor, unless the activation has just begun; and a frame spawns, in
    queue order, exactly the entries at or after the cursor whose delay its
    phase timer has reached, which form a prefix of them. *)
Theorem C6_spawn_in_ascending_delay_when_timer_reaches_it
  (data : list RawLink) (lp : Loop) (n : nat) (currentTime : Q) :
  randomInRange ->
  reachable data lp ->
  let st := animationState lp in
  let timer := classTimer st + (currentTime - lastTime lp) in
  let pending := drop (spawnIndex st) (particlesToSpawn st) in
  let f := snd (animate lp n currentTime) in
  Forall (fun d => drawnFromRandom d /\ 0 <= spawnDelay d /\ spawnDelay d < 2000)
         (particlesToSpawn st) /\
  StronglySorted delayLe (particlesToSpawn st) /\
  ((spawnIndex st = 0%nat /\ classTimer st = 0) \/
   Forall (fun d => classTimer st < spawnDelay d) pending) /\
  List.map descriptorOf (spawned f) =
    List.map descriptorOfData
      (List.filter (fun d => Qle_bool (spawnDelay d) timer) pending) /\
  List.filter (fun d => Qle_bool (spawnDelay d) timer) pending =
    take (length (spawned f)) pending /\
  Forall (fun d => timer < spawnDelay d) (drop (length (spawned f)) pending).
Proof.
  intros Hrand Hr. cbv zeta.
  destruct (reachable_configured _ _ Hr) as [Ha _ _ _ _ _ [n0 Hq]].
  destruct (reachable_timed _ _ Hrand Hr) as [_ Hpend _].
  rewrite (animate_spawned lp n currentTime Ha). cbv zeta.
  set (st := animationState lp) in *.
  set (timer := classTimer st + (currentTime - lastTime lp)).
  set (todo := drop (spawnIndex st) (particlesToSpawn st)) in *.
  assert (Hsorted : StronglySorted delayLe (particlesToSpawn st))
    by (rewrite Hq; apply prepare_sorted).
  destruct (spawnLoop_spec timer currentTime todo n) as (_ & Hmap & _).
  destruct (spawnLoop_sorted timer currentTime todo n) as (Hrest & Htake);
    [by apply StronglySorted_drop |].
  split.
  { rewrite Hq. eapply Forall_impl; [apply prepare_drawn |]. intros d Hd.
    split; [exact Hd |]. by destruct (drawnFromRandom_range d Hrand Hd) as (? & _). }
  split; [exact Hsorted |]. split; [exact Hpend |].
  split; [by rewrite <- Htake |]. split; [by rewrite Htake | exact Hrest].
Qed.

(** Updating only the particles below 1 and then dropping the completed
    ones gives the same as updating all of them: with a non-negative step a
    completed particle stays completed. *)
Lemma filter_update_filter (deltaTime : Q) (ps : list Particle) :
  0 <= deltaTime ->
  Forall (fun p => speed p = 1 / 3000) ps ->
  List.filter (fun p => Qltb (progress p) 1)
    (List.map (fun p => fst (Particle_update p deltaTime))
       (List.filter (fun p => Qltb (progress p) 1) ps)) =
  List.filter (fun p => Qltb (progress p) 1)
    (List.map (fun p => fst (Particle_update p deltaTime)) ps).
Proof.
  intros Hd. induction 1 as [|p ps Hs _ IH]; [reflexivity |].
  cbn [List.filter List.map].
  destruct (Qltb (progress p) 1) eqn:Hp.
  - cbn [List.filter List.map]. rewrite IH. reflexivity.
  - rewrite IH. apply Qltb_false in Hp.
    assert (Qltb (progress (fst (Particle_update p deltaTime))) 1 = false) as ->;
      [| reflexivity].
    apply Qltb_false. simpl. rewrite Hs. qdivs. nra.
Qed.

Lemma animate_lastTime (lp : Loop) (n : nat) (currentTime : Q) :
  isAnimating (animationState lp) = true ->
  lastTime (fst (fst (animate lp n currentTime))) = currentTime.
Proof.
  intros Ha. rewrite (animate_running lp n currentTime Ha). cbv zeta.
  by destruct (_ && _).
Qed.

Lemma frames_step (lp : Loop) (n : nat) (t : Q) (times : list Q) :
  fst (fst (frames lp n (t :: times))) =
  fst (fst (frames (fst (fst (animate lp n t))) (snd (fst (animate lp n t))) times)).
Proof.
  cbn [frames]. destruct (animate lp n t) as [[lp1 n1] f]. cbn [fst snd].
  by destruct (frames lp1 n1 times) as [[lp2 n2] fs].
Qed.


(** What a frame does to the live collection of a reachable state: the
    particles it holds or spawns have the fixed speed and progress below 1,
    and it keeps exactly the updated ones whose progress is still below 1,
    also when the category changes. *)
Lemma frame_live (data : list RawLink) (lp : Loop) (n : nat) (currentTime : Q) :
  randomInRange -> reachable data lp ->
  let st := animationState lp in
  let f := snd (animate lp n currentTime) in
  let st' := animationState (fst (fst (animate lp n currentTime))) in
  Forall (fun p => speed p = 1 / 3000 /\ progress p < 1) (particles st ++ spawned f) /\
  particles st' =
    List.filter (fun p => Qltb (progress p) 1)
      (List.map (fun p => fst (Particle_update p (currentTime - lastTime lp)))
         (particles st ++ spawned f)).
Proof.
  intros Hrand Hr. cbv zeta.
  pose proof (reachable_configured _ _ Hr) as Hc.
  pose proof (reachable_timed _ _ Hrand Hr) as Htm.
  pose proof (spawned_fresh data lp n currentTime Hrand Hr) as Hnew.
  pose proof (live_timed data lp n currentTime Hrand Hc Htm) as Hlive.
  destruct Hc as [Ha Hpd Hw _ _ _ _]. destruct Htm as [_ _ Hps].
  rewrite (animate_spawned lp n currentTime Ha) in *. cbv zeta in *.
  rewrite (animate_running lp n currentTime Ha). cbv zeta.
  set (st := animationState lp) in *.
  set (deltaTime := currentTime - lastTime lp) in *.
  set (timer := classTimer st + deltaTime) in *.
  set (new := fst (spawnLoop timer currentTime _ n)) in *.
  split.
  { apply Forall_app. split.
    - eapply Forall_impl; [exact Hps |]. intros p (? & ? & _). auto.
    - eapply Forall_impl; [exact Hnew |]. intros p (? & _ & ?). split; [auto | lra]. }
  rewrite <- survivors_filter.
  destruct (_ && _) eqn:Hdue; cbn [fst snd animationState particles]; [| reflexivity].
  apply andb_true_iff in Hdue as [_ Hdue]. apply Qle_bool_iff in Hdue.
  rewrite Hpd, Hw in Hdue.
  destruct (survivors deltaTime (particles st ++ new)) as [|p live]; [reflexivity |].
  apply Forall_cons in Hlive as [(_ & Hp1 & Hp2) _]. lra.
Qed.

(** Over any run of frames whose times do not go back, the live collection
    is the list of the particles ever held or spawned, each updated by the
    frames it has been through, less those whose progress is 1 or more. *)
Lemma live_are_the_incomplete (data : list RawLink) (times : list Q) :
  randomInRange ->
  forall (lp : Loop) (n : nat) (ever : list Particle),
    reachable data lp ->
    nonDecreasing (lastTime lp) times ->
    Forall (fun p => speed p = 1 / 3000) ever ->
    List.filter (fun p => Qltb (progress p) 1) ever = particles (animationState lp) ->
    particles (animationState (fst (fst (frames lp n times)))) =
    List.filter (fun p => Qltb (progress p) 1)
      (everSpawned ever (lastTime lp) times (snd (frames lp n times))).
Proof.
  intros Hrand. induction times as [|t times IH]; intros lp n ever Hr Hnd Hs Hlive.
  - simpl. by rewrite Hlive.
  - destruct Hnd as [Ht Hnd]. rewrite frames_step, frames_cons. cbn [everSpawned].
    destruct (frame_live data lp n t Hrand Hr) as [Hbefore Hafter].
    destruct (reachable_configured _ _ Hr) as [Ha _ _ _ _ _ _].
    pose proof (animate_lastTime lp n t Ha) as Hlast.
    set (f := snd (animate lp n t)) in *.
    set (lp1 := fst (fst (animate lp n t))) in *.
    rewrite <- Hlast at 2. apply IH.
    + by apply reachable_frame.
    + by rewrite Hlast.
    + apply Forall_map. apply Forall_app. split.
      * eapply Forall_impl; [exact Hs |]. auto.
      * apply Forall_app in Hbefore as [_ Hnew].
        eapply Forall_impl; [exact Hnew |]. intros p [? _]. assumption.
    + rewrite Hafter, <- Hlive, !map_app, !List.filter_app.
      f_equal. symmetry. apply filter_update_filter; [lra | exact Hs].
Qed.

Lemma filter_all_below (ps : list Particle) :
  Forall (fun p => progress p < 1) ps ->
  List.filter (fun p => Qltb (progress p) 1) ps = ps.
Proof.
  induction 1 as [|p ps Hp _ IH]; simpl; [reflexivity |].
  apply Qltb_true in Hp. by rewrite Hp, IH.
Qed.

(** C7.  In a frame with a non-negative time step, the progress of every
    particle that is live or spawned in the frame is below 1 before the
    update and does not decrease in it; and the live collection after the
    frame consists of the updated particles whose progress is still below 1,
    in every frame, that of a category transition included (there the
    collection is already empty when it is cleared).  Over any run of frames
    whose times do not go back, the live collection is the list of the
    particles ever live or spawned, each updated by the frames it has been
    through, less those whose progress is 1 or more: a particle leaves the
    collection in the first update that brings its progress to 1 or more,
    for no other reason, and is never in it again. *)
Theorem C7_progress_monotone_and_removed_at_completion
  (data : list RawLink) (lp : Loop) (n : nat) (currentTime : Q) :
  randomInRange ->
  reachable data lp ->
  lastTime lp <= currentTime ->
  let st := animationState lp in
  let deltaTime := currentTime - lastTime lp in
  let f := snd (animate lp n currentTime) in
  let st' := animationState (fst (fst (animate lp n currentTime))) in
  let before := particles st ++ spawned f in
  Forall (fun p => progress p < 1) before /\
  Forall (fun p => progress p <= progress (fst (Particle_update p deltaTime))) before /\
  Forall (fun p => progress (fst (Particle_update p deltaTime)) ==
                   progress p + deltaTime / 3000) before /\
  particles st' =
    List.filter (fun p => Qltb (progress p) 1)
                (List.map (fun p => fst (Particle_update p deltaTime)) before) /\
  Forall (fun p => progress p < 1) (particles st') /\
  forall times : list Q,
    nonDecreasing (lastTime lp) times ->
    particles (animationState (fst (fst (frames lp n times)))) =
    List.filter (fun p => Qltb (progress p) 1)
      (everSpawned (particles st) (lastTime lp) times (snd (frames lp n times))).
Proof.
  intros Hrand Hr Ht. cbv zeta.
  destruct (frame_live data lp n currentTime Hrand Hr) as [Hbefore Hafter].
  destruct (reachable_timed _ _ Hrand Hr) as [_ _ Hps].
  split; [eapply Forall_impl; [exact Hbefore |]; intros p [_ ?]; assumption |].
  split.
  { eapply Forall_impl; [exact Hbefore |]. intros p [Hs _]. simpl. rewrite Hs.
    qdivs. lra. }
  split.
  { eapply Forall_impl; [exact Hbefore |]. intros p [Hs _]. simpl. rewrite Hs.
    qdivs. lra. }
  split; [exact Hafter |].
  split.
  { rewrite Hafter. apply Forall_forall. intros p Hp.
    apply list_elem_of_In, filter_In in Hp as [_ Hp]. by apply Qltb_true in Hp. }
  intros times Hnd. apply (live_are_the_incomplete data times Hrand); try assumption.
  - eapply Forall_impl; [exact Hps |]. intros p (? & _). assumption.
  - apply filter_all_below. eapply Forall_impl; [exact Hps |]. intros p (_ & ? & _).
    assumption.
Qed.

(** ** Travel time *)


(** C2, as the code has it.  The speed of a particle is the constant 1/3000
    per ms, the inverse of the 3000 ms [particleDuration], and an update
    adds [speed * deltaTime] to the progress, keeps the speed and returns
    whether the progress is below 1; the speed, the product and the sum are
    doubles.  A particle is created at the initial progress of its queue
    entry, a draw of [Math.random()] times 0.3, hence in [0, 0.3).  After
    updates whose time steps (each 0 or between 10^-15 and 10^15 ms) sum to
    [T], the progress is the initial progress plus [T / 3000] up to the
    rounding: a factor between [(1 - u)^m] and [(1 + u)^m], for [m] the
    number of updates plus 2 and [u = 2^-53].  So the particle has arrived
    when the unrounded value is at least 1 by that margin and has not when
    it is below 1 by that margin; at the unrounded value 1 itself the last
    bits decide.  The unrounded value is 1 at
    [T = (1 - initial progress) * 3000] ms, a time above 2100 ms and at most
    3000 ms, which is the travel duration only for an initial progress of
    0. *)
Theorem C2_progress_linear_travel_shortened_by_initial_progress
  (data : list RawLink) (lp : Loop) (d : ParticleData)
  (birth : Q) (k : nat) (deltas : list Q) :
  randomInRange ->
  reachable data lp ->
  d ∈ particlesToSpawn (animationState lp) ->
  Forall clockStep deltas ->
  let p := Particle_new (pd_link d) (pd_color d) birth (initialProgress d) k in
  let m := (length deltas + 2)%nat in
  let unrounded := progress p + Qsum deltas / 3000 in
  let arrived := progress (Particle_updates_binary64 p deltas) in
  (forall (q : Particle) (deltaTime : Q),
     let q' := fst (Particle_update_binary64 q deltaTime) in
     progress q' = binary64 (progress q + binary64 (binary64 (speed q) * deltaTime)) /\
     speed q' = speed q /\
     snd (Particle_update_binary64 q deltaTime) = Qltb (progress q') 1) /\
  speed p = 1 / 3000 /\
  speed p == 1 / particleDuration (animationState lp) /\
  (exists j, progress p = random j * 0.3) /\
  (0 <= progress p /\ progress p < 0.3) /\
  (Qpow (1 - unitRoundoff) m * unrounded <= arrived /\
   arrived <= Qpow (1 + unitRoundoff) m * unrounded) /\
  (1 <= Qpow (1 - unitRoundoff) m * unrounded -> 1 <= arrived) /\
  (Qpow (1 + unitRoundoff) m * unrounded < 1 -> arrived < 1) /\
  (unrounded == 1 <-> Qsum deltas == (1 - progress p) * 3000) /\
  (2100 < (1 - progress p) * 3000 /\ (1 - progress p) * 3000 <= 3000) /\
  ((1 - progress p) * 3000 == 3000 <-> progress p == 0).
Proof.
  intros Hrand Hr Hd Hsteps. cbv zeta.
  assert (Hall : Forall (fun deltaTime => 0 <= deltaTime) deltas).
  { eapply Forall_impl; [exact Hsteps |]. intros deltaTime [H0 | [H1 _]]; lra. }
  destruct (reachable_configured _ _ Hr) as [_ Hpd _ _ _ _ [n0 Hq]].
  rewrite Hq in Hd. eapply Forall_forall in Hd; [| apply prepare_drawn].
  destruct (drawnFromRandom_range d Hrand Hd) as (_ & (Hp0 & Hp1)).
  destruct Hd as (j & _ & Hj).
  destruct unitRoundoff_range as [Hu0 Hu1].
  assert (Henc := Particle_updates_binary64_enclosed deltas
              (Particle_new (pd_link d) (pd_color d) birth (initialProgress d) k)
              0 (initialProgress d) Hall).
  cbn [Particle_new progress speed] in *.
  assert (Hsp : 0 <= 1 / 3000) by (qdivs; lra).
  specialize (Henc Hsp Hp0).
  assert (Hlo2 : Qpow (1 - unitRoundoff) (0 + 2) * initialProgress d <= initialProgress d).
  { pose proof (Qpow_le_1 (1 - unitRoundoff) (0 + 2) ltac:(lra) ltac:(lra)).
    assert (0 <= (1 - Qpow (1 - unitRoundoff) (0 + 2)) * initialProgress d)
      by (apply Qmult_le_0_compat; lra). lra. }
  assert (Hhi2 : initialProgress d <= Qpow (1 + unitRoundoff) (0 + 2) * initialProgress d).
  { pose proof (Qpow_ge_1 (1 + unitRoundoff) (0 + 2) ltac:(lra)).
    assert (0 <= (Qpow (1 + unitRoundoff) (0 + 2) - 1) * initialProgress d)
      by (apply Qmult_le_0_compat; lra). lra. }
  specialize (Henc Hlo2 Hhi2). cbv zeta in Henc. cbn [Nat.add] in Henc.
  assert (E : initialProgress d + 1 / 3000 * Qsum deltas
              == initialProgress d + Qsum deltas / 3000) by (qdivs; lra).
  rewrite E in Henc. destruct Henc as [Hx1 Hx2].
  split; [intros q deltaTime; repeat split; reflexivity |].
  split; [reflexivity |]. split; [rewrite Hpd; reflexivity |].
  split; [exists (j + 3)%nat; exact Hj |]. split; [split; assumption |].
  split; [split; assumption |].
  split; [intros; lra |]. split; [intros; lra |].
  split; [qdivs; split; intros; lra |].
  split; [split; lra |]. split; intros; lra.
Qed.

(** ** Links of weight 0 *)

Lemma queue_links_positive (st : AnimationState) (className : string) (n : nat) :
  Forall (fun d => (0 < value (pd_link d))%Z)
         (fst (prepareParticlesForClass st className n)).
Proof.
  apply Forall_forall. intros d Hd.
  assert (Hin : pd_link d ∈ List.map pd_link (fst (prepareParticlesForClass st className n)))
    by (apply list_elem_of_fmap; eauto).
  rewrite prepare_links in Hin.
  apply list_elem_of_In, in_flat_map in Hin as (l & _ & Hl).
  apply list_elem_of_In, elem_of_replicate in Hl as [-> Hne]. lia.
Qed.

(** C5, as the code has it.  A record of value 0 yields a link of value 0.
    Nothing is raised while it is processed: the names of its source and
    target are keys of [nodeMap], so its [source] and [target] are indices
    of nodes, and [nodes[link.source.index]], whose [name] the stroke
    colour, the filter of the active links and the queue read, is a node,
    the one named as the record's source.  The loop that creates its queue
    entries makes no iteration and no entry of any queue refers to a link of
    value 0, so the link gets no particle.  When the data have a link of
    positive value (the scale of the layout is then a finite number) its
    layout width is 0 and its path is stroked with [Math.max(1, width)],
    which is 1, not 0. *)
Theorem C5_zero_value_link_no_particles_minimum_stroke
  (data : list RawLink) (lp : Loop) (raw : RawLink) :
  reachable data lp ->
  raw ∈ data ->
  raw_value raw = 0%Z ->
  let st := animationState lp in
  let l := layoutLink data raw in
  l ∈ links st /\ value l = 0%Z /\
  (exists i j nd nd',
     nodeMap (nodes st) !! raw_source raw = Some i /\
     nodeMap (nodes st) !! raw_target raw = Some j /\
     source l = i /\ target l = j /\
     nodes st !! source l = Some nd /\ name nd = raw_source raw /\
     nodes st !! target l = Some nd' /\ name nd' = raw_target raw) /\
  sourceNameOf (nodes st) l = Some (raw_source raw) /\
  (forall className, hasSource (nodes st) className l =
                     String.eqb (raw_source raw) className) /\
  (forall (c : string) (k : nat), particlesForLink l c (Z.to_nat (value l)) k = []) /\
  Forall (fun d => pd_link d <> l /\ (0 < value (pd_link d))%Z) (particlesToSpawn st) /\
  ((exists other, other ∈ data /\ (0 < raw_value other)%Z) ->
   width l == 0 /\ strokeWidth l = 1 /\ Math_max 1 (width l) = 1).
Proof.
  intros Hr Hraw Hv. cbv zeta.
  destruct (reachable_configured _ _ Hr) as [_ _ _ Hn Hl _ [n0 Hq]].
  assert (Hw : width (layoutLink data raw) == 0).
  { unfold layoutLink. cbn [width]. rewrite Hv. change (inject_Z 0) with 0. ring. }
  assert (Hs : Math_max 1 (width (layoutLink data raw)) = 1).
  { destruct (Math_max_spec 1 (width (layoutLink data raw))) as [[? _] | [_ ?]];
      [lra | assumption]. }
  rewrite Hn.
  split; [rewrite Hl; by apply list_elem_of_fmap_2 |].
  split; [exact Hv |].
  split.
  { pose proof (nodeSet_source data raw Hraw) as Hsrc.
    pose proof (nodeSet_target data raw Hraw) as Htgt.
    apply list_elem_of_lookup in Hsrc as [i Hi], Htgt as [j Hj].
    exists i, j, (mkNode (raw_source raw) i), (mkNode (raw_target raw) j).
    assert (Hsi : source (layoutLink data raw) = i).
    { unfold layoutLink. cbn [source]. by rewrite (nodeMap_lookup _ _ _ Hi). }
    assert (Htj : target (layoutLink data raw) = j).
    { unfold layoutLink. cbn [target]. by rewrite (nodeMap_lookup _ _ _ Hj). }
    rewrite Hsi, Htj.
    rewrite (makeNodes_lookup _ _ _ Hi), (makeNodes_lookup _ _ _ Hj).
    rewrite (nodeMap_lookup _ _ _ Hi), (nodeMap_lookup _ _ _ Hj).
    repeat split. }
  split; [by apply sourceNameOf_layout |].
  split; [intros className; by apply hasSource_layout |].
  split; [intros c k; simpl; by rewrite Hv |].
  split; [| intros _; by repeat split].
  rewrite Hq. eapply Forall_impl; [apply queue_links_positive |].
  intros d Hd. cbv beta in Hd. split; [| exact Hd]. intros Heq. rewrite Heq in Hd.
  cbn [layoutLink value] in Hd. lia.
Qed.

(** ** Drawing *)

Lemma checkedDivide_positive (a b : Q) : 0 < b -> checkedDivide a b = Some (a / b).
Proof.
  intros Hb. unfold checkedDivide.
  destruct (Qeq_bool b 0) eqn:E; [| reflexivity].
  apply Qeq_bool_iff in E. lra.
Qed.

(** C10.  [Particle.draw] never evaluates a division with a zero divisor:
    the two divisions by the tangent length are made only when that length
    is greater than 0.  When the two sampled points coincide (and the square
    root of zero is zero) the perpendicular stays (0, 0) and the circle is
    drawn at the sampled point of the centerline. *)
Theorem C10_draw_never_divides_by_zero (p : Particle) :
  Particle_draw p <> DivisionByZero /\
  forall centerPoint tangentPoint : Point,
    progress p < 1 ->
    getPointAtProgress (sankeyLinkHorizontal (link p)) (progress p) = Some centerPoint ->
    getPointAtProgress (sankeyLinkHorizontal (link p)) (Math_min 1 (progress p + 0.01))
      = Some tangentPoint ->
    pt_x tangentPoint == pt_x centerPoint ->
    pt_y tangentPoint == pt_y centerPoint ->
    (forall x, x == 0 -> Math_sqrt x == 0) ->
    exists a, Particle_draw p = Drawn a /\
              arc_x a == pt_x centerPoint /\ arc_y a == pt_y centerPoint.
Proof.
  split.
  - unfold Particle_draw, getPointAtProgress.
    destruct (Qle_bool 1 (progress p)); [discriminate |].
    destruct (Qltb 0 _) eqn:E; [| discriminate].
    apply Qltb_true in E. rewrite !checkedDivide_positive by exact E. discriminate.
  - intros c t Hp Hc Htg Hx Hy Hsqrt. unfold Particle_draw.
    assert (Qle_bool 1 (progress p) = false) as -> by (apply Qle_bool_false; exact Hp).
    rewrite Hc, Htg.
    set (dx := pt_x t - pt_x c). set (dy := pt_y t - pt_y c).
    assert (Hlen : Math_sqrt (dx * dx + dy * dy) == 0).
    { apply Hsqrt. unfold dx, dy. rewrite Hx, Hy. ring. }
    assert (Qltb 0 (Math_sqrt (dx * dx + dy * dy)) = false) as ->
      by (apply Qltb_false; lra).
    eexists. split; [reflexivity |]. simpl. split; ring.
Qed.

End SchedulerProofs.
Section PageProofs.

Context `{Host}.

(** ** The page: loops, stop flags and the frame queue *)

(** A frame callback keeps the stop flag and the year of its loop; it
    registers itself again exactly when the flag is not set, and does
    nothing at all when it is set. *)
Lemma animate_flags (lp : Loop) (n : nat) (currentTime : Q) :
  let lp' := fst (fst (animate lp n currentTime)) in
  let f := snd (animate lp n currentTime) in
  isAnimating (animationState lp') = isAnimating (animationState lp) /\
  loopYear lp' = loopYear lp /\
  rescheduled f = isAnimating (animationState lp) /\
  (isAnimating (animationState lp) = false -> f = stoppedFrame /\ lp' = lp).
Proof.
  cbv zeta. destruct (isAnimating (animationState lp)) eqn:Ha.
  - rewrite (animate_running lp n currentTime Ha). cbv zeta.
    destruct (_ && _); simpl; repeat split; discriminate.
  - rewrite (animate_stopped lp n currentTime Ha). simpl. rewrite Ha. tauto.
Qed.








Lemma filter_none (P : nat -> bool) (l : list nat) :
  (forall j, j ∈ l -> P j = false) -> List.filter P l = [].
Proof.
  induction l as [|y l IH]; intros Hall; simpl; [reflexivity |].
  rewrite (Hall y) by left. apply IH. intros j Hj. apply Hall. by right.
Qed.


(** A year that has not been rendered has no active loop. *)
Lemma pageOK_not_rendered (w : World) (year : string) :
  pageOK w -> animationStates w !! year = None -> activeLoopsOf w year = [].
Proof.
  intros [Hb Hnd Hreg Hrun] Hy. unfold activeLoopsOf.
  apply filter_none. intros j Hj. apply not_true_is_false.
  unfold isActive, running, drawsFor.
  destruct (loops w !! j) as [lpj|] eqn:Hlj; [| discriminate].
  intros Hc. apply andb_true_iff in Hc as [Haj Hyj].
  apply String.eqb_eq in Hyj. destruct (Hrun j lpj Hlj Haj) as [Hr _].
  rewrite Hyj, Hy in Hr. discriminate.
Qed.











(** *** The running loops of the page are reachable loop states *)

Lemma runCallbacks_Forall (P : Loop -> Prop) (currentTime : Q) :
  (forall lp n, P lp -> P (fst (fst (animate lp n currentTime)))) ->
  forall (callbacks : list nat) (lps : list Loop) (n : nat),
    Forall P lps ->
    Forall P (fst (fst (fst (runCallbacks currentTime callbacks lps n)))).
Proof.
  intros Hstep. induction callbacks as [|i callbacks IH]; intros lps n Hall; simpl.
  - exact Hall.
  - destruct (lps !! i) as [lp|] eqn:Hi; [| by apply IH].
    assert (Hlp : P lp) by (eapply Forall_lookup_1; eauto).
    specialize (Hstep lp n Hlp).
    destruct (animate lp n currentTime) as [[lp' n1] f]. simpl in Hstep.
    specialize (IH (<[i := lp']> lps) n1 (Forall_insert _ _ _ _ Hall Hstep)).
    by destruct (runCallbacks currentTime callbacks (<[i := lp']> lps) n1)
      as [[[lps' again] n2] fs].
Qed.

Lemma step_loops_reachable (w : World) (e : Event) :
  Forall (fun lp => isAnimating (animationState lp) = true ->
                    exists data, reachable data lp) (loops w) ->
  Forall (fun lp => isAnimating (animationState lp) = true ->
                    exists data, reachable data lp) (loops (step w e)).
Proof.
  intros Hw. destruct e as [data year now | currentTime]; simpl.
  - assert (Hstop : Forall (fun lp => isAnimating (animationState lp) = true ->
                                      exists data, reachable data lp)
                           (stopExisting w year)).
    { unfold stopExisting. destruct (animationStates w !! year) as [i|]; [| exact Hw].
      apply Forall_alter; [exact Hw |]. intros lp _ _. simpl. discriminate. }
    unfold renderAnimatedSankeyDiagram. destruct (sankeyError data) as [message|].
    + simpl. apply Forall_app. split; [exact Hstop |].
      constructor; [| constructor]. simpl. discriminate.
    + destruct (startState data (randomCalls w)) as [st n'] eqn:E. simpl.
      apply Forall_app. split; [exact Hstop |].
      constructor; [| constructor]. intros _. exists data.
      replace st with (fst (startState data (randomCalls w))) by (by rewrite E).
      apply reachable_start.
  - unfold hostFrame.
    assert (Hrun := runCallbacks_Forall
                      (fun lp => isAnimating (animationState lp) = true ->
                                 exists data, reachable data lp) currentTime).
    destruct (runCallbacks currentTime (rafQueue w) (loops w) (randomCalls w))
      as [[[lps again] n] fs] eqn:E. simpl.
    specialize (Hrun) with (callbacks := rafQueue w) (lps := loops w) (n := randomCalls w).
    rewrite E in Hrun. apply Hrun; [| exact Hw].
    intros lp k Hlp Ha.
    destruct (animate_flags lp k currentTime) as (Hflag & _).
    rewrite Hflag in Ha. destruct (Hlp Ha) as [data Hr].
    exists data. by apply reachable_frame.
Qed.

(** Every loop of the page whose stop flag is not set is in a reachable
    state of its diagram: what is proved of the reachable states holds of
    the running loops of the page. *)
Lemma page_loops_reachable (es : list Event) :
  Forall (fun lp => isAnimating (animationState lp) = true ->
                    exists data, reachable data lp)
         (loops (run es)).
Proof.
  unfold run.
  assert (Hgen : forall w : World,
            Forall (fun lp => isAnimating (animationState lp) = true ->
                              exists data, reachable data lp) (loops w) ->
            Forall (fun lp => isAnimating (animationState lp) = true ->
                              exists data, reachable data lp) (loops (runFrom w es))).
  { induction es as [|e es IH]; intros w Hw; [exact Hw |].
    apply IH. by apply step_loops_reachable. }
  apply Hgen. constructor.
Qed.

(** *** A stopped loop stays stopped and leaves the queue *)








End PageProofs.

(** ** Independence of the path sampler *)

Lemma Particle_draw_drawn `{Host} (p : Particle) :
  progress p < 1 -> exists a, Particle_draw p = Drawn a.
Proof.
  intros Hp. unfold Particle_draw, getPointAtProgress.
  assert (Qle_bool 1 (progress p) = false) as -> by (apply Qle_bool_false; exact Hp).
  destruct (Qltb 0 _) eqn:E; [| eauto].
  apply Qltb_true in E. rewrite !checkedDivide_positive by exact E. simpl. eauto.
Qed.

Lemma survivors_alive (deltaTime : Q) (ps : list Particle) :
  Forall (fun p => progress p < 1) (survivors deltaTime ps).
Proof.
  apply (survivors_Forall (fun _ => True)); [| by apply Forall_true].
  intros p _ Ha. by apply Qltb_true in Ha.
Qed.

Lemma spawnLoop_sampler (H : Host) (total : string -> Q) (pointAt : string -> Q -> Point)
  (timer currentTime : Q) (todo : list ParticleData) (n : nat) :
  spawnLoop (H := withSampler H total pointAt) timer currentTime todo n =
  spawnLoop timer currentTime todo n.
Proof.
  revert n. induction todo as [|d todo IH]; intros n; simpl; [reflexivity |].
  by rewrite IH.
Qed.

Lemma particlesForLink_sampler (H : Host) (total : string -> Q)
  (pointAt : string -> Q -> Point) (l : Link) (c : string) (count n : nat) :
  particlesForLink (H := withSampler H total pointAt) l c count n =
  particlesForLink l c count n.
Proof.
  revert n. induction count as [|count IH]; intros n; simpl; [reflexivity |].
  by rewrite IH.
Qed.

Lemma prepare_sampler (H : Host) (total : string -> Q) (pointAt : string -> Q -> Point)
  (st : AnimationState) (className : string) (n : nat) :
  prepareParticlesForClass (H := withSampler H total pointAt) st className n =
  prepareParticlesForClass st className n.
Proof.
  unfold prepareParticlesForClass.
  generalize (List.filter (hasSource (nodes st) className) (links st)) as active.
  intros active.
  assert (Hq : particlesForLinks (H := withSampler H total pointAt) (nodes st) active n =
               particlesForLinks (nodes st) active n); [| by rewrite Hq].
  revert n. induction active as [|l active IH]; intros n; simpl; [reflexivity |].
  by rewrite IH, particlesForLink_sampler.
Qed.

(** C4, as the code has it.  [getPointAtProgress] returns a point for
    every path and progress, so the test of [centerPoint] in
    [Particle.draw] never fails: a particle whose progress is below 1 is
    drawn, whatever the length of its curve, and every call of [draw] in a
    frame draws a circle.  The state a frame leaves, the live collection
    included, does not depend on what the path sampler returns: a particle
    leaves the collection by its progress alone. *)
Theorem C4_draw_never_skipped_removal_by_progress_alone
  (H : Host) (lp : Loop) (n : nat) (currentTime : Q)
  (total : string -> Q) (pointAt : string -> Q -> Point) :
  (forall (pathString : string) (prog : Q),
     exists pt, getPointAtProgress pathString prog = Some pt) /\
  (forall p : Particle, progress p < 1 -> exists a, Particle_draw p = Drawn a) /\
  Forall (fun r => exists a, r = Drawn a) (drawn (snd (animate lp n currentTime))) /\
  fst (animate (H := withSampler H total pointAt) lp n currentTime) =
  fst (animate lp n currentTime).
Proof.
  split; [intros; unfold getPointAtProgress; eauto |].
  split; [apply Particle_draw_drawn |]. split.
  - destruct (isAnimating (animationState lp)) eqn:Ha.
    + rewrite (animate_running lp n currentTime Ha). cbv zeta.
      assert (Hall : forall ps, Forall (fun r => exists a, r = Drawn a)
                                  (List.map Particle_draw
                                     (survivors (currentTime - lastTime lp) ps))).
      { intros ps. apply Forall_map. eapply Forall_impl; [apply survivors_alive |].
        intros p Hp. by apply Particle_draw_drawn. }
      destruct (_ && _); apply Hall.
    + rewrite (animate_stopped lp n currentTime Ha). constructor.
  - destruct (isAnimating (animationState lp)) eqn:Ha.
    + rewrite !(animate_running lp n currentTime Ha). cbv zeta.
      rewrite spawnLoop_sampler, prepare_sampler. by destruct (_ && _).
    + by rewrite !(animate_stopped lp n currentTime Ha).
Qed.
(** * Further properties of the engine *)

(** ** The node table of renderAnimatedSankeyDiagram *)

Lemma nodeSet_only (data : list RawLink) (s : list string) (x : string) :
  x ∈ foldl (fun s l => setAdd (setAdd s (raw_source l)) (raw_target l)) s data ->
  x ∈ s \/ exists l, l ∈ data /\ (x = raw_source l \/ x = raw_target l).
Proof.
  revert s. induction data as [|l data IH]; intros s; simpl; [auto |].
  intros Hx. destruct (IH _ Hx) as [Hs | (l' & Hl' & Hx')].
  - rewrite !setAdd_elem in Hs. destruct Hs as [[Hs | ->] | ->].
    + by left.
    + right. exists l. split; [left | by left].
    + right. exists l. split; [left | by right].
  - right. exists l'. split; [by right | exact Hx'].
Qed.

Lemma names_imap (names : list string) (k : nat) :
  List.map name (imap (fun i x => mkNode x (k + i)) names) = names.
Proof.
  revert k. induction names as [|x names IH]; intros k; simpl; [reflexivity |].
  f_equal. rewrite <- (IH (S k)) at 2. f_equal. apply imap_ext.
  intros i y _. simpl. f_equal. lia.
Qed.

Lemma makeNodes_names (data : list RawLink) :
  List.map name (makeNodes data) = nodeSet data.
Proof. apply (names_imap (nodeSet data) 0). Qed.

Lemma nodeMap_absent (data : list RawLink) (x : string) :
  x ∉ nodeSet data -> nodeMap (makeNodes data) !! x = None.
Proof.
  intros Hx. unfold nodeMap, makeNodes.
  destruct (nodeMap_from (nodeSet data) 0 ∅ x (nodeSet_NoDup data)) as [_ Hout].
  rewrite (imap_ext _ (fun i x => mkNode x (0 + i))) by reflexivity.
  by rewrite (Hout Hx).
Qed.

Section EngineProperties.

Context `{Host}.

(** X1.  The node table built from the input records: the nodes are the
    source and target names of the records, each once; a node's [index] is
    its position in [nodes]; [nodeMap.get] of a node's name is that index,
    and of any other name is undefined; and the [source] and [target] of
    every link of the layout are the positions of the nodes that carry the
    record's source and target names. *)
Theorem X1_node_table_round_trip (data : list RawLink) :
  let nds := makeNodes data in
  NoDup (List.map name nds) /\
  (forall x, x ∈ List.map name nds <->
             exists l, l ∈ data /\ (x = raw_source l \/ x = raw_target l)) /\
  (forall i nd, nds !! i = Some nd ->
                index nd = i /\ nodeMap nds !! name nd = Some i) /\
  (forall x, x ∉ List.map name nds -> nodeMap nds !! x = None) /\
  (forall l, l ∈ data ->
     name <$> nds !! source (layoutLink data l) = Some (raw_source l) /\
     name <$> nds !! target (layoutLink data l) = Some (raw_target l)).
Proof.
  cbv zeta. rewrite makeNodes_names. split; [apply nodeSet_NoDup |].
  split; [| split; [| split]].
  - intros x. split.
    + intros Hx. apply nodeSet_only in Hx as [Hx | Hx]; [| exact Hx].
      by apply elem_of_nil in Hx.
    + intros (l & Hl & [-> | ->]); [by apply nodeSet_source | by apply nodeSet_target].
  - intros i nd Hi. unfold makeNodes in Hi. rewrite list_lookup_imap in Hi.
    destruct (nodeSet data !! i) as [nm|] eqn:Hnm; [| discriminate].
    simpl in Hi. injection Hi as <-. simpl. split; [reflexivity |].
    by apply nodeMap_lookup.
  - apply nodeMap_absent.
  - intros l Hl. split.
    + apply (sourceNameOf_layout data l Hl).
    + apply nodeSet_target, list_elem_of_lookup in Hl as [i Hi].
      unfold layoutLink. simpl. rewrite (nodeMap_lookup _ _ _ Hi). simpl.
      by rewrite (makeNodes_lookup _ _ _ Hi).
Qed.

(** ** Colours *)

Lemma particlesForLink_colors (l : Link) (c : string) (count n : nat) :
  Forall (fun d => pd_link d = l /\ pd_color d = c) (particlesForLink l c count n).
Proof.
  revert n. induction count as [|count IH]; intros n; simpl; constructor; [| apply IH].
  split; reflexivity.
Qed.

Lemma particlesForLinks_colors (nds : list Node) (active : list Link) (n : nat) :
  Forall (fun d => pd_link d ∈ active /\
                   pd_color d =
                   subjectiveColor (default "undefined" (sourceNameOf nds (pd_link d))))
         (fst (particlesForLinks nds active n)).
Proof.
  revert n. induction active as [|l active IH]; intros n; simpl; [constructor |].
  specialize (IH (n + 4 * Z.to_nat (value l))%nat).
  destruct (particlesForLinks nds active _) as [q n']. simpl in *.
  apply Forall_app. split.
  - eapply Forall_impl; [apply particlesForLink_colors |].
    intros d [-> ->]. split; [left | reflexivity].
  - eapply Forall_impl; [exact IH |]. intros d [Hd Hc]. split; [by right | exact Hc].
Qed.

(** Every entry of the queue prepared for a class is on a link whose source
    node carries the class's name and has the class's colour. *)
Lemma prepare_colors (st : AnimationState) (className : string) (n : nat) :
  Forall (fun d => sourceNameOf (nodes st) (pd_link d) = Some className /\
                   pd_color d = subjectiveColor className)
         (fst (prepareParticlesForClass st className n)).
Proof.
  unfold prepareParticlesForClass.
  pose proof (particlesForLinks_colors (nodes st)
                (List.filter (hasSource (nodes st) className) (links st)) n) as Hc.
  destruct (particlesForLinks _ _ _) as [q n']. simpl in *.
  rewrite sortByDelay_perm. eapply Forall_impl; [exact Hc |].
  intros d [Hd Hcol]. apply list_elem_of_In, filter_In in Hd as [_ Hd].
  unfold hasSource in Hd. apply bool_decide_eq_true in Hd.
  rewrite Hd in Hcol. by split.
Qed.

Lemma spawnLoop_colors (c : string) (timer currentTime : Q) (todo : list ParticleData)
  (n : nat) :
  Forall (fun d => pd_color d = c) todo ->
  Forall (fun p => color p = lightenAndDesaturateColor c)
         (fst (spawnLoop timer currentTime todo n)).
Proof.
  intros Htodo. revert n. induction Htodo as [|d todo Hd _ IH]; intros n; simpl.
  - constructor.
  - destruct (Qle_bool (spawnDelay d) timer); [| constructor].
    specialize (IH (n + 5)%nat).
    destruct (spawnLoop timer currentTime todo (n + 5)) as [ps n']. simpl in *.
    constructor; [by rewrite Hd | exact IH].
Qed.

Lemma class_colors :
  Forall (fun c => subjectiveColor c <> "#95a5a6" /\
                   isHexColor (lightenAndDesaturateColor (subjectiveColor c)) = true)
         CLASS_ORDER.
Proof. repeat constructor; vm_compute; congruence. Qed.

(** What [Particle.draw] puts on the canvas when it draws. *)
Lemma Particle_draw_arc (p : Particle) (a : Arc) :
  Particle_draw p = Drawn a ->
  progress p < 1 /\ fillStyle a = color p /\ arc_radius a = size p /\
  globalAlpha a = opacity p * (1 - progress p * 0.3).
Proof.
  unfold Particle_draw, getPointAtProgress.
  destruct (Qle_bool 1 (progress p)) eqn:Hp; [discriminate |].
  apply Qle_bool_false in Hp.
  destruct (Qltb 0 _) eqn:E.
  - apply Qltb_true in E. rewrite !checkedDivide_positive by exact E. simpl.
    intros [= <-]. simpl. auto.
  - intros [= <-]. simpl. auto.
Qed.

(** The live particles of a reachable state have the tint of the active
    class. *)
Lemma reachable_tinted (data : list RawLink) (lp : Loop) :
  reachable data lp ->
  Forall (fun p => color p =
                   lightenAndDesaturateColor
                     (subjectiveColor (classAt (currentClassIndex (animationState lp)))))
         (particles (animationState lp)).
Proof.
  induction 1 as [n now year | lp n currentTime Hr IH].
  - destruct (startState_fields data n) as (_ & _ & _ & _ & _ & _ & _ & _ & Hp & _).
    simpl. rewrite Hp. constructor.
  - destruct (reachable_configured _ _ Hr) as [Ha _ _ _ _ _ [n0 Hq]].
    rewrite (animate_running lp n currentTime Ha). cbv zeta.
    destruct (_ && _); cbn [fst snd animationState particles currentClassIndex];
      [constructor |].
    apply (survivors_Forall _ _ _ _ (fun p Hp _ => Hp)).
    apply Forall_app. split; [exact IH |].
    apply spawnLoop_colors, Forall_drop. rewrite Hq.
    eapply Forall_impl; [apply prepare_colors |]. by intros d [_ Hd].
Qed.

(** X2.  In every reachable state the active class is one of the six of
    [CLASS_ORDER], so its colour is its entry of [SUBJECTIVE_COLORS], never
    the grey fallback; every entry of the spawn queue is on a link leaving
    the node of that class and has that colour; and every particle that is
    live or spawned by the next frame, and every circle that frame draws,
    has the one tint [lightenAndDesaturateColor] derives from it, which is a
    well-formed hex colour. *)
Theorem X2_particles_carry_the_tint_of_the_active_class (data : list RawLink)
  (lp : Loop) (n : nat) (currentTime : Q) :
  reachable data lp ->
  let st := animationState lp in
  let cls := classAt (currentClassIndex st) in
  let tint := lightenAndDesaturateColor (subjectiveColor cls) in
  let f := snd (animate lp n currentTime) in
  cls ∈ CLASS_ORDER /\ subjectiveColor cls <> "#95a5a6" /\ isHexColor tint = true /\
  Forall (fun d => sourceNameOf (nodes st) (pd_link d) = Some cls /\
                   pd_color d = subjectiveColor cls) (particlesToSpawn st) /\
  Forall (fun p => color p = tint) (particles st ++ spawned f) /\
  (forall a, Drawn a ∈ drawn f -> fillStyle a = tint).
Proof.
  intros Hr. cbv zeta.
  pose proof (reachable_tinted data lp Hr) as Hlive.
  destruct (reachable_configured _ _ Hr) as [Ha _ _ _ _ Hc [n0 Hq]].
  pose proof (classAt_In _ Hc) as Hin.
  pose proof class_colors as Hcols. rewrite Forall_forall in Hcols.
  destruct (Hcols _ Hin) as [Hgrey Hhex].
  assert (Hqueue : Forall (fun d => sourceNameOf (nodes (animationState lp)) (pd_link d) =
                                    Some (classAt (currentClassIndex (animationState lp))) /\
                                    pd_color d =
                                    subjectiveColor
                                      (classAt (currentClassIndex (animationState lp))))
                          (particlesToSpawn (animationState lp))).
  { rewrite Hq. apply prepare_colors. }
  assert (Hall : Forall (fun p => color p =
                    lightenAndDesaturateColor
                      (subjectiveColor (classAt (currentClassIndex (animationState lp)))))
                   (particles (animationState lp) ++
                    fst (spawnLoop (classTimer (animationState lp) +
                                    (currentTime - lastTime lp)) currentTime
                           (drop (spawnIndex (animationState lp))
                                 (particlesToSpawn (animationState lp))) n))).
  { apply Forall_app. split; [exact Hlive |].
    apply spawnLoop_colors, Forall_drop.
    eapply Forall_impl; [exact Hqueue |]. by intros d [_ Hd]. }
  repeat split; try assumption.
  - rewrite (animate_running lp n currentTime Ha). cbv zeta.
    apply Forall_app in Hall as [_ Hnew].
    apply Forall_app. split; [exact Hlive |].
    by destruct (_ && _).
  - intros a Hdrawn.
    assert (Hd : Drawn a ∈ List.map Particle_draw
                   (survivors (currentTime - lastTime lp)
                      (particles (animationState lp) ++
                       fst (spawnLoop (classTimer (animationState lp) +
                                       (currentTime - lastTime lp)) currentTime
                              (drop (spawnIndex (animationState lp))
                                    (particlesToSpawn (animationState lp))) n)))).
    { rewrite (animate_running lp n currentTime Ha) in Hdrawn. cbv zeta in Hdrawn.
      by destruct (_ && _). }
    apply list_elem_of_In, in_map_iff in Hd as (p & Hp & Hpin).
    apply Particle_draw_arc in Hp as (_ & -> & _).
    assert (Hsurv : Forall (fun p => color p =
                      lightenAndDesaturateColor
                        (subjectiveColor (classAt (currentClassIndex (animationState lp)))))
                      (survivors (currentTime - lastTime lp)
                         (particles (animationState lp) ++
                          fst (spawnLoop (classTimer (animationState lp) +
                                          (currentTime - lastTime lp)) currentTime
                                 (drop (spawnIndex (animationState lp))
                                       (particlesToSpawn (animationState lp))) n)))).
    { apply (survivors_Forall _ _ _ _ (fun p Hp _ => Hp)). exact Hall. }
    rewrite Forall_forall in Hsurv. by apply Hsurv, list_elem_of_In.
Qed.

(** ** What a particle looks like *)




(** ** The phase timer and the cycle of classes *)

(** One frame of a running loop: without a transition the timer grows by
    the time since the frame before and the class stays; a transition needs
    a timer of at least the three phase durations and moves to the next
    class of the cycle. *)
Lemma animate_timer (lp : Loop) (n : nat) (currentTime : Q) :
  isAnimating (animationState lp) = true ->
  let st := animationState lp in
  let st' := animationState (fst (fst (animate lp n currentTime))) in
  let f := snd (animate lp n currentTime) in
  match transition f with
  | None =>
      classTimer st' = classTimer st + (currentTime - lastTime lp) /\
      currentClassIndex st' = currentClassIndex st
  | Some tr =>
      2000 + particleDuration st + waitAfterParticles st <=
      classTimer st + (currentTime - lastTime lp) /\
      classTimer st' = 0 /\
      currentClassIndex st' = ((currentClassIndex st + 1) mod 6)%nat /\
      indicator tr = classAt (currentClassIndex st')
  end.
Proof.
  intros Ha. cbv zeta. rewrite (animate_running lp n currentTime Ha). cbv zeta.
  destruct (_ && _) eqn:Hdue; cbn [fst snd animationState transition classTimer
                                    currentClassIndex indicator].
  - apply andb_true_iff in Hdue as [_ Hdue]. apply Qle_bool_iff in Hdue.
    repeat split; try reflexivity. exact Hdue.
  - split; reflexivity.
Qed.


Lemma frames_nil (lp : Loop) (n : nat) : frames lp n [] = (lp, n, []).
Proof. reflexivity. Qed.


(** X6.  The categories are visited in the order of [CLASS_ORDER], round
    and round: over any run of frames the texts announced by the category
    changes are the classes that follow the current one, in order and
    cyclically, and the class index at the end is the index at the start
    plus the number of changes, modulo 6. *)
Theorem X6_classes_visited_in_cyclic_order (data : list RawLink) (times : list Q)
  (lp : Loop) (n : nat) :
  reachable data lp ->
  let i := currentClassIndex (animationState lp) in
  let changes := omap transition (snd (frames lp n times)) in
  List.map indicator changes =
  List.map (fun k => classAt ((i + k) mod 6)) (seq 1 (length changes)) /\
  currentClassIndex (animationState (fst (fst (frames lp n times)))) =
  ((i + length changes) mod 6)%nat.
Proof.
  revert lp n. induction times as [|t times IH]; intros lp n Hr; cbv zeta.
  - rewrite frames_nil. cbn [fst snd omap length seq List.map].
    split; [reflexivity |].
    destruct (reachable_configured _ _ Hr) as [_ _ _ _ _ Hc _].
    change (length CLASS_ORDER) with 6%nat in Hc.
    rewrite Nat.add_0_r, Nat.mod_small; [reflexivity | exact Hc].
  - rewrite frames_cons, frames_step.
    destruct (reachable_configured _ _ Hr) as [Ha _ _ _ _ Hc _].
    change (length CLASS_ORDER) with 6%nat in Hc.
    pose proof (animate_timer lp n t Ha) as Hstep. cbv zeta in Hstep.
    specialize (IH _ (snd (fst (animate lp n t))) (reachable_frame data lp n t Hr)).
    cbv zeta in IH.
    destruct IH as [IHmap IHidx]. rewrite IHidx. clear IHidx.
    set (fs := snd (frames (fst (fst (animate lp n t))) (snd (fst (animate lp n t)))
                      times)) in *.
    set (rest := omap transition fs) in *.
    assert (Hom : omap transition (snd (animate lp n t) :: fs) =
                  match transition (snd (animate lp n t)) with
                  | Some tr => tr :: rest
                  | None => rest
                  end) by reflexivity.
    rewrite Hom. clear Hom.
    destruct (transition (snd (animate lp n t))) as [tr|].
    + destruct Hstep as (_ & _ & Hidx & Hind).
      cbn [length seq List.map]. rewrite IHmap, Hind, Hidx. split.
      * f_equal.
        rewrite <- (seq_shift (length rest) 1), List.map_map. apply map_ext. intros k.
        f_equal. rewrite Nat.Div0.add_mod_idemp_l. f_equal. lia.
      * rewrite Nat.Div0.add_mod_idemp_l. f_equal. lia.
    + destruct Hstep as [_ Hidx]. rewrite IHmap, Hidx. split; reflexivity.
Qed.

(** ** How many particles are live *)

Lemma survivors_length (deltaTime : Q) (ps : list Particle) :
  (length (survivors deltaTime ps) <= length ps)%nat.
Proof.
  unfold survivors, updateAll. rewrite length_map.
  etransitivity; [apply List.filter_length_le |]. by rewrite length_map.
Qed.

(** The live particles are at most the entries spawned so far, and the
    cursor is inside the queue. *)
Lemma reachable_bounded (data : list RawLink) (lp : Loop) :
  reachable data lp ->
  (length (particles (animationState lp)) <= spawnIndex (animationState lp))%nat /\
  (spawnIndex (animationState lp) <= length (particlesToSpawn (animationState lp)))%nat.
Proof.
  induction 1 as [n now year | lp n currentTime Hr [IHp IHc]].
  - destruct (startState_fields data n) as (_ & _ & _ & _ & _ & _ & Hs & _ & Hp & _).
    simpl. rewrite Hs, Hp. simpl. lia.
  - destruct (reachable_configured _ _ Hr) as [Ha _ _ _ _ _ _].
    rewrite (animate_running lp n currentTime Ha). cbv zeta.
    set (st := animationState lp) in *.
    set (timer := classTimer st + (currentTime - lastTime lp)).
    set (todo := drop (spawnIndex st) (particlesToSpawn st)).
    destruct (spawnLoop_spec timer currentTime todo n) as (Hk & _).
    assert (Htodo : length todo = (length (particlesToSpawn st) - spawnIndex st)%nat)
      by apply length_drop.
    pose proof (survivors_length (currentTime - lastTime lp)
                  (particles st ++ fst (spawnLoop timer currentTime todo n))) as Hlen.
    rewrite length_app in Hlen.
    destruct (_ && _); cbn [fst snd animationState particles spawnIndex particlesToSpawn
                            length]; lia.
Qed.

(** X20.  The number of live particles is bounded by the data: in every
    reachable state there are at most as many live particles as entries
    spawned so far in the activation, which are at most the entries of the
    queue, and the queue has as many entries as the input has samples of the
    active class (link values being non-negative). *)
Theorem X20_live_particles_bounded_by_samples (data : list RawLink) (lp : Loop) :
  Forall (fun l => (0 <= raw_value l)%Z) data ->
  reachable data lp ->
  let st := animationState lp in
  (length (particles st) <= spawnIndex st)%nat /\
  (spawnIndex st <= length (particlesToSpawn st))%nat /\
  Z.of_nat (length (particlesToSpawn st)) =
  samplesOfClass data (classAt (currentClassIndex st)) /\
  (Z.of_nat (length (particles st)) <=
   samplesOfClass data (classAt (currentClassIndex st)))%Z.
Proof.
  intros Hv Hr. cbv zeta. destruct (reachable_bounded data lp Hr) as [Hp Hc].
  destruct (reachable_configured _ _ Hr) as [_ _ _ Hn Hl _ [n0 Hq]].
  assert (Hlen : Z.of_nat (length (particlesToSpawn (animationState lp))) =
                 samplesOfClass data (classAt (currentClassIndex (animationState lp)))).
  { rewrite Hq, prepare_length.
    - by apply totalSamples_data.
    - rewrite Hl. by apply makeLinks_values. }
  split; [exact Hp |]. split; [exact Hc |]. split; [exact Hlen |]. lia.
Qed.


End EngineProperties.
(** * The layout order, the summary lines and the percentages *)

(** ** indexOf *)

Lemma indexOfFrom_absent (array : list string) (x : string) (i : Z) :
  x ∉ array -> indexOfFrom array x i = (-1)%Z.
Proof.
  revert i. induction array as [|y array IH]; intros i Hx; simpl; [reflexivity |].
  apply not_elem_of_cons in Hx as [Hne Hx].
  destruct (String.eqb_spec y x) as [-> | _]; [congruence | by apply IH].
Qed.

Lemma indexOfFrom_lookup (array : list string) (x : string) (i : Z) (k : nat) :
  NoDup array -> array !! k = Some x -> indexOfFrom array x i = (i + Z.of_nat k)%Z.
Proof.
  revert i k. induction array as [|y array IH]; intros i k Hnd Hk; [by destruct k |].
  apply NoDup_cons in Hnd as [Hy Hnd]. simpl.
  destruct k as [|k]; simpl in Hk.
  - injection Hk as ->. rewrite String.eqb_refl. lia.
  - destruct (String.eqb_spec y x) as [-> | _].
    + exfalso. apply Hy. by eapply list_elem_of_lookup_2.
    + rewrite (IH (i + 1)%Z k Hnd Hk). lia.
Qed.

Lemma indexOf_absent (array : list string) (x : string) :
  x ∉ array -> indexOf array x = (-1)%Z.
Proof. apply indexOfFrom_absent. Qed.

Lemma indexOf_lookup (array : list string) (x : string) (k : nat) :
  NoDup array -> array !! k = Some x -> indexOf array x = Z.of_nat k.
Proof. intros Hnd Hk. unfold indexOf. by rewrite (indexOfFrom_lookup _ _ _ _ Hnd Hk). Qed.

Lemma indexOf_present (array : list string) (x : string) :
  x ∈ array -> (0 <= indexOf array x)%Z.
Proof.
  unfold indexOf. assert (Hgen : forall i, x ∈ array -> (i <= indexOfFrom array x i)%Z).
  { induction array as [|y array IH]; intros i Hx; [by apply elem_of_nil in Hx |].
    simpl. destruct (String.eqb_spec y x) as [-> | Hne]; [lia |].
    apply elem_of_cons in Hx as [-> | Hx]; [congruence |].
    specialize (IH (i + 1)%Z Hx). lia. }
  apply Hgen.
Qed.

Lemma indexOf_lower (array : list string) (x : string) : (-1 <= indexOf array x)%Z.
Proof.
  unfold indexOf. assert (Hgen : forall i, (0 <= i -> -1 <= indexOfFrom array x i)%Z).
  { induction array as [|y array IH]; intros i Hi; simpl; [lia |].
    destruct (String.eqb y x); [lia | apply IH; lia]. }
  apply Hgen. lia.
Qed.

Lemma indexOf_inj (array : list string) (x y : string) :
  NoDup array -> x ∈ array -> y ∈ array -> indexOf array x = indexOf array y -> x = y.
Proof.
  intros Hnd Hx Hy. apply list_elem_of_lookup in Hx as [k Hk].
  apply list_elem_of_lookup in Hy as [j Hj].
  rewrite (indexOf_lookup _ _ _ Hnd Hk), (indexOf_lookup _ _ _ Hnd Hj).
  intros Heq. apply Nat2Z.inj in Heq. subst. congruence.
Qed.

Lemma CLASS_ORDER_NoDup : NoDup CLASS_ORDER.
Proof. apply (bool_decide_unpack _). by vm_compute. Qed.

Lemma subjectiveOrder_NoDup : NoDup subjectiveOrder.
Proof. apply (bool_decide_unpack _). by vm_compute. Qed.

Lemma objectiveOrder_NoDup : NoDup objectiveOrder.
Proof. apply (bool_decide_unpack _). by vm_compute. Qed.

(** ** The comparator of nodeSort *)

(** X7.  On nodes named in the two arrays the comparator is the order of
    the concatenated arrays: its sign is the comparison of the positions of
    the two names in the subjective array followed by the objective array
    (subjective classes first, each group in its own order, 0 only for the
    same name), and swapping the arguments negates the result. *)
Theorem X7_nodeSort_orders_known_names (a b : Node) :
  name a ∈ subjectiveOrder ++ objectiveOrder ->
  name b ∈ subjectiveOrder ++ objectiveOrder ->
  let rank := indexOf (subjectiveOrder ++ objectiveOrder) in
  (nodeSort a b ?= 0)%Z = (rank (name a) ?= rank (name b))%Z /\
  nodeSort b a = (- nodeSort a b)%Z /\
  (nodeSort a b = 0%Z -> name a = name b).
Proof.
  destruct a as [na ia], b as [nb ib]. cbn [name]. intros Ha Hb.
  repeat (apply elem_of_cons in Ha as [-> | Ha]);
    [.. | by apply elem_of_nil in Ha];
    repeat (apply elem_of_cons in Hb as [-> | Hb]);
    try (by apply elem_of_nil in Hb);
    vm_compute; (split; [reflexivity |]); (split; [reflexivity |]);
    first [reflexivity | discriminate].
Qed.

(** X8.  A node whose name is in neither array is put after every
    subjective node (1, and -1 the other way round) and compares equal (0)
    to every other node, objective or unknown, whichever way round, although
    the objective nodes are strictly ordered among themselves. *)
Theorem X8_nodeSort_unknown_names (a b : Node) :
  name a ∉ subjectiveOrder ++ objectiveOrder ->
  (name b ∈ subjectiveOrder -> nodeSort a b = 1%Z /\ nodeSort b a = (-1)%Z) /\
  (name b ∉ subjectiveOrder -> nodeSort a b = 0%Z /\ nodeSort b a = 0%Z) /\
  (forall c : Node, name b ∈ objectiveOrder -> name c ∈ objectiveOrder ->
                    name b <> name c -> nodeSort b c <> 0%Z).
Proof.
  intros Ha. apply not_elem_of_app in Ha as [Has Hao].
  pose proof (indexOf_absent _ _ Has) as Hs. pose proof (indexOf_absent _ _ Hao) as Ho.
  split; [| split].
  - intros Hb. unfold nodeSort. rewrite Hs, Ho.
    assert (Hbs : (indexOf subjectiveOrder (name b) =? -1)%Z = false).
    { apply Z.eqb_neq.
      pose proof (indexOf_present _ _ Hb). lia. }
    rewrite Hbs. simpl. rewrite andb_false_r. split; reflexivity.
  - intros Hb. unfold nodeSort. rewrite Hs, Ho, (indexOf_absent _ _ Hb). simpl.
    rewrite andb_false_r. split; reflexivity.
  - intros c Hb Hc Hne. destruct b as [nb ib], c as [nc ic]. cbn [name] in *.
    repeat (apply elem_of_cons in Hb as [-> | Hb]);
      [.. | by apply elem_of_nil in Hb];
      repeat (apply elem_of_cons in Hc as [-> | Hc]);
      try (by apply elem_of_nil in Hc);
      try congruence; vm_compute; discriminate.
Qed.

(** ** The summary lines *)

(** Ascending position of the key in [order]. *)
Lemma insertEntry_perm (order : list string) (a : string * Z) (sorted : list (string * Z)) :
  insertEntry order a sorted ≡ₚ a :: sorted.
Proof.
  induction sorted as [|b sorted IH]; simpl; [reflexivity |].
  destruct (compareEntries order a b <=? 0)%Z; [reflexivity |].
  rewrite IH. apply Permutation_swap.
Qed.

Lemma sortEntries_perm (order : list string) (entries : list (string * Z)) :
  sortEntries order entries ≡ₚ entries.
Proof.
  induction entries as [|a entries IH]; simpl; [reflexivity |].
  rewrite insertEntry_perm. by rewrite IH.
Qed.

Lemma insertEntry_sorted (order : list string) (a : string * Z)
  (sorted : list (string * Z)) :
  StronglySorted (fun x y => (indexOf order (fst x) <= indexOf order (fst y))%Z) sorted ->
  StronglySorted (fun x y => (indexOf order (fst x) <= indexOf order (fst y))%Z)
    (insertEntry order a sorted).
Proof.
  induction sorted as [|b sorted IH]; simpl; intros Hs.
  - repeat constructor.
  - apply StronglySorted_cons in Hs as [Hb Hs]. unfold compareEntries.
    destruct (_ <=? 0)%Z eqn:Hab.
    + apply Z.leb_le in Hab. constructor; [by constructor |].
      constructor; [lia |]. eapply Forall_impl; [exact Hb |]. intros x Hx. simpl in *. lia.
    + apply Z.leb_gt in Hab. constructor; [by apply IH |].
      rewrite insertEntry_perm. constructor; [lia | exact Hb].
Qed.

Lemma sortEntries_sorted (order : list string) (entries : list (string * Z)) :
  StronglySorted (fun x y => (indexOf order (fst x) <= indexOf order (fst y))%Z)
    (sortEntries order entries).
Proof.
  induction entries as [|a entries IH]; simpl; [constructor | by apply insertEntry_sorted].
Qed.

(** An entry whose key is in [order] passes the entries whose keys are
    not. *)
Lemma insertEntry_after_unknown (order : list string) (a : string * Z)
  (unknown known : list (string * Z)) :
  (0 <= indexOf order (fst a))%Z ->
  Forall (fun e => indexOf order (fst e) = (-1)%Z) unknown ->
  insertEntry order a (unknown ++ known) = unknown ++ insertEntry order a known.
Proof.
  intros Ha. induction 1 as [|e unknown He _ IH]; simpl; [reflexivity |].
  unfold compareEntries at 1. rewrite He.
  destruct (_ <=? 0)%Z eqn:Hle; [apply Z.leb_le in Hle; lia |]. by rewrite IH.
Qed.

(** An entry whose key is not in [order] goes to the front. *)
Lemma insertEntry_unknown_front (order : list string) (a : string * Z)
  (sorted : list (string * Z)) :
  indexOf order (fst a) = (-1)%Z -> insertEntry order a sorted = a :: sorted.
Proof.
  intros Ha. destruct sorted as [|b rest]; [reflexivity |].
  cbn [insertEntry]. unfold compareEntries. rewrite Ha.
  pose proof (indexOf_lower order (fst b)).
  destruct (_ <=? 0)%Z eqn:Hle; [reflexivity | apply Z.leb_gt in Hle; lia].
Qed.

Lemma StronglySorted_lookups {A} (R : relation A) (l : list A) :
  (forall i j x y, (i < j)%nat -> l !! i = Some x -> l !! j = Some y -> R x y) ->
  StronglySorted R l.
Proof.
  induction l as [|x l IH]; intros Hl; constructor.
  - apply IH. intros i j y z Hij Hi Hj. apply (Hl (S i) (S j)); [lia | done | done].
  - apply Forall_lookup. intros j y Hj. apply (Hl 0%nat (S j)); [lia | done | done].
Qed.

Lemma StronglySorted_filter {A} (R : relation A) (f : A -> bool) (l : list A) :
  StronglySorted R l -> StronglySorted R (List.filter f l).
Proof.
  induction 1 as [|x l _ IH Hx]; simpl; [constructor |].
  destruct (f x); [| exact IH]. constructor; [exact IH |].
  rewrite Forall_forall in *. intros y Hy. apply Hx.
  apply list_elem_of_In. apply list_elem_of_In, filter_In in Hy. tauto.
Qed.

(** X9.  A summary line lists the classes in the order of the [order]
    array: when the keys of the summary object (distinct, as the keys of an
    object are) all occur in [order], the sorted entries are the same
    entries, and their keys are exactly the elements of [order] that are
    keys, in the order of [order]. *)
Theorem X9_summary_line_in_class_order (order : list string)
  (entries : list (string * Z)) :
  NoDup order -> NoDup (List.map fst entries) ->
  (forall e, e ∈ entries -> fst e ∈ order) ->
  sortEntries order entries ≡ₚ entries /\
  List.map fst (sortEntries order entries) =
  List.filter (fun c => bool_decide (c ∈ List.map fst entries)) order.
Proof.
  intros Hord Hkeys Hin. split; [apply sortEntries_perm |].
  assert (Hperm : List.map fst (sortEntries order entries) ≡ₚ List.map fst entries).
  { apply Permutation_map, sortEntries_perm. }
  assert (Hmem : forall x, x ∈ List.map fst entries -> x ∈ order).
  { intros x Hx. apply list_elem_of_In, in_map_iff in Hx as (e & <- & He).
    by apply Hin, list_elem_of_In. }
  apply (StronglySorted_unique_strong
           (fun x y => (indexOf order x <= indexOf order y)%Z)).
  - intros x y Hx Hy Hxy Hyx. apply (indexOf_inj order); [done | | | lia].
    + apply Hmem. by rewrite <- Hperm.
    + apply list_elem_of_In, filter_In in Hy as [Hy _]. by apply list_elem_of_In.
  - change (List.map fst (sortEntries order entries))
      with (fst <$> sortEntries order entries).
    eapply StronglySorted_fmap with
      (R1 := fun x y : string * Z => (indexOf order (fst x) <= indexOf order (fst y))%Z).
    + auto.
    + apply sortEntries_sorted.
  - apply StronglySorted_filter, StronglySorted_lookups.
    intros i j x y Hij Hi Hj.
    rewrite (indexOf_lookup _ _ _ Hord Hi), (indexOf_lookup _ _ _ Hord Hj). lia.
  - apply NoDup_Permutation.
    + by rewrite Hperm.
    + by apply NoDup_ListNoDup, List.NoDup_filter, NoDup_ListNoDup.
    + intros x. rewrite Hperm. split.
      * intros Hx. apply list_elem_of_In, filter_In. split.
        -- by apply list_elem_of_In, Hmem.
        -- by apply bool_decide_eq_true.
      * intros Hx. apply list_elem_of_In, filter_In in Hx as [_ Hx].
        by apply bool_decide_eq_true in Hx.
Qed.

(** X10.  Keys that are not in the [order] array do not make the sort
    fail: their entries come first, in the order the summary object has
    them, followed by the sorted entries of the other keys; no entry is
    dropped. *)
Theorem X10_summary_line_unknown_keys_first (order : list string)
  (entries : list (string * Z)) :
  let known := fun e : string * Z => bool_decide (fst e ∈ order) in
  sortEntries order entries =
  List.filter (fun e => negb (known e)) entries ++
  sortEntries order (List.filter known entries).
Proof.
  cbv zeta. induction entries as [|a entries IH]; [reflexivity |].
  cbn [sortEntries foldr List.filter]. fold (sortEntries order entries). rewrite IH.
  case_bool_decide as Ha; cbn [negb].
  - cbn [foldr]. fold (sortEntries order (List.filter
        (fun e : string * Z => bool_decide (fst e ∈ order)) entries)).
    apply insertEntry_after_unknown; [by apply indexOf_present |].
    apply Forall_forall. intros e He. apply list_elem_of_In, filter_In in He as [_ He].
    apply negb_true_iff, bool_decide_eq_false in He. by apply indexOf_absent.
  - apply insertEntry_unknown_front. by apply indexOf_absent.
Qed.

(** ** Percentages *)

Ltac qtenths :=
  unfold Qdiv in *;
  change (/ 2) with (1 # 2) in *; change (/ 10) with (1 # 10) in *;
  change (/ 20) with (1 # 20) in *.

Lemma tenths_nearest (x : Q) :
  0 <= x -> x <= 100 + 1 / 100 ->
  (0 <= tenths x <= 1000)%Z /\
  x - 1 / 20 <= inject_Z (tenths x) / 10 /\ inject_Z (tenths x) / 10 <= x + 1 / 20.
Proof.
  intros H0 H100. unfold tenths.
  pose proof (Qfloor_le (x * 10 + 1 / 2)) as Hle.
  pose proof (Qlt_floor (x * 10 + 1 / 2)) as Hlt.
  rewrite inject_Z_plus in Hlt. change (inject_Z 1) with 1 in Hlt.
  split; [| qtenths; split; lra].
  assert (H1 : inject_Z (-1) < inject_Z (Qfloor (x * 10 + 1 / 2))).
  { change (inject_Z (-1)) with (-1). qtenths. lra. }
  assert (H2 : inject_Z (Qfloor (x * 10 + 1 / 2)) < inject_Z 1001).
  { change (inject_Z 1001) with 1001. qtenths. change (/ 100) with (1 # 100) in *. lra. }
  rewrite <- Zlt_Qlt in H1, H2. lia.
Qed.

(** The double the percentage is printed from: the quotient and the
    product are each rounded, which moves the value by less than 10^-13. *)
Lemma percentage_double (count total : Z) :
  (0 < total)%Z -> (0 <= count <= total)%Z ->
  let exact := inject_Z count / inject_Z total * 100 in
  let printed := binary64 (binary64 (inject_Z count / inject_Z total) * 100) in
  0 <= exact /\ exact <= 100 /\ 0 <= printed /\
  exact - (1 # 10000000000000) <= printed /\ printed <= exact + (1 # 10000000000000).
Proof.
  intros Htotal Hcount. cbv zeta.
  assert (Ht : 0 < inject_Z total) by (change 0 with (inject_Z 0); by rewrite <- Zlt_Qlt).
  assert (Hc0 : 0 <= inject_Z count) by (change 0 with (inject_Z 0); rewrite <- Zle_Qle; lia).
  assert (Hct : inject_Z count <= inject_Z total) by (rewrite <- Zle_Qle; lia).
  assert (Hq0 : 0 <= inject_Z count / inject_Z total).
  { apply Qle_shift_div_l; [exact Ht | lra]. }
  assert (Hq1 : inject_Z count / inject_Z total <= 1).
  { apply Qle_shift_div_r; [exact Ht | lra]. }
  set (q := inject_Z count / inject_Z total) in *.
  destruct (binary64_nonneg q Hq0) as [Hf1 Hf2].
  change unitRoundoff with (1 # 9007199254740992) in Hf1, Hf2.
  assert (Hf0 : 0 <= binary64 q * 100) by lra.
  destruct (binary64_nonneg (binary64 q * 100) Hf0) as [Hp1 Hp2].
  change unitRoundoff with (1 # 9007199254740992) in Hp1, Hp2.
  repeat split; lra.
Qed.

(** X11.  The percentage printed for a count out of a positive total, the
    count being between 0 and the total: the quotient and its product with
    100 are doubles, within 10^-13 of the percentage itself, and
    [toFixed(1)] writes the integer number of tenths nearest to that double,
    as its quotient by 10, a point and its last digit.  That number is
    between 0 and 1000, and the printed value differs from the percentage
    by at most 0.05 (and the 10^-13 of the double): a percentage half way
    between two tenths is printed as either, as the double falls. *)
Theorem X11_percentage_within_a_twentieth (count total : Z) :
  (0 < total)%Z -> (0 <= count <= total)%Z ->
  let exact := inject_Z count / inject_Z total * 100 in
  let printed := binary64 (binary64 (inject_Z count / inject_Z total) * 100) in
  exists n : Z,
    percentText count total =
      numberToString (n / 10) +:+ "." +:+ numberToString (n mod 10) /\
    n = tenths printed /\
    (0 <= n <= 1000)%Z /\
    (printed - 1 / 20 <= inject_Z n / 10 /\ inject_Z n / 10 <= printed + 1 / 20) /\
    (exact - (1 # 10000000000000) <= printed /\ printed <= exact + (1 # 10000000000000)) /\
    exact - 1 / 20 - (1 # 10000000000000) <= inject_Z n / 10 /\
    inject_Z n / 10 <= exact + 1 / 20 + (1 # 10000000000000).
Proof.
  intros Htotal Hcount. cbv zeta.
  destruct (percentage_double count total Htotal Hcount) as (He0 & He100 & Hp0 & Hp1 & Hp2).
  cbv zeta in *.
  set (printed := binary64 (binary64 (inject_Z count / inject_Z total) * 100)) in *.
  exists (tenths printed).
  assert (Ht : 0 < inject_Z total) by (change 0 with (inject_Z 0); by rewrite <- Zlt_Qlt).
  destruct (tenths_nearest printed Hp0) as (Hn & Hn1 & Hn2).
  { qtenths. change (/ 100) with (1 # 100). lra. }
  split.
  - unfold percentText, jsDivide.
    assert (Qeq_bool (inject_Z total) 0 = false) as ->.
    { apply Qeq_bool_false. lra. }
    cbn [jsScale toFixed1]. fold printed.
    assert (Qltb printed 0 = false) as ->.
    { apply Qltb_false. lra. }
    reflexivity.
  - split; [reflexivity |]. split; [exact Hn |].
    qtenths. repeat split; lra.
Qed.

(** ** Greys *)

Lemma greys_checked :
  forallb (fun v =>
    match parseChannels (hexOfRgb (hslToRgb (adjustHsl (rgbToHsl v v v)))) with
    | Some (r, g, b) =>
        (r =? g)%Z && (g =? b)%Z &&
        (if (v <=? 229)%Z then (v + 25 <=? r)%Z && (r <=? v + 26)%Z else (r =? 255)%Z)
    | None => false
    end) (List.map Z.of_nat (seq 0 256)) = true.
Proof. vm_compute. reflexivity. Qed.

(** X12.  A grey stays a grey and gets lighter: for a colour whose three
    channels are the same value v (0..255, saturation 0) the result has
    three equal channels again, 25 or 26 above v when v is at most 229 (a
    tenth of the lightness range) and 255 from 230 on. *)
Theorem X12_grey_stays_grey_and_lightens (hexColor : string) (v : Z) :
  parseChannels hexColor = Some (v, v, v) -> (0 <= v <= 255)%Z ->
  exists v' : Z,
    parseChannels (lightenAndDesaturateColor hexColor) = Some (v', v', v') /\
    ((v <= 229)%Z -> (v + 25 <= v' <= v + 26)%Z) /\
    ((230 <= v)%Z -> v' = 255%Z).
Proof.
  intros Hc Hv. unfold lightenAndDesaturateColor. rewrite Hc. cbv beta iota.
  pose proof greys_checked as H. rewrite forallb_forall in H.
  specialize (H v). cbv beta in H.
  destruct (parseChannels (hexOfRgb (hslToRgb (adjustHsl (rgbToHsl v v v)))))
    as [[[r g] b]|].
  - assert (Hin : In v (List.map Z.of_nat (seq 0 256))).
    { apply in_map_iff. exists (Z.to_nat v). split; [lia |]. apply in_seq. lia. }
    specialize (H Hin). cbv beta iota in H.
    apply andb_true_iff in H as [H Hr]. apply andb_true_iff in H as [Hrg Hgb].
    apply Z.eqb_eq in Hrg, Hgb. subst g b. exists r. split; [reflexivity |].
    destruct (v <=? 229)%Z eqn:E'.
    + apply andb_true_iff in Hr as [H1 H2]. apply Z.leb_le in H1, H2, E'.
      split; [lia | lia].
    + apply Z.eqb_eq in Hr. apply Z.leb_gt in E'. split; lia.
  - exfalso. enough (false = true) by discriminate. apply H.
    apply in_map_iff. exists (Z.to_nat v). split; [lia |]. apply in_seq. lia.
Qed.
(** * The page *)

(** ** Class lists *)

Lemma contains_add (c d : string) (e : Element) :
  contains c (classList_add d e) = true <-> contains c e = true \/ c = d.
Proof.
  unfold classList_add. destruct (contains d e) eqn:Hd.
  - split; [auto | intros [Hc | ->]; assumption].
  - unfold contains. simpl. rewrite !bool_decide_eq_true, elem_of_app, list_elem_of_singleton.
    tauto.
Qed.

Lemma contains_remove (c d : string) (e : Element) :
  contains c (classList_remove d e) = true <-> contains c e = true /\ c <> d.
Proof.
  unfold classList_remove, contains. simpl. rewrite !bool_decide_eq_true.
  rewrite list_elem_of_In, filter_In, <- list_elem_of_In, negb_true_iff.
  split; intros [Hc Hd]; (split; [exact Hc |]).
  - intros ->. by rewrite String.eqb_refl in Hd.
  - by apply String.eqb_neq.
Qed.

Lemma classList_add_fields (c : string) (e : Element) :
  el_id (classList_add c e) = el_id e /\ dataPanel (classList_add c e) = dataPanel e /\
  innerHTML (classList_add c e) = innerHTML e /\
  styleLeft (classList_add c e) = styleLeft e /\ styleTop (classList_add c e) = styleTop e.
Proof. unfold classList_add. by destruct (contains c e). Qed.

Lemma contains_add_other (c d : string) (e : Element) :
  c <> d -> contains c (classList_add d e) = contains c e.
Proof.
  intros Hne. apply eq_true_iff_eq. rewrite contains_add. tauto.
Qed.

Lemma contains_remove_other (c d : string) (e : Element) :
  c <> d -> contains c (classList_remove d e) = contains c e.
Proof.
  intros Hne. apply eq_true_iff_eq. rewrite contains_remove. tauto.
Qed.

Lemma map_alter_same {A B} (g : A -> B) (f : A -> A) (i : nat) (l : list A) :
  (forall x, g (f x) = g x) -> List.map g (alter f i l) = List.map g l.
Proof.
  intros Hf. revert i. induction l as [|x l IH]; intros [|i]; simpl; try reflexivity.
  - by rewrite Hf.
  - f_equal. apply IH.
Qed.

Lemma map_forEach_same {B} (g : Element -> B) (c : string) (f : Element -> Element)
  (doc : list Element) :
  (forall e, g (f e) = g e) -> List.map g (forEachOfClass c f doc) = List.map g doc.
Proof.
  intros Hf. unfold forEachOfClass. rewrite List.map_map. apply map_ext.
  intros e. by destruct (contains c e).
Qed.

Lemma lookup_map_same {A B} (g : A -> B) (l l' : list A) (j : nat) (x' : A) :
  List.map g l' = List.map g l -> l' !! j = Some x' ->
  exists x, l !! j = Some x /\ g x' = g x.
Proof.
  intros Hmap Hj.
  assert (Hg : (g <$> l') !! j = Some (g x')) by (by rewrite list_lookup_fmap, Hj).
  change (g <$> l') with (List.map g l') in Hg. rewrite Hmap in Hg.
  change (List.map g l) with (g <$> l) in Hg. rewrite list_lookup_fmap in Hg.
  destruct (l !! j) as [x|]; [| discriminate]. injection Hg as Hg. eauto.
Qed.

Lemma find_map_same {A B} (g : A -> B) (P : A -> Prop) (Q : B -> Prop)
  `{!forall x, Decision (P x)} `{!forall y, Decision (Q y)} (l l' : list A) :
  (forall x, P x <-> Q (g x)) -> List.map g l' = List.map g l ->
  fst <$> list_find P l' = fst <$> list_find P l.
Proof.
  intros HPQ. revert l'. induction l as [|x l IH]; intros [|x' l'] Hmap;
    try discriminate; [reflexivity |].
  simpl in Hmap. injection Hmap as Hx Hmap. cbn [list_find].
  destruct (decide (P x')) as [Hp' | Hp'], (decide (P x)) as [Hp | Hp];
    try reflexivity.
  - exfalso. apply Hp, HPQ. rewrite <- Hx. by apply HPQ.
  - exfalso. apply Hp', HPQ. rewrite Hx. by apply HPQ.
  - specialize (IH l' Hmap).
    destruct (list_find P l') as [[? ?]|], (list_find P l) as [[? ?]|];
      simpl in *; congruence.
Qed.

Lemma getElementById_same (doc doc' : list Element) (id : string) :
  List.map el_id doc' = List.map el_id doc ->
  getElementById doc' id = getElementById doc id.
Proof.
  intros Hmap. unfold getElementById.
  by apply (find_map_same el_id _ (fun x => x = Some id)).
Qed.

Lemma querySelector_same (doc doc' : list Element) (c : string) :
  List.map (contains c) doc' = List.map (contains c) doc ->
  querySelector doc' c = querySelector doc c.
Proof.
  intros Hmap. unfold querySelector.
  apply (find_map_same (contains c) _ (fun b => b = true)); [| exact Hmap].
  intros e. unfold contains. by rewrite bool_decide_eq_true.
Qed.

Lemma getElementById_Some (doc : list Element) (id : string) (i : nat) :
  getElementById doc id = Some i ->
  exists e, doc !! i = Some e /\ el_id e = Some id.
Proof.
  unfold getElementById. destruct (list_find _ doc) as [[j e]|] eqn:E; [| discriminate].
  simpl. intros [= <-]. apply list_find_Some in E as (Hj & He & _). eauto.
Qed.

Lemma querySelector_Some (doc : list Element) (c : string) (i : nat) :
  querySelector doc c = Some i ->
  exists e, doc !! i = Some e /\ contains c e = true /\
            forall j e', doc !! j = Some e' -> (j < i)%nat -> contains c e' = false.
Proof.
  unfold querySelector. destruct (list_find _ doc) as [[j e]|] eqn:E; [| discriminate].
  simpl. intros [= <-]. apply list_find_Some in E as (Hj & He & Hfirst).
  exists e. split; [exact Hj |]. split; [by apply bool_decide_eq_true |].
  intros k e' Hk Hlt. apply bool_decide_eq_false. by eapply Hfirst.
Qed.

Lemma querySelector_None (doc : list Element) (c : string) :
  querySelector doc c = None -> Forall (fun e => contains c e = false) doc.
Proof.
  unfold querySelector. destruct (list_find _ doc) as [[j e]|] eqn:E; [discriminate |].
  intros _. apply list_find_None in E. eapply Forall_impl; [exact E |].
  intros e He. by apply bool_decide_eq_false.
Qed.

(** ** What the handlers leave alone *)

Lemma keptByNavigation_id : keptByNavigation el_id.
Proof.
  split; [reflexivity |]. split; intros e; [| reflexivity].
  unfold classList_add. by destruct (contains "active" e).
Qed.

Lemma keptByNavigation_dataPanel : keptByNavigation dataPanel.
Proof.
  split; [reflexivity |]. split; intros e; [| reflexivity].
  unfold classList_add. by destruct (contains "active" e).
Qed.

Lemma keptByNavigation_contains (c : string) :
  c <> "active" -> keptByNavigation (contains c).
Proof.
  intros Hc. split; [reflexivity |].
  split; intros e; [by apply contains_add_other | by apply contains_remove_other].
Qed.

Lemma load_kept {B} (g : Element -> B) (year : string) (s : Site) :
  (forall html e, g (setInnerHTML html e) = g e) ->
  List.map g (document (loadAnimatedSankeyDiagram year s)) = List.map g (document s).
Proof.
  intros Hinner. unfold loadAnimatedSankeyDiagram.
  destruct (getElementById (document s) _); [| reflexivity].
  simpl. by apply map_alter_same.
Qed.

Lemma initializePanelContent_kept {B} (g : Element -> B) (sc : Scripts)
  (panelId : string) (s : Site) :
  (forall html e, g (setInnerHTML html e) = g e) ->
  List.map g (document (initializePanelContent sc panelId s)) = List.map g (document s).
Proof.
  intros Hg. unfold initializePanelContent.
  destruct (String.eqb panelId "geographical").
  { by destruct (_ && _). }
  case_bool_decide.
  { destruct (hasLoadAnimatedSankeyDiagram sc); [| reflexivity].
    destruct (negb _); [| reflexivity].
    cbn [document]. by rewrite load_kept. }
  destruct (String.eqb panelId "heatmap").
  { destruct (_ && _); [reflexivity |]. by destruct (heatmapInitialized s). }
  destruct (String.eqb panelId "comparison"); [| reflexivity].
  by destruct (_ && _).
Qed.

Lemma showPanel_kept {B} (g : Element -> B) (sc : Scripts) (panelId : string) (s : Site) :
  keptByNavigation g ->
  List.map g (document (showPanel sc panelId s)) = List.map g (document s).
Proof.
  intros Hg. pose proof Hg as (Hinner & Hadd & Hrem). unfold showPanel.
  destruct (getElementById _ panelId).
  - rewrite initializePanelContent_kept by exact Hinner. cbn [setDocument document].
    rewrite map_alter_same by exact Hadd. by apply map_forEach_same.
  - cbn [logConsole setDocument document]. by apply map_forEach_same.
Qed.

Lemma onHashChange_kept {B} (g : Element -> B) (sc : Scripts) (hash : string) (s : Site) :
  keptByNavigation g ->
  List.map g (document (onHashChange sc hash s)) = List.map g (document s).
Proof.
  intros Hg. pose proof Hg as (_ & Hadd & Hrem). unfold onHashChange.
  cbn [setDocument document]. unfold updateActiveNavLinkById.
  rewrite map_forEach_same; [by apply showPanel_kept |].
  intros e. case_bool_decide; [by rewrite Hadd, Hrem | by rewrite Hrem].
Qed.

Lemma count_map_same {A} (g : A -> bool) (l l' : list A) :
  List.map g l' = List.map g l ->
  length (List.filter g l') = length (List.filter g l).
Proof.
  revert l'. induction l as [|x l IH]; intros [|x' l'] Hmap; try discriminate;
    [reflexivity |].
  simpl in Hmap. injection Hmap as Hx Hmap. simpl. rewrite Hx.
  destruct (g x); simpl; by rewrite (IH l' Hmap).
Qed.

(** ** The tooltip *)

Lemma showTooltip_spec (content : string) (x y : Q) (doc : list Element) :
  let doc' := showTooltip content x y doc in
  let i := default (length doc) (querySelector doc "tooltip") in
  (length doc' = match querySelector doc "tooltip" with
                 | Some _ => length doc
                 | None => S (length doc)
                 end) /\
  (forall j, j <> i -> doc' !! j = doc !! j) /\
  exists e, doc' !! i = Some e /\ contains "tooltip" e = true /\
            innerHTML e = content /\ styleLeft e = Some (x + 10) /\
            styleTop e = Some (y - 10) /\ contains "visible" e = true.
Proof.
  cbv zeta. unfold showTooltip, createTooltip.
  destruct (querySelector doc "tooltip") as [i|] eqn:Hq; cbn [default].
  - apply querySelector_Some in Hq as (e & Hi & He & _).
    split; [apply length_alter |].
    split; [intros j Hj; by apply list_lookup_alter_ne |].
    rewrite list_lookup_alter_eq, Hi. simpl. eexists. split; [reflexivity |].
    split; [| split; [| split; [| split]]].
    + rewrite contains_add_other; [exact He | discriminate].
    + apply classList_add_fields.
    + apply classList_add_fields.
    + apply classList_add_fields.
    + apply contains_add. by right.
  - split; [rewrite length_alter, length_app; simpl; lia |].
    split.
    + intros j Hj. rewrite list_lookup_alter_ne by congruence.
      destruct (decide (j < length doc)%nat).
      * by rewrite lookup_app_l.
      * rewrite !lookup_ge_None_2; [reflexivity | lia | rewrite length_app; simpl; lia].
    + rewrite list_lookup_alter_eq, lookup_app_r, Nat.sub_diag by lia. simpl.
      eexists. split; [reflexivity |]. by vm_compute.
Qed.

Lemma querySelector_intro (doc : list Element) (c : string) (i : nat) (e : Element) :
  doc !! i = Some e -> contains c e = true ->
  (forall j e', doc !! j = Some e' -> (j < i)%nat -> contains c e' = false) ->
  querySelector doc c = Some i.
Proof.
  intros Hi He Hfirst. unfold querySelector.
  assert (Hfind : list_find (fun e => c ∈ classList e) doc = Some (i, e)).
  { apply list_find_Some. split; [exact Hi |].
    split; [by apply bool_decide_eq_true in He |].
    intros j e' Hj Hlt. specialize (Hfirst j e' Hj Hlt).
    by apply bool_decide_eq_false in Hfirst. }
  by rewrite Hfind.
Qed.

Lemma showTooltip_first (content : string) (x y : Q) (doc : list Element) :
  querySelector (showTooltip content x y doc) "tooltip" =
  Some (default (length doc) (querySelector doc "tooltip")).
Proof.
  destruct (showTooltip_spec content x y doc) as (_ & Hother & e & Hi & He & _).
  eapply querySelector_intro; [exact Hi | exact He |].
  intros j e' Hj Hlt. rewrite Hother in Hj by lia.
  destruct (querySelector doc "tooltip") as [i|] eqn:Hq; cbn [default] in *.
  - apply querySelector_Some in Hq as (_ & _ & _ & Hfirst). by eapply Hfirst.
  - apply querySelector_None in Hq. rewrite Forall_forall in Hq.
    eapply Hq, list_elem_of_lookup_2, Hj.
Qed.

(** X13.  Showing the tooltip writes the content and the position (10 px
    right of and 10 px above the pointer) into the first element of class
    [tooltip], which is created at the end of the document if there is none,
    and makes it visible; hiding it afterwards only takes the class
    [visible] away: content and position stay, and every other element is as
    it was before the two calls.  Hiding when no tooltip element exists
    changes nothing and creates none. *)
Theorem X13_tooltip_show_then_hide (content : string) (x y : Q) (doc : list Element) :
  let shown := showTooltip content x y doc in
  let hidden := hideTooltip shown in
  let i := default (length doc) (querySelector doc "tooltip") in
  (exists e e' : Element,
     querySelector shown "tooltip" = Some i /\
     shown !! i = Some e /\ hidden !! i = Some e' /\
     innerHTML e = content /\ styleLeft e = Some (x + 10) /\
     styleTop e = Some (y - 10) /\ contains "visible" e = true /\
     innerHTML e' = content /\ styleLeft e' = Some (x + 10) /\
     styleTop e' = Some (y - 10) /\ contains "visible" e' = false) /\
  (forall j, j <> i -> hidden !! j = doc !! j) /\
  (querySelector doc "tooltip" = None -> hideTooltip doc = doc).
Proof.
  cbv zeta.
  destruct (showTooltip_spec content x y doc) as (_ & Hother & e & Hi & _ & Hc & Hl & Ht & Hv).
  pose proof (showTooltip_first content x y doc) as Hfirst.
  set (i := default (length doc) (querySelector doc "tooltip")) in *.
  set (shown := showTooltip content x y doc) in *.
  assert (Hhide : hideTooltip shown = alter (classList_remove "visible") i shown).
  { unfold hideTooltip. by rewrite Hfirst. }
  split; [| split].
  - exists e, (classList_remove "visible" e).
    split; [exact Hfirst |]. split; [exact Hi |].
    split; [by rewrite Hhide, list_lookup_alter_eq, Hi |].
    repeat (split; [assumption |]).
    apply not_true_iff_false. rewrite contains_remove. tauto.
  - intros j Hj. rewrite Hhide, list_lookup_alter_ne by congruence. by apply Hother.
  - intros Hnone. unfold hideTooltip. by rewrite Hnone.
Qed.

Lemma showTooltip_count (content : string) (x y : Q) (doc : list Element) :
  (length (List.filter (contains "tooltip") doc) <= 1)%nat ->
  (length (List.filter (contains "tooltip") (showTooltip content x y doc)) <= 1)%nat.
Proof.
  intros Hdoc. unfold showTooltip, createTooltip.
  destruct (querySelector doc "tooltip") as [i|] eqn:Hq.
  - rewrite (count_map_same _ doc); [exact Hdoc |].
    apply map_alter_same. intros e.
      rewrite contains_add_other; [reflexivity | discriminate].
  - apply querySelector_None in Hq.
    rewrite (count_map_same _ (doc ++ [mkElement None ["tooltip"] None "" None None])).
    + rewrite List.filter_app, length_app.
      assert (List.filter (contains "tooltip") doc = []) as ->.
      { clear Hdoc. induction Hq as [|e doc He _ IH]; simpl; [reflexivity |].
        by rewrite He. }
      simpl. lia.
    + apply map_alter_same. intros e.
      rewrite contains_add_other; [reflexivity | discriminate].
Qed.

Lemma hideTooltip_count (doc : list Element) :
  length (List.filter (contains "tooltip") (hideTooltip doc)) =
  length (List.filter (contains "tooltip") doc).
Proof.
  unfold hideTooltip. destruct (querySelector doc "tooltip"); [| reflexivity].
  apply count_map_same, map_alter_same. intros e. apply contains_remove_other.
  discriminate.
Qed.

(** ** Panels and navigation links *)

Lemma contains_classList (c : string) (e e' : Element) :
  classList e' = classList e -> contains c e' = contains c e.
Proof. unfold contains. by intros ->. Qed.

Lemma forEach_lookup (c : string) (f : Element -> Element) (doc : list Element)
  (j : nat) (e : Element) :
  forEachOfClass c f doc !! j = Some e ->
  exists e0, doc !! j = Some e0 /\ e = if contains c e0 then f e0 else e0.
Proof.
  unfold forEachOfClass.
  change (List.map ?g doc) with (g <$> doc). rewrite list_lookup_fmap.
  destruct (doc !! j) as [e0|]; [| discriminate]. simpl. intros [= <-]. eauto.
Qed.

(** The panels after [showPanel]: an active one is the element found by
    [getElementById], which is active if it exists. *)
Lemma showPanel_active (sc : Scripts) (panelId : string) (s : Site) :
  let s' := showPanel sc panelId s in
  let target := getElementById (document s) panelId in
  (forall j e, document s' !! j = Some e -> contains "panel" e = true ->
               contains "active" e = true -> target = Some j) /\
  (forall i, target = Some i ->
             exists e, document s' !! i = Some e /\ contains "active" e = true).
Proof.
  cbv zeta. unfold showPanel.
  set (doc1 := forEachOfClass "panel" (classList_remove "active") (document s)).
  assert (Hid : getElementById doc1 panelId = getElementById (document s) panelId).
  { apply getElementById_same, map_forEach_same. reflexivity. }
  rewrite Hid.
  assert (Hhidden : forall j e, doc1 !! j = Some e -> contains "panel" e = true ->
                                contains "active" e = false).
  { intros j e Hj Hp. apply forEach_lookup in Hj as (e0 & _ & ->).
    destruct (contains "panel" e0) eqn:Hp0; [| congruence].
    apply not_true_iff_false. rewrite contains_remove. tauto. }
  destruct (getElementById (document s) panelId) as [t|] eqn:Ht.
  - set (doc2 := alter (classList_add "active") t doc1).
    pose proof (initializePanelContent_kept classList sc panelId (setDocument doc2 s)
                  (fun _ _ => eq_refl)) as Hcl.
    cbn [setDocument document] in Hcl. split.
    + intros j e Hj Hp Ha.
      destruct (lookup_map_same _ _ _ _ _ Hcl Hj) as (e2 & Hj2 & Hc).
      rewrite (contains_classList "panel" _ _ Hc) in Hp.
      rewrite (contains_classList "active" _ _ Hc) in Ha.
      destruct (decide (j = t)) as [-> | Hne]; [reflexivity |].
      unfold doc2 in Hj2. rewrite list_lookup_alter_ne in Hj2 by congruence.
      rewrite (Hhidden j e2 Hj2 Hp) in Ha. discriminate.
    + intros i [= <-].
      assert (Hlen : (t < length doc1)%nat).
      { apply getElementById_Some in Hid as (e & He & _). by eapply lookup_lt_Some. }
      destruct (lookup_lt_is_Some_2 doc1 t Hlen) as [e1 He1].
      assert (H2 : doc2 !! t = Some (classList_add "active" e1)).
      { unfold doc2. by rewrite list_lookup_alter_eq, He1. }
      symmetry in Hcl.
      destruct (lookup_map_same _ _ _ _ _ Hcl H2) as (e & He & Hc).
      exists e. split; [exact He |].
      rewrite <- (contains_classList "active" _ _ Hc). apply contains_add. by right.
  - cbn [logConsole setDocument document]. split; [| discriminate].
    intros j e Hj Hp Ha. rewrite (Hhidden j e Hj Hp) in Ha. discriminate.
Qed.

(** X15.  After [showPanel(panelId)] at most one panel is shown: an
    element of class [panel] that has the class [active] is the element
    [getElementById(panelId)] finds, and that element, if it exists, is
    active.  If no element has the id, every panel is hidden, a warning is
    written, and nothing is initialised or requested. *)
Theorem X15_showPanel_shows_one_panel (sc : Scripts) (panelId : string) (s : Site) :
  let s' := showPanel sc panelId s in
  let target := getElementById (document s) panelId in
  (forall j e, document s' !! j = Some e -> contains "panel" e = true ->
               contains "active" e = true -> target = Some j) /\
  (forall i, target = Some i ->
             exists e, document s' !! i = Some e /\ contains "active" e = true) /\
  (target = None ->
   Forall (fun e => contains "panel" e = true -> contains "active" e = false)
          (document s') /\
   console s' =
   console s ++ ["Panel with ID " +:+ quote +:+ panelId +:+ quote +:+ " not found"] /\
   initCalls s' = initCalls s /\ loadCalls s' = loadCalls s /\
   requests s' = requests s /\ world s' = world s).
Proof.
  cbv zeta. destruct (showPanel_active sc panelId s) as [Honly Htarget].
  split; [exact Honly |]. split; [exact Htarget |].
  intros Hnone. split.
  - apply Forall_lookup. intros j e Hj Hp. apply not_true_iff_false. intros Ha.
    specialize (Honly j e Hj Hp Ha). congruence.
  - unfold showPanel.
    rewrite (getElementById_same (document s)),
      Hnone by (by apply map_forEach_same).
    repeat split.
Qed.


Section SiteProperties.

Context `{Host}.

Lemma onLoaded_kept {B} (g : Element -> B) (k : nat) (data : list RawLink) (now : Q)
  (s : Site) :
  keptByNavigation g ->
  List.map g (document (onLoaded k data now s)) = List.map g (document s).
Proof.
  intros (Hinner & _ & _). unfold onLoaded.
  destruct (requests s !! k); [| reflexivity].
  destruct (sankeyError data);
    cbn [catchHandler logConsole setWorld setDocument dropRequest document];
    rewrite ?map_alter_same by (by apply Hinner); reflexivity.
Qed.

Lemma onFailed_kept {B} (g : Element -> B) (k : nat) (message : string) (s : Site) :
  keptByNavigation g ->
  List.map g (document (onFailed k message s)) = List.map g (document s).
Proof.
  intros (Hinner & _ & _). unfold onFailed.
  destruct (requests s !! k); [| reflexivity].
  cbn [catchHandler logConsole setDocument dropRequest document]. by apply map_alter_same.
Qed.

Lemma siteStep_tooltips (sc : Scripts) (s : Site) (e : SiteEvent) :
  (length (List.filter (contains "tooltip") (document s)) <= 1)%nat ->
  (length (List.filter (contains "tooltip") (document (siteStep sc s e))) <= 1)%nat.
Proof.
  intros Hs.
  assert (Hk : keptByNavigation (contains "tooltip")).
  { apply keptByNavigation_contains. discriminate. }
  destruct e as [link | hash | k data now | k message | t | content x y |];
    cbn [siteStep setWorld setDocument document].
  - exact Hs.
  - by rewrite (count_map_same _ (document s)) by (by apply onHashChange_kept).
  - by rewrite (count_map_same _ (document s)) by (by apply onLoaded_kept).
  - by rewrite (count_map_same _ (document s)) by (by apply onFailed_kept).
  - exact Hs.
  - by apply showTooltip_count.
  - by rewrite hideTooltip_count.
Qed.

(** X14.  The page never has more than one tooltip element: whatever the
    history of clicks, hash changes, settled requests, animation frames and
    pointer events, a document that starts with at most one element of class
    [tooltip] still has at most one, every [showTooltip] reusing the one
    that exists. *)
Theorem X14_at_most_one_tooltip_element (sc : Scripts) (doc : list Element)
  (hash : string) (events : list SiteEvent) :
  (length (List.filter (contains "tooltip") doc) <= 1)%nat ->
  (length (List.filter (contains "tooltip") (document (runSite sc doc hash events)))
   <= 1)%nat.
Proof.
  intros Hdoc. unfold runSite.
  assert (Hstart : (length (List.filter (contains "tooltip")
                      (document (onHashChange sc hash (initialSite doc)))) <= 1)%nat).
  { rewrite (count_map_same _ doc); [exact Hdoc |].
    apply (onHashChange_kept (contains "tooltip") sc hash (initialSite doc)).
    apply keptByNavigation_contains. discriminate. }
  revert Hstart. generalize (onHashChange sc hash (initialSite doc)).
  induction events as [|e events IH]; intros s Hs; [exact Hs |].
  apply IH. by apply siteStep_tooltips.
Qed.

(** ** Loading each year once *)















End SiteProperties.
(** ** Instances at concrete inputs *)


Lemma exampleRandom_range : randomInRange (H := exampleHost).
Proof.
  intros n. simpl. unfold exampleRandom.
  pose proof (Nat.mod_upper_bound (n * 7) 10) as Hm.
  assert (0 <= inject_Z (Z.of_nat ((n * 7) mod 10))).
  { change 0 with (inject_Z 0). rewrite <- Zle_Qle. lia. }
  assert (inject_Z (Z.of_nat ((n * 7) mod 10)) <= 9).
  { change 9 with (inject_Z 9). rewrite <- Zle_Qle. lia. }
  unfold Qdiv. change (/ 10) with (1 # 10). split; lra.
Qed.

Lemma exampleData_values : Forall (fun l => (0 <= raw_value l)%Z) exampleData.
Proof. repeat constructor; simpl; lia. Qed.

Lemma exampleLoop_reachable : reachable (H := exampleHost) exampleData exampleLoop.
Proof. apply reachable_start. Qed.

Lemma C1_witness :
  randomInRange (H := exampleHost) /\
  Forall (fun l => (0 <= raw_value l)%Z) exampleData /\
  reachable (H := exampleHost) exampleData exampleLoop /\
  Z.of_nat (length (particlesToSpawn (animationState exampleLoop))) = 5%Z.
Proof.
  split; [exact exampleRandom_range |]. split; [exact exampleData_values |].
  split; [exact exampleLoop_reachable |].
  destruct (C1_activation_spawns_one_particle_per_sample exampleData exampleLoop exampleCalls
              exampleRandom_range exampleData_values exampleLoop_reachable)
    as (_ & _ & Hlen & Hdata & _).
  rewrite Hlen, Hdata. reflexivity.
Defined.


Lemma C2_witness :
  randomInRange (H := exampleHost) /\
  reachable (H := exampleHost) exampleData exampleLoop /\
  (exists d, head (particlesToSpawn (animationState exampleLoop)) = Some d /\
     d ∈ particlesToSpawn (animationState exampleLoop) /\
     let p := Particle_new (H := exampleHost) (pd_link d) (pd_color d) 0
                (initialProgress d) exampleCalls in
     progress p == 21 # 100 /\
     1 <= progress (Particle_updates_binary64 p [1000; 1000; 400]) /\
     progress (Particle_updates_binary64 p [1000; 1000; 300]) < 1 /\
     Qpow (1 - unitRoundoff) 5 * 1 <= progress (Particle_updates_binary64 p [790; 790; 790]) /\
     progress (Particle_updates_binary64 p [790; 790; 790]) < 1).
Proof.
  split; [exact exampleRandom_range |]. split; [exact exampleLoop_reachable |].
  destruct (particlesToSpawn (animationState exampleLoop)) as [|d q] eqn:E;
    [vm_compute in E; discriminate |].
  exists d. split; [reflexivity |]. split; [left |].
  assert (Hd : d ∈ particlesToSpawn (animationState exampleLoop)) by (rewrite E; left).
  assert (Hsteps : forall a b c : Q, 1 <= a <= 1000 -> 1 <= b <= 1000 -> 1 <= c <= 1000 ->
                     Forall clockStep [a; b; c]).
  { intros a b c [? ?] [? ?] [? ?].
    apply Forall_cons; split; [right; split; lra |].
    apply Forall_cons; split; [right; split; lra |].
    apply Forall_cons; split; [right; split; lra | apply Forall_nil]. done. }
  destruct (C2_progress_linear_travel_shortened_by_initial_progress exampleData
              exampleLoop d 0 exampleCalls [1000; 1000; 400]
              exampleRandom_range exampleLoop_reachable Hd
              (Hsteps 1000 1000 400 ltac:(split; lra) ltac:(split; lra) ltac:(split; lra)))
    as (_ & _ & _ & _ & _ & _ & Hlate & _).
  destruct (C2_progress_linear_travel_shortened_by_initial_progress exampleData
              exampleLoop d 0 exampleCalls [1000; 1000; 300]
              exampleRandom_range exampleLoop_reachable Hd
              (Hsteps 1000 1000 300 ltac:(split; lra) ltac:(split; lra) ltac:(split; lra)))
    as (_ & _ & _ & _ & _ & _ & _ & Hearly & _).
  destruct (C2_progress_linear_travel_shortened_by_initial_progress exampleData
              exampleLoop d 0 exampleCalls [790; 790; 790]
              exampleRandom_range exampleLoop_reachable Hd
              (Hsteps 790 790 790 ltac:(split; lra) ltac:(split; lra) ltac:(split; lra)))
    as (_ & _ & _ & _ & _ & [Hlow _] & _).
  vm_compute in E. injection E as <- _.
  split; [reflexivity |].
  split; [apply Hlate; by vm_compute |].
  split; [apply Hearly; by vm_compute |].
  split; [| by vm_compute].
  eapply Qle_trans; [| exact Hlow]. by vm_compute.
Defined.

Lemma C5_witness :
  reachable (H := exampleHost) exampleData exampleLoop /\
  mkRawLink "勞工階級" "中低" 0 ∈ exampleData /\
  (exists other, other ∈ exampleData /\ (0 < raw_value other)%Z) /\
  sourceNameOf (nodes (animationState exampleLoop))
    (layoutLink (H := exampleHost) exampleData (mkRawLink "勞工階級" "中低" 0))
  = Some "勞工階級" /\
  strokeWidth (layoutLink (H := exampleHost) exampleData (mkRawLink "勞工階級" "中低" 0)) = 1.
Proof.
  split; [exact exampleLoop_reachable |].
  assert (Hin : mkRawLink "勞工階級" "中低" 0 ∈ exampleData)
    by (apply list_elem_of_In; simpl; tauto).
  assert (Hpos : exists other, other ∈ exampleData /\ (0 < raw_value other)%Z).
  { exists (mkRawLink "下層階級" "低" 3). split; [left | reflexivity]. }
  split; [exact Hin |]. split; [exact Hpos |].
  destruct (C5_zero_value_link_no_particles_minimum_stroke exampleData exampleLoop
              (mkRawLink "勞工階級" "中低" 0) exampleLoop_reachable Hin eq_refl)
    as (_ & _ & _ & Hname & _ & _ & _ & Hwidth).
  split; [exact Hname |]. by destruct (Hwidth Hpos) as (_ & Hs & _).
Defined.

Lemma C6_witness :
  randomInRange (H := exampleHost) /\
  reachable (H := exampleHost) exampleData exampleLoop /\
  StronglySorted delayLe (particlesToSpawn (animationState exampleLoop)) /\
  length (spawned (snd (animate (H := exampleHost) exampleLoop exampleCalls 1000))) = 4%nat.
Proof.
  split; [exact exampleRandom_range |]. split; [exact exampleLoop_reachable |].
  destruct (C6_spawn_in_ascending_delay_when_timer_reaches_it exampleData exampleLoop
              exampleCalls 1000 exampleRandom_range exampleLoop_reachable)
    as (_ & Hsorted & _ & Hmap & _).
  split; [exact Hsorted |].
  apply (f_equal length) in Hmap. rewrite !length_map in Hmap. rewrite Hmap.
  vm_compute. reflexivity.
Defined.

Lemma C7_witness :
  randomInRange (H := exampleHost) /\
  reachable (H := exampleHost) exampleData
    (fst (fst (animate (H := exampleHost) exampleLoop exampleCalls 1000))) /\
  1000 <= 3500 /\
  length (particles (animationState
            (fst (fst (animate (H := exampleHost) exampleLoop exampleCalls 1000))))) = 4%nat /\
  length (particles (animationState
            (fst (fst (animate (H := exampleHost)
               (fst (fst (animate (H := exampleHost) exampleLoop exampleCalls 1000)))
               (snd (fst (animate (H := exampleHost) exampleLoop exampleCalls 1000)))
               3500))))) = 1%nat.
Proof.
  assert (Hr := reachable_frame exampleData exampleLoop exampleCalls 1000
                  exampleLoop_reachable).
  split; [exact exampleRandom_range |]. split; [exact Hr |]. split; [lra |].
  split; [vm_compute; reflexivity |].
  destruct (C7_progress_monotone_and_removed_at_completion exampleData _
              (snd (fst (animate (H := exampleHost) exampleLoop exampleCalls 1000)))
              3500 exampleRandom_range Hr) as (_ & _ & _ & Hlive & _).
  { vm_compute. discriminate. }
  rewrite Hlive. vm_compute. reflexivity.
Defined.

Lemma exampleSqrt_zero (x : Q) : x == 0 -> exampleSqrt x == 0.
Proof.
  unfold Qeq, exampleSqrt. simpl. intros Hx.
  rewrite Z.mul_1_r in Hx. rewrite Hx. reflexivity.
Qed.

Lemma C10_witness :
  let p := fst (Particle_update exampleParticle 1500) in
  progress p < 1 /\
  (forall x, x == 0 -> Math_sqrt (Host := degenerateHost) x == 0) /\
  exists a, Particle_draw (H := degenerateHost) p = Drawn a /\ arc_x a == 5 /\ arc_y a == 7.
Proof.
  cbv zeta.
  assert (Hp : progress (fst (Particle_update exampleParticle 1500)) < 1)
    by (vm_compute; reflexivity).
  split; [exact Hp |]. split; [exact exampleSqrt_zero |].
  destruct (C10_draw_never_divides_by_zero (H := degenerateHost)
              (fst (Particle_update exampleParticle 1500))) as [_ Hdraw].
  apply (Hdraw (mkPoint 5 7) (mkPoint 5 7) Hp); try reflexivity.
  exact exampleSqrt_zero.
Defined.



(** ** Instances of the further properties *)

Lemma X2_witness :
  reachable (H := exampleHost) exampleData exampleLoop /\
  Forall (fun p => color p = "#b49f9f")
         (spawned (snd (animate (H := exampleHost) exampleLoop exampleCalls 1000))).
Proof.
  split; [exact exampleLoop_reachable |].
  destruct (X2_particles_carry_the_tint_of_the_active_class exampleData exampleLoop
              exampleCalls 1000 exampleLoop_reachable) as (_ & _ & _ & _ & Hall & _).
  apply Forall_app in Hall as [_ Hnew].
  eapply Forall_impl; [exact Hnew |]. intros p ->. vm_compute. reflexivity.
Defined.




Lemma X6_witness :
  reachable (H := exampleHost) exampleData exampleLoop /\
  currentClassIndex
    (animationState
       (fst (fst (frames (H := exampleHost) exampleLoop exampleCalls [7000; 14000; 15000]))))
  = 2%nat.
Proof.
  split; [exact exampleLoop_reachable |].
  destruct (X6_classes_visited_in_cyclic_order exampleData [7000; 14000; 15000]
              exampleLoop exampleCalls exampleLoop_reachable) as [_ Hidx].
  rewrite Hidx. vm_compute. reflexivity.
Defined.

Lemma X7_witness :
  name (mkNode "低" 0) ∈ subjectiveOrder ++ objectiveOrder /\
  name (mkNode "上層階級" 1) ∈ subjectiveOrder ++ objectiveOrder /\
  (nodeSort (mkNode "低" 0) (mkNode "上層階級" 1) ?= 0)%Z = Gt.
Proof.
  assert (Ha : name (mkNode "低" 0) ∈ subjectiveOrder ++ objectiveOrder)
    by (apply (bool_decide_unpack _); by vm_compute).
  assert (Hb : name (mkNode "上層階級" 1) ∈ subjectiveOrder ++ objectiveOrder)
    by (apply (bool_decide_unpack _); by vm_compute).
  split; [exact Ha |]. split; [exact Hb |].
  destruct (X7_nodeSort_orders_known_names _ _ Ha Hb) as (Hsign & _).
  rewrite Hsign. vm_compute. reflexivity.
Defined.

Lemma X8_witness :
  (name (mkNode "其他" 0) ∉ subjectiveOrder ++ objectiveOrder) /\
  nodeSort (mkNode "其他" 0) (mkNode "低" 1) = 0%Z /\
  nodeSort (mkNode "其他" 0) (mkNode "高" 2) = 0%Z /\
  nodeSort (mkNode "低" 1) (mkNode "高" 2) <> 0%Z.
Proof.
  assert (Ha : name (mkNode "其他" 0) ∉ subjectiveOrder ++ objectiveOrder)
    by (apply (bool_decide_unpack _); by vm_compute).
  assert (Hn : forall x, x ∈ objectiveOrder -> x ∉ subjectiveOrder).
  { intros x Hx. repeat (apply elem_of_cons in Hx as [-> | Hx]);
      [.. | by apply elem_of_nil in Hx]; apply (bool_decide_unpack _); by vm_compute. }
  assert (H1 : "低" ∈ objectiveOrder) by (apply (bool_decide_unpack _); by vm_compute).
  assert (H2 : "高" ∈ objectiveOrder) by (apply (bool_decide_unpack _); by vm_compute).
  split; [exact Ha |].
  destruct (X8_nodeSort_unknown_names (mkNode "其他" 0) (mkNode "低" 1) Ha)
    as (_ & Htie1 & Hstrict).
  destruct (X8_nodeSort_unknown_names (mkNode "其他" 0) (mkNode "高" 2) Ha)
    as (_ & Htie2 & _).
  split; [apply Htie1, Hn, H1 |]. split; [apply Htie2, Hn, H2 |].
  apply (Hstrict (mkNode "高" 2) H1 H2). discriminate.
Defined.

Lemma X9_witness :
  NoDup CLASS_ORDER /\ NoDup (List.map fst exampleEntries) /\
  (forall e, e ∈ exampleEntries -> fst e ∈ CLASS_ORDER) /\
  List.map fst (sortEntries CLASS_ORDER exampleEntries) =
  ["下層階級"; "中層階級"; "上層階級"].
Proof.
  assert (Hk : NoDup (List.map fst exampleEntries))
    by (apply (bool_decide_unpack _); by vm_compute).
  assert (Hin : forall e, e ∈ exampleEntries -> fst e ∈ CLASS_ORDER).
  { intros e He. repeat (apply elem_of_cons in He as [-> | He]);
      [.. | by apply elem_of_nil in He]; apply (bool_decide_unpack _); by vm_compute. }
  split; [exact CLASS_ORDER_NoDup |]. split; [exact Hk |]. split; [exact Hin |].
  destruct (X9_summary_line_in_class_order CLASS_ORDER exampleEntries CLASS_ORDER_NoDup
              Hk Hin) as [_ Hkeys].
  rewrite Hkeys. vm_compute. reflexivity.
Defined.

Lemma X11_witness :
  (0 < 80)%Z /\ (0 <= 23 <= 80)%Z /\ percentText 23 80 = "28.7" /\
  exists n : Z,
    percentText 23 80 = numberToString (n / 10) +:+ "." +:+ numberToString (n mod 10) /\
    (0 <= n <= 1000)%Z.
Proof.
  assert (Ht : (0 < 80)%Z) by lia. assert (Hc : (0 <= 23 <= 80)%Z) by lia.
  split; [exact Ht |]. split; [exact Hc |].
  split; [by vm_compute |].
  destruct (X11_percentage_within_a_twentieth 23 80 Ht Hc) as (n & Htext & _ & Hn & _).
  exists n. split; assumption.
Defined.

Lemma X12_witness :
  parseChannels "#808080" = Some (128, 128, 128)%Z /\ (0 <= 128 <= 255)%Z /\
  exists v' : Z,
    parseChannels (lightenAndDesaturateColor "#808080") = Some (v', v', v') /\
    (153 <= v' <= 154)%Z.
Proof.
  assert (Hc : parseChannels "#808080" = Some (128, 128, 128)%Z) by reflexivity.
  assert (Hv : (0 <= 128 <= 255)%Z) by lia.
  split; [exact Hc |]. split; [exact Hv |].
  destruct (X12_grey_stays_grey_and_lightens "#808080" 128 Hc Hv)
    as (v' & Hgrey & Hlow & _).
  exists v'. split; [exact Hgrey |]. apply Hlow. lia.
Defined.

Lemma X14_witness :
  (length (List.filter (contains "tooltip") exampleDocument) <= 1)%nat /\
  (length (List.filter (contains "tooltip")
             (document (runSite (H := exampleHost) exampleScripts exampleDocument ""
                          [MouseOver "a" 5 5; MouseOut; MouseOver "b" 7 7]))) <= 1)%nat.
Proof.
  assert (Hdoc : (length (List.filter (contains "tooltip") exampleDocument) <= 1)%nat)
    by (vm_compute; lia).
  split; [exact Hdoc |].
  exact (X14_at_most_one_tooltip_element (H := exampleHost) exampleScripts exampleDocument
           "" [MouseOver "a" 5 5; MouseOut; MouseOver "b" 7 7] Hdoc).
Defined.

Lemma X20_witness :
  Forall (fun l => (0 <= raw_value l)%Z) exampleData /\
  reachable (H := exampleHost) exampleData exampleLoop /\
  Z.of_nat (length (particlesToSpawn (animationState exampleLoop))) = 5%Z.
Proof.
  split; [exact exampleData_values |]. split; [exact exampleLoop_reachable |].
  destruct (X20_live_particles_bounded_by_samples exampleData exampleLoop
              exampleData_values exampleLoop_reachable) as (_ & _ & Hlen & _).
  rewrite Hlen. reflexivity.
Defined.

(** ** Where the specification and the code part *)

(** C2 as stated: every particle takes exactly the 3000 ms travel time from
    its spawn to progress 1.  A particle created at initial progress 0.15 has
    completed after 2600 ms. *)
Lemma C2_counterexample :
  ~ (forall (initial : Q) (deltas : list Q),
       0 <= initial -> initial < 0.3 ->
       let p := Particle_new (H := exampleHost) (link exampleParticle) "#a08080"
                  0 initial 0 in
       1 <= progress (Particle_updates p deltas) <-> 3000 <= Qsum deltas).
Proof.
  intros Hexact.
  destruct (Hexact (3 # 20) [1000; 1000; 600]) as [Hdone _]; [lra | lra |].
  assert (Hlate : 3000 <= Qsum [1000; 1000; 600])
    by (apply Hdone; vm_compute; discriminate).
  vm_compute in Hlate. apply Hlate. reflexivity.
Qed.

(** C4 as stated: on a curve of length zero the draw of the frame is
    skipped.  With every path of length zero the particle is drawn, at the
    single point of its curve. *)
Lemma C4_counterexample :
  let p := fst (Particle_update exampleParticle 1500) in
  getTotalLength (Host := degenerateHost)
    (sankeyLinkHorizontal (Host := degenerateHost) (link p)) = 0 /\
  progress p < 1 /\
  Particle_draw (H := degenerateHost) p <> Skipped /\
  exists a, Particle_draw (H := degenerateHost) p = Drawn a /\ arc_x a == 5 /\ arc_y a == 7.
Proof.
  cbv zeta. split; [reflexivity |]. split; [vm_compute; reflexivity |].
  assert (Hd : exists a, Particle_draw (H := degenerateHost)
                           (fst (Particle_update exampleParticle 1500)) = Drawn a /\
                         arc_x a == 5 /\ arc_y a == 7).
  { eexists. split; [vm_compute; reflexivity |]. split; vm_compute; reflexivity. }
  split; [| exact Hd]. destruct Hd as (a & -> & _). discriminate.
Qed.

(** C5 as stated: a link of weight 0 is rendered with zero width.  Its
    stroke width is 1. *)
Lemma C5_counterexample :
  let l := layoutLink (H := exampleHost) exampleData (mkRawLink "勞工階級" "中低" 0) in
  value l = 0%Z /\ width l == 0 /\ ~ strokeWidth l == 0.
Proof.
  cbv zeta. split; [reflexivity |]. split; [vm_compute; reflexivity |].
  vm_compute. discriminate.
Qed.

